(** * Bhakti Tradition Map: the text normaliser, the compound value parser,
      the filter query builder and the record-to-marker projector of
      [src/server.js], as a shallow embedding.

    JavaScript strings are sequences of UTF-16 code units, so a string is a
    [list N] here; [length], [trim], [toLowerCase] and the regular
    expressions of the source all work on code units.  Regular expressions
    are values of an abstract syntax that are run by a backtracking matcher
    with the priorities of the ECMAScript semantics (greedy quantifiers,
    left alternative first). *)

From Stdlib Require Import List NArith ZArith QArith Bool Lia String Ascii.
From Stdlib Require Import DecimalString.
Import ListNotations.

(** ** Strings of UTF-16 code units *)

Module JsString.

Local Open Scope N_scope.

Definition jsstring := list N.

(** An ASCII literal of the source as a code-unit string. *)
Definition lit (s : string) : jsstring :=
  map N_of_ascii (list_ascii_of_string s).

Definition between (lo hi c : N) : bool := (lo <=? c) && (c <=? hi).

(** WhiteSpace and LineTerminator code units: what [trim] strips and what
    the class [\s] contains. *)
Definition isWhiteSpace (c : N) : bool :=
  between 0x09 0x0D c || (c =? 0x20) || (c =? 0xA0) || (c =? 0x1680)
  || between 0x2000 0x200A c || (c =? 0x2028) || (c =? 0x2029)
  || (c =? 0x202F) || (c =? 0x205F) || (c =? 0x3000) || (c =? 0xFEFF).

Fixpoint dropWhile (p : N -> bool) (s : jsstring) : jsstring :=
  match s with
  | [] => []
  | c :: tl => if p c then dropWhile p tl else s
  end.

Definition trimStart (s : jsstring) : jsstring := dropWhile isWhiteSpace s.
Definition trimEnd (s : jsstring) : jsstring := rev (dropWhile isWhiteSpace (rev s)).

(** [String.prototype.trim] *)
Definition trim (s : jsstring) : jsstring := trimEnd (trimStart s).

(** Unicode case mapping of one code unit.  The tables are those of Basic
    Latin, Latin-1 Supplement, Latin Extended-A, Latin Extended Additional,
    the pair U+0191/U+0192 and the Kelvin and Angstrom signs, which cover
    the romanised names this application stores; a code unit outside these
    blocks is left as it is. *)
Definition lowerCU (c : N) : list N :=
  if between 0x41 0x5A c then [c + 32]
  else if between 0xC0 0xDE c && negb (c =? 0xD7) then [c + 32]
  else if c =? 0x130 then [0x69; 0x307]
  else if (between 0x100 0x12F c || between 0x132 0x137 c
           || between 0x14A 0x177 c) && N.even c then [c + 1]
  else if (between 0x139 0x148 c || between 0x179 0x17E c) && N.odd c
       then [c + 1]
  else if c =? 0x178 then [0xFF]
  else if c =? 0x191 then [0x192]
  else if (between 0x1E00 0x1E95 c || between 0x1EA0 0x1EFF c) && N.even c
       then [c + 1]
  else if c =? 0x1E9E then [0xDF]
  else if c =? 0x212A then [0x6B]
  else if c =? 0x212B then [0xE5]
  else [c].

Definition upperCU (c : N) : list N :=
  if between 0x61 0x7A c then [c - 32]
  else if c =? 0xB5 then [0x39C]
  else if c =? 0xDF then [0x53; 0x53]
  else if between 0xE0 0xFE c && negb (c =? 0xF7) then [c - 32]
  else if c =? 0xFF then [0x178]
  else if c =? 0x131 then [0x49]
  else if c =? 0x149 then [0x2BC; 0x4E]
  else if c =? 0x17F then [0x53]
  else if (between 0x100 0x12F c || between 0x132 0x137 c
           || between 0x14A 0x177 c) && N.odd c then [c - 1]
  else if (between 0x139 0x148 c || between 0x179 0x17E c) && N.even c
       then [c - 1]
  else if c =? 0x192 then [0x191]
  else if (between 0x1E00 0x1E95 c || between 0x1EA0 0x1EFF c) && N.odd c
       then [c - 1]
  else if c =? 0x1E96 then [0x48; 0x331]
  else if c =? 0x1E97 then [0x54; 0x308]
  else if c =? 0x1E98 then [0x57; 0x30A]
  else if c =? 0x1E99 then [0x59; 0x30A]
  else if c =? 0x1E9A then [0x41; 0x2BE]
  else if c =? 0x1E9B then [0x1E60]
  else [c].

(** [String.prototype.toLowerCase] and [toUpperCase] *)
Definition toLowerCase (s : jsstring) : jsstring := flat_map lowerCU s.
Definition toUpperCase (s : jsstring) : jsstring := flat_map upperCU s.

(** The Canonicalize operation of a regular expression with the [i] flag
    and without the [u] flag. *)
Definition canonicalize (c : N) : N :=
  match upperCU c with
  | [u] => if (128 <=? c) && (u <? 128) then c else u
  | _ => c
  end.

(** Simple case folding, under which the document store compares the
    characters of a case-insensitive pattern. *)
Definition caseFold (c : N) : N :=
  if c =? 0x17F then 0x73
  else if c =? 0xB5 then 0x3BC
  else if c =? 0x1E9B then 0x1E61
  else match lowerCU c with
       | [l] => l
       | _ => c
       end.

(** Strict equality of two strings. *)
Fixpoint eqb (a b : jsstring) : bool :=
  match a, b with
  | [], [] => true
  | x :: a', y :: b' => (x =? y) && eqb a' b'
  | _, _ => false
  end.

Fixpoint startsWith (p s : jsstring) : bool :=
  match p, s with
  | [], _ => true
  | x :: p', y :: s' => (x =? y) && startsWith p' s'
  | _ :: _, [] => false
  end.

(** [String.prototype.includes] *)
Fixpoint includes (s p : jsstring) : bool :=
  startsWith p s ||
  match s with
  | [] => false
  | _ :: tl => includes tl p
  end.

(** [s.split(' ')]: splitting at one separator code unit. *)
Fixpoint splitAt (sep : N) (s : jsstring) : list jsstring :=
  match s with
  | [] => [[]]
  | c :: tl =>
      if c =? sep then [] :: splitAt sep tl
      else match splitAt sep tl with
           | w :: ws => (c :: w) :: ws
           | [] => [[c]]
           end
  end.

(** [parts.join(sep)] *)
Fixpoint join (sep : jsstring) (parts : list jsstring) : jsstring :=
  match parts with
  | [] => []
  | [w] => w
  | w :: ws => w ++ sep ++ join sep ws
  end.

(** The number of leading code units of [s] that satisfy [p]. *)
Fixpoint prefixLen (p : N -> bool) (s : jsstring) : nat :=
  match s with
  | [] => O
  | c :: tl => if p c then S (prefixLen p tl) else O
  end.

(** [s] with every run of white space made one space; [inRun] tells that
    the code unit before was white space. *)
Fixpoint collapseFrom (inRun : bool) (s : jsstring) : jsstring :=
  match s with
  | [] => []
  | c :: tl =>
      if isWhiteSpace c
      then (if inRun then collapseFrom true tl
            else 0x20 :: collapseFrom true tl)
      else c :: collapseFrom false tl
  end.

(** [s.charAt(0)] and [s.slice(1)] *)
Definition charAt0 (s : jsstring) : jsstring := firstn 1 s.
Definition slice1 (s : jsstring) : jsstring := skipn 1 s.

End JsString.

Import JsString.

(** ** Regular expressions *)

Module Regex.

Inductive citem : Type :=
| CChar (c : N)
| CSpace.

Inductive regex : Type :=
| Eps
| Chr (c : N)
| Cls (neg : bool) (items : list citem)
| Seq (r1 r2 : regex)
| Alt (r1 r2 : regex)
| Star (r : regex)
| Grp (i : nat) (r : regex)
| Bol
| Eol.

(** [r+], [r?], [r{n,}], a literal word and an alternation of several
    branches. *)
Definition plus (r : regex) : regex := Seq r (Star r).
Definition opt (r : regex) : regex := Alt r Eps.

Fixpoint atLeast (n : nat) (r : regex) : regex :=
  match n with
  | O => Star r
  | S k => Seq r (atLeast k r)
  end.

Fixpoint word (s : jsstring) : regex :=
  match s with
  | [] => Eps
  | c :: tl => Seq (Chr c) (word tl)
  end.

Fixpoint alts (rs : list regex) : regex :=
  match rs with
  | [] => Eps
  | [r] => r
  | r :: tl => Alt r (alts tl)
  end.

(** The state of a match: the index reached, the input still to read and
    the captures made so far (the latest binding of a group first). *)
Record mstate : Type := MState {
  pos : nat;
  rest : jsstring;
  caps : list (nat * jsstring)
}.

Definition capture (i : nat) (st : mstate) : option jsstring :=
  option_map snd (find (fun p => Nat.eqb (fst p) i) (caps st)).

Section Matcher.

(** [canon] is [canonicalize] under the [i] flag and the identity without
    it. *)
Variable canon : N -> N.

Definition item_match (ch : N) (it : citem) : bool :=
  match it with
  | CChar a => N.eqb (canon a) (canon ch)
  | CSpace => isWhiteSpace (canon ch)
  end.

Definition cls_match (neg : bool) (items : list citem) (ch : N) : bool :=
  xorb neg (existsb (item_match ch) items).

Definition step (st : mstate) (tl : jsstring) : mstate :=
  MState (S (pos st)) tl (caps st).

(** The loop of [r*] with [try1] the matcher of [r]: as many rounds of
    [r] as possible first, a round that reads nothing being given up.
    A round reads at least one code unit, so [fuel] rounds, one more than
    the code units left, are never used up. *)
Fixpoint starLoop (try1 : mstate -> list mstate) (fuel : nat) (st0 : mstate)
    {struct fuel} : list mstate :=
  match fuel with
  | O => [st0]
  | S f =>
      flat_map (fun st1 =>
                  if Nat.ltb (pos st0) (pos st1) then starLoop try1 f st1
                  else [])
               (try1 st0) ++ [st0]
  end.

(** All the ways [r] matches at [st], in the order in which a backtracking
    matcher tries them; the first one whose continuation succeeds is the
    match ECMAScript reports.  No pattern of the source has a group under
    a quantifier, so a capture, once made, is never reset. *)
Fixpoint m (r : regex) (st : mstate) : list mstate :=
  match r with
  | Eps => [st]
  | Chr c =>
      match rest st with
      | ch :: tl => if N.eqb (canon c) (canon ch) then [step st tl] else []
      | [] => []
      end
  | Cls neg items =>
      match rest st with
      | ch :: tl => if cls_match neg items ch then [step st tl] else []
      | [] => []
      end
  | Seq r1 r2 => flat_map (m r2) (m r1 st)
  | Alt r1 r2 => m r1 st ++ m r2 st
  | Star r1 => starLoop (m r1) (S (List.length (rest st))) st
  | Grp i r1 =>
      map (fun st1 =>
             MState (pos st1) (rest st1)
                    ((i, firstn (pos st1 - pos st) (rest st)) :: caps st1))
          (m r1 st)
  | Bol => if Nat.eqb (pos st) 0 then [st] else []
  | Eol => match rest st with [] => [st] | _ :: _ => [] end
  end.

(** The match the engine reports when it is started at index [p], with [s]
    the input from that index on. *)
Definition matchAt (r : regex) (p : nat) (s : jsstring) : option mstate :=
  hd_error (m r (MState p s [])).

Definition matchLen (r : regex) (p : nat) (s : jsstring) : option nat :=
  option_map (fun st => pos st - p)%nat (matchAt r p s).

(** The leftmost match at or after index [p]: its start and its end state. *)
Fixpoint search (r : regex) (p : nat) (s : jsstring) : option (nat * mstate) :=
  match matchAt r p s with
  | Some st => Some (p, st)
  | None =>
      match s with
      | [] => None
      | _ :: tl => search r (S p) tl
      end
  end.

Definition found (o : option mstate) : bool :=
  match o with Some _ => true | None => false end.

(** [r.test(s)] *)
Definition test (r : regex) (s : jsstring) : bool :=
  match search r 0 s with Some _ => true | None => false end.

(** [s.replace(r, ...)] for a regular expression with the [g] flag: every
    match, found from left to right, is replaced by [rep] of the matched
    text.  [skip] counts the code units of the current match still to be
    passed over; after an empty match the search resumes one code unit
    further on. *)
Fixpoint replaceGo (r : regex) (rep : jsstring -> jsstring)
    (skip p : nat) (s : jsstring) {struct s} : jsstring :=
  match skip with
  | S k =>
      match s with
      | [] => []
      | _ :: tl => replaceGo r rep k (S p) tl
      end
  | O =>
      match matchLen r p s with
      | Some n =>
          rep (firstn n s) ++
          match s with
          | [] => []
          | c :: tl =>
              match n with
              | O => c :: replaceGo r rep 0 (S p) tl
              | S k => replaceGo r rep k (S p) tl
              end
          end
      | None =>
          match s with
          | [] => []
          | c :: tl => c :: replaceGo r rep 0 (S p) tl
          end
      end
  end.

Definition replaceAll (r : regex) (rep : jsstring -> jsstring)
    (s : jsstring) : jsstring :=
  replaceGo r rep 0 0 s.

(** [s.replace(r, ...)] without the [g] flag: the leftmost match only. *)
Fixpoint replaceFirstGo (r : regex) (rep : jsstring -> jsstring)
    (p : nat) (s : jsstring) {struct s} : jsstring :=
  match matchLen r p s with
  | Some n => rep (firstn n s) ++ skipn n s
  | None =>
      match s with
      | [] => []
      | c :: tl => c :: replaceFirstGo r rep (S p) tl
      end
  end.

Definition replaceFirst (r : regex) (rep : jsstring -> jsstring)
    (s : jsstring) : jsstring :=
  replaceFirstGo r rep 0 s.

(** [s.match(r)] for a regular expression with the [g] flag: the matched
    texts from left to right, [None] standing for the [null] JavaScript
    returns when there is no match. *)
Fixpoint matchesGo (r : regex) (skip p : nat) (s : jsstring) {struct s}
    : list jsstring :=
  match skip with
  | S k =>
      match s with
      | [] => []
      | _ :: tl => matchesGo r k (S p) tl
      end
  | O =>
      match matchLen r p s with
      | Some n =>
          firstn n s ::
          match s with
          | [] => []
          | _ :: tl =>
              match n with
              | O => matchesGo r 0 (S p) tl
              | S k => matchesGo r k (S p) tl
              end
          end
      | None =>
          match s with
          | [] => []
          | _ :: tl => matchesGo r 0 (S p) tl
          end
      end
  end.

Definition matchAll (r : regex) (s : jsstring) : option (list jsstring) :=
  match matchesGo r 0 0 s with
  | [] => None
  | l => Some l
  end.

(** [s.split(r)]: the loop of the ECMAScript split algorithm.  [cur] holds,
    reversed, the piece being read; a match that ends where the piece began
    is ignored, and no match is tried at the end of the input. *)
Fixpoint splitGo (r : regex) (skip p : nat) (cur s : jsstring) {struct s}
    : list jsstring :=
  match s with
  | [] => [rev cur]
  | c :: tl =>
      match skip with
      | S k => splitGo r k (S p) cur tl
      | O =>
          match matchLen r p s with
          | Some (S k) => rev cur :: splitGo r k (S p) [] tl
          | Some O =>
              match cur with
              | [] => splitGo r 0 (S p) [c] tl
              | _ :: _ => rev cur :: splitGo r 0 (S p) [c] tl
              end
          | None => splitGo r 0 (S p) (c :: cur) tl
          end
      end
  end.

Definition split (r : regex) (s : jsstring) : list jsstring :=
  match s with
  | [] => match matchAt r 0 [] with Some _ => [] | None => [[]] end
  | _ :: _ => splitGo r 0 0 [] s
  end.

End Matcher.

(** Whether every match of [r] gives group [i] a text. *)
Fixpoint binds (i : nat) (r : regex) : bool :=
  match r with
  | Grp j r1 => Nat.eqb j i || binds i r1
  | Seq r1 r2 => binds i r1 || binds i r2
  | Alt r1 r2 => binds i r1 && binds i r2
  | _ => false
  end.

End Regex.

Import Regex.

(** ** JavaScript values and abrupt completion *)

Module Js.

Set Warnings "-register-all".

(** The members of [Object.prototype] that a property read on a plain
    object literal can reach. *)
Inductive builtin : Type :=
| BObject                                   (* the Object constructor *)
| BObjectPrototype                          (* Object.prototype itself *)
| BMethod (name : jsstring) (arity : nat).  (* a method of Object.prototype *)

Inductive value : Type :=
| VUndefined
| VNull
| VBool (b : bool)
| VNumber (q : Q)
| VString (s : jsstring)
| VArray (xs : list value)
| VObject (props : list (jsstring * value))
| VBuiltin (b : builtin).

(** [TypeError] is the JavaScript exception; [ConversionFailure] is the
    failure of a conversion inside a query of the document store;
    [Unsupported] marks a pattern text or a comparison outside what this
    development interprets. *)
Inductive error : Type :=
| TypeError
| ConversionFailure
| Unsupported.

(** A computation either returns or throws. *)
Inductive result (A : Type) : Type :=
| Ok (a : A)
| Throw (e : error).

Arguments Ok {A} a.
Arguments Throw {A} e.

Definition bind {A B : Type} (c : result A) (k : A -> result B) : result B :=
  match c with
  | Ok a => k a
  | Throw e => Throw e
  end.

Declare Scope js_scope.
Delimit Scope js_scope with js.
Notation "x <- c ;; k" := (bind c (fun x => k))
  (at level 61, c at next level, right associativity) : js_scope.
Notation "'ret' a" := (Ok a) (at level 60) : js_scope.

(** [arr.forEach(f)] over a list, [acc] being the state [f] updates. *)
Fixpoint forEach {A S : Type} (f : S -> A -> result S) (xs : list A) (acc : S)
    : result S :=
  match xs with
  | [] => Ok acc
  | x :: tl => bind (f acc x) (forEach f tl)
  end.

(** ToBoolean *)
Definition truthy (v : value) : bool :=
  match v with
  | VUndefined | VNull => false
  | VBool b => b
  | VNumber q => negb (Qeq_bool q 0)
  | VString s => match s with [] => false | _ :: _ => true end
  | _ => true
  end.

Inductive jstype : Type :=
| TUndefined | TObject | TBoolean | TNumber | TString | TFunction.

(** The [typeof] operator *)
Definition typeof (v : value) : jstype :=
  match v with
  | VUndefined => TUndefined
  | VNull => TObject
  | VBool _ => TBoolean
  | VNumber _ => TNumber
  | VString _ => TString
  | VBuiltin BObjectPrototype => TObject
  | VBuiltin _ => TFunction
  | _ => TObject
  end.

Definition isString (v : value) : bool :=
  match v with VString _ => true | _ => false end.

Definition fromNat (n : nat) : value := VNumber (inject_Z (Z.of_nat n)).

(** The properties every plain object inherits from [Object.prototype]. *)
Definition objectPrototype : list (jsstring * value) :=
  [ (lit "constructor", VBuiltin BObject);
    (lit "__proto__", VBuiltin BObjectPrototype);
    (lit "hasOwnProperty", VBuiltin (BMethod (lit "hasOwnProperty") 1));
    (lit "isPrototypeOf", VBuiltin (BMethod (lit "isPrototypeOf") 1));
    (lit "propertyIsEnumerable",
       VBuiltin (BMethod (lit "propertyIsEnumerable") 1));
    (lit "toString", VBuiltin (BMethod (lit "toString") 0));
    (lit "toLocaleString", VBuiltin (BMethod (lit "toLocaleString") 0));
    (lit "valueOf", VBuiltin (BMethod (lit "valueOf") 0));
    (lit "__defineGetter__", VBuiltin (BMethod (lit "__defineGetter__") 2));
    (lit "__defineSetter__", VBuiltin (BMethod (lit "__defineSetter__") 2));
    (lit "__lookupGetter__", VBuiltin (BMethod (lit "__lookupGetter__") 1));
    (lit "__lookupSetter__", VBuiltin (BMethod (lit "__lookupSetter__") 1)) ].

Fixpoint assoc {A : Type} (k : jsstring) (l : list (jsstring * A)) : option A :=
  match l with
  | [] => None
  | (k', v) :: tl => if JsString.eqb k' k then Some v else assoc k tl
  end.

(** [o[k]] on an object whose own properties are [own]: the own property,
    else the inherited one, else [undefined]. *)
Definition lookup (own : list (jsstring * value)) (k : jsstring) : value :=
  match assoc k own with
  | Some v => v
  | None =>
      match assoc k objectPrototype with
      | Some v => v
      | None => VUndefined
      end
  end.

(** [v.k], a property read.  It throws on [undefined] and [null].  Of the
    members of [String.prototype], [Array.prototype] and
    [Function.prototype] only [length] (and [name] of a function) is
    modelled; the source reads no other of them from a value whose type it
    does not know. *)
Definition getProp (v : value) (k : jsstring) : result value :=
  match v with
  | VUndefined | VNull => Throw TypeError
  | VString s =>
      if JsString.eqb k (lit "length") then Ok (fromNat (List.length s))
      else Ok VUndefined
  | VArray xs =>
      if JsString.eqb k (lit "length") then Ok (fromNat (List.length xs))
      else Ok VUndefined
  | VObject props => Ok (lookup props k)
  | VBuiltin BObject =>
      if JsString.eqb k (lit "length") then Ok (fromNat 1)
      else if JsString.eqb k (lit "name") then Ok (VString (lit "Object"))
      else Ok (lookup [] k)
  | VBuiltin (BMethod name n) =>
      if JsString.eqb k (lit "length") then Ok (fromNat n)
      else if JsString.eqb k (lit "name") then Ok (VString name)
      else Ok (lookup [] k)
  | VBuiltin BObjectPrototype => Ok (lookup [] k)
  | VBool _ | VNumber _ => Ok VUndefined
  end.

(** [v?.k] *)
Definition getPropOpt (v : value) (k : jsstring) : result value :=
  match v with
  | VUndefined | VNull => Ok VUndefined
  | _ => getProp v k
  end.

(** [v.length] *)
Definition lengthOf (v : value) : result value := getProp v (lit "length").

(** [v > n] and [v === n] for a number literal [n], where [v] is a
    length: a number, or [undefined], for which both are false. *)
Definition gtNat (v : value) (n : nat) : bool :=
  match v with
  | VNumber q => negb (Qle_bool q (inject_Z (Z.of_nat n)))
  | _ => false
  end.

Definition strictEqNat (v : value) (n : nat) : bool :=
  match v with
  | VNumber q => Qeq_bool q (inject_Z (Z.of_nat n))
  | _ => false
  end.

(** [v.trim()]: a method call, which throws when [v] has no such method. *)
Definition callTrim (v : value) : result jsstring :=
  match v with
  | VString s => Ok (trim s)
  | _ => Throw TypeError
  end.

Definition builtin_eqb (a b : builtin) : bool :=
  match a, b with
  | BObject, BObject => true
  | BObjectPrototype, BObjectPrototype => true
  | BMethod n _, BMethod n' _ => JsString.eqb n n'
  | _, _ => false
  end.

(** SameValueZero on the values a [Set] of this program receives (strings,
    [null] and built-in objects); two arrays or objects are the same only
    when they are one reference, which a value of this type does not
    record. *)
Definition sameValueZero (a b : value) : bool :=
  match a, b with
  | VUndefined, VUndefined => true
  | VNull, VNull => true
  | VBool x, VBool y => Bool.eqb x y
  | VNumber x, VNumber y => Qeq_bool x y
  | VString x, VString y => JsString.eqb x y
  | VBuiltin x, VBuiltin y => builtin_eqb x y
  | _, _ => false
  end.

(** [set.add(v)] on a [Set] kept in insertion order. *)
Definition setAdd (set : list value) (v : value) : list value :=
  if existsb (sameValueZero v) set then set else set ++ [v].

End Js.

Import Js.
Local Open Scope js_scope.

(** ** Text normaliser (normalizeLanguageName, normalizeTraditionName) *)

(** The code unit of a one-character ASCII literal. *)
Definition ch (s : string) : N := hd 0%N (lit s).

(** Without the [i] flag a character stands for itself. *)
Definition exact (c : N) : N := c.

(** [\s] *)
Definition ws : regex := Cls false [CSpace].

(** [/[()]/g] *)
Definition reParens : regex := Cls false [CChar (ch "("); CChar (ch ")")].

(** [/\s+/g] and [/\s+/] *)
Definition reSpaces : regex := plus ws.

Definition languageNormalizations : list (jsstring * value) :=
  map (fun p => (lit (fst p), VString (lit (snd p))))
  [ ("brajbhasa", "Braj Bhasha"); ("brajbhasha", "Braj Bhasha");
    ("braj bhasa", "Braj Bhasha"); ("braj", "Braj Bhasha");
    ("brij bhasha", "Braj Bhasha"); ("brijbhasha", "Braj Bhasha");
    ("hindii", "Hindi"); ("hindustani", "Hindi");
    ("sanskirt", "Sanskrit"); ("sankrit", "Sanskrit");
    ("sanskrit-derived", "Sanskrit");
    ("bangla", "Bengali"); ("panjabi", "Punjabi"); ("tamizh", "Tamil");
    ("telegu", "Telugu"); ("kannad", "Kannada"); ("gujrati", "Gujarati");
    ("avadhi", "Awadhi"); ("maithali", "Maithili"); ("farsi", "Persian");
    ("odiya", "Odia"); ("oriya", "Odia"); ("marwari", "Marwari");
    ("sant bhasha", "Sant Bhasha"); ("kashmiri", "Kashmiri") ]%string.

(** [word.charAt(0).toUpperCase() + word.slice(1)] *)
Definition capitalize (w : jsstring) : jsstring :=
  toUpperCase (charAt0 w) ++ slice1 w.

Definition normalizeLanguageName (name : value) : result value :=
  if negb (truthy name) then ret name
  else
    t <- callTrim name ;;
    let cleaned :=
      replaceAll exact reSpaces (fun _ => lit " ")
        (replaceAll exact reParens (fun _ => []) t) in
    if Nat.ltb (List.length cleaned) 2 then ret VNull
    else
      let lowerName := toLowerCase cleaned in
      let hit := lookup languageNormalizations lowerName in
      if truthy hit then ret hit
      else
        ret (VString (join (lit " ")
                        (map capitalize (splitAt (ch " ") cleaned)))).

(** The keys of the tradition table are the string literals of the source
    file, code unit for code unit. *)
Definition traditionNormalizations : list (jsstring * value) :=
    [ (lit "vaisnava", VString (lit "Vaishnava"));
    (lit "vai" ++ [0xB7; 0x3C0; 0xA3; 0xB7; 0x3C0; 0xE1] ++ lit "ava",
       VString (lit "Vaishnava"));
    (lit "vaishnavism", VString (lit "Vaishnava"));
    (lit "saiva", VString (lit "Shaiva"));
    ([0x2248; 0xF5] ++ lit "aiva", VString (lit "Shaiva"));
    (lit "shaivism", VString (lit "Shaiva"));
    (lit "siddh" ++ [0x192; 0xC5] ++ lit "nta", VString (lit "Siddhanta"));
    (lit "li" ++ [0xB7; 0x3C0; 0xD6] ++ lit "g" ++ [0x192; 0xC5] ++ lit "yat",
       VString (lit "Lingayat"));
    (lit "ling" ++ [0x192; 0xC5] ++ lit "yat", VString (lit "Lingayat"));
    (lit "v" ++ [0x192; 0xC5] ++ lit "rkari", VString (lit "Varkari"));
    (lit "gau" ++ [0xB7; 0x220F; 0xE7; 0x192; 0xB4] ++ lit "ya", VString (lit "Gaudiya"));
    (lit "gaud" ++ [0x192; 0xB4] ++ lit "ya", VString (lit "Gaudiya"));
    (lit "v" ++ [0x192; 0xB4] ++ lit "ra" ++ [0x2248; 0xF5] ++ lit "aiva",
       VString (lit "Virashaiva"));
    (lit "virasaiva", VString (lit "Virashaiva"));
    ([0x192; 0xC5; 0xB7; 0x220F; 0xAA] ++ lit "v" ++ [0x192; 0xC5] ++ lit "rs",
       VString (lit "Alvars"));
    (lit "alwars", VString (lit "Alvars"));
    (lit "n" ++ [0x192; 0xC5] ++ lit "yan" ++ [0x192; 0xC5] ++ lit "rs",
       VString (lit "Nayanars"));
    (lit "nayanmars", VString (lit "Nayanars")) ]%N.

Definition normalizeTraditionName (name : value) : result value :=
  if negb (truthy name) then ret name
  else
    t <- callTrim name ;;
    let cleaned := replaceAll exact reSpaces (fun _ => lit " ") t in
    if Nat.ltb (List.length cleaned) 2 then ret VNull
    else
      let lowerName := toLowerCase cleaned in
      let hit := lookup traditionNormalizations lowerName in
      if truthy hit then ret hit
      else ret (VString cleaned).

(** ** Compound value parser (parseLanguageValue, parseTraditionValue) *)

Definition notRParen : regex := Cls true [CChar (ch ")")].
Definition notLParen : regex := Cls true [CChar (ch "(")].

(** [/\([^)]{50,}\)/g] *)
Definition reLongParen : regex :=
  Seq (Chr (ch "(")) (Seq (atLeast 50 notRParen) (Chr (ch ")"))).

(** [dialects?] *)
Definition reDialectWord : regex :=
  Seq (word (lit "dialect")) (opt (Chr (ch "s"))).

(** [/\(([^)]+)\s*dialects?\)/gi] *)
Definition reDialects : regex :=
  Seq (Chr (ch "("))
    (Seq (Grp 1 (plus notRParen))
       (Seq (Star ws) (Seq reDialectWord (Chr (ch ")"))))).

(** [/\(|\)|dialects?/gi] *)
Definition reDialectStrip : regex :=
  Alt (Chr (ch "(")) (Alt (Chr (ch ")")) reDialectWord).

(** [/[,\/]/] *)
Definition reCommaSlash : regex :=
  Cls false [CChar (ch ","); CChar (ch "/")].

(** [/\([^)]+\s*dialects?\)/gi] *)
Definition reDialectsDrop : regex :=
  Seq (Chr (ch "("))
    (Seq (plus notRParen)
       (Seq (Star ws) (Seq reDialectWord (Chr (ch ")"))))).

(** [/\s*\([^)]*\)/g] *)
Definition reAnyParen : regex :=
  Seq (Star ws) (Seq (Chr (ch "(")) (Seq (Star notRParen) (Chr (ch ")")))).

(** [/[,\/;|&]|\s+and\s+/gi] *)
Definition separatorRegex : regex :=
  Alt (Cls false [CChar (ch ","); CChar (ch "/"); CChar (ch ";");
                  CChar (ch "|"); CChar (ch "&")])
      (Seq (plus ws) (Seq (word (lit "and")) (plus ws))).

Definition skipPhrases : list jsstring :=
  map lit [ "derived terms"; "influences"; "other local"; "sometimes";
            "spiritual vernacular"; "common to"; "words"; "from eastern";
            "primary"; "secondary" ]%string.

Definition qualifiers : list jsstring :=
  map lit [ "primary"; "secondary"; "sometimes"; "mostly"; "mainly" ]%string.

Definition nonEmpty (s : jsstring) : bool :=
  match s with [] => false | _ :: _ => true end.

(** The pieces pushed on [extractedDialects] for the dialect groups found. *)
Definition extractDialects (dialectMatches : list jsstring) : list jsstring :=
  flat_map
    (fun mt =>
       let inner :=
         trim (replaceAll canonicalize reDialectStrip (fun _ => []) mt) in
       let parts := split exact reCommaSlash inner in
       flat_map
         (fun p =>
            let cleaned := trim p in
            if nonEmpty cleaned && Nat.ltb 1 (List.length cleaned)
            then [cleaned] else [])
         parts)
    dialectMatches.

(** The body of the [forEach] over the candidate parts of a language
    value; [results] is the [Set] being filled. *)
Definition languagePart (results : list value) (part : jsstring)
    : result (list value) :=
  let cleaned := trim part in
  if negb (nonEmpty cleaned) || Nat.ltb (List.length cleaned) 2
  then ret results
  else
    let lowerCleaned := toLowerCase cleaned in
    if existsb (fun phrase => includes lowerCleaned phrase) skipPhrases
    then ret results
    else if existsb (JsString.eqb lowerCleaned) qualifiers
    then ret results
    else
      cleaned' <- normalizeLanguageName (VString cleaned) ;;
      if truthy cleaned'
      then
        len <- lengthOf cleaned' ;;
        if gtNat len 1 then ret (setAdd results cleaned') else ret results
      else ret results.

Definition parseLanguageValue (value : Js.value) : result (list Js.value) :=
  if negb (truthy value) || negb (isString value) then ret []
  else
    match value with
    | VString workingValue0 =>
        let workingValue1 :=
          replaceAll exact reLongParen (fun _ => []) workingValue0 in
        let dialectMatches := matchAll canonicalize reDialects workingValue1 in
        let '(extractedDialects, workingValue2) :=
          match dialectMatches with
          | Some ms =>
              (extractDialects ms,
               replaceAll canonicalize reDialectsDrop (fun _ => [])
                 workingValue1)
          | None => ([], workingValue1)
          end in
        let workingValue3 :=
          replaceAll exact reAnyParen (fun _ => []) workingValue2 in
        let parts := split canonicalize separatorRegex workingValue3 in
        forEach languagePart (parts ++ extractedDialects) []
    | _ => Throw TypeError
    end.

(** [/\s*[...]\s*|\s+-\s+/]; the class holds the six code units between
    the brackets in the source file. *)
Definition reDash : regex :=
  Alt (Seq (Star ws)
         (Seq (Cls false [CChar 0x201A%N; CChar 0xC4%N; CChar 0xEC%N;
                          CChar 0x201A%N; CChar 0xC4%N; CChar 0xEE%N])
              (Star ws)))
      (Seq (plus ws) (Seq (Chr (ch "-")) (plus ws))).

(** [/\s*\/\s*/] *)
Definition reSlash : regex :=
  Seq (Star ws) (Seq (Chr (ch "/")) (Star ws)).

(** [/^([^(]+)\s*\(([^)]+)\)/] *)
Definition reMainParen : regex :=
  Seq Bol
    (Seq (Grp 1 (plus notLParen))
       (Seq (Star ws)
          (Seq (Chr (ch "("))
             (Seq (Grp 2 (plus notRParen)) (Chr (ch ")")))))).

(** [/devotion|rooted|lineage|...|spiritual/i] *)
Definition reDescription : regex :=
  alts (map (fun w => word (lit w))
          [ "devotion"; "rooted"; "lineage"; "philosophical"; "synthesis";
            "movement"; "tradition"; "school"; "common"; "spiritual" ]%string).

(** [/canon|Nayanars/i] *)
Definition reCanon : regex :=
  Alt (word (lit "canon")) (word (lit "Nayanars")).

(** [/\s+(tradition|movement|devotion|canon)$/i] *)
Definition reSuffix : regex :=
  Seq (plus ws)
    (Seq (Grp 1 (alts (map (fun w => word (lit w))
                         [ "tradition"; "movement"; "devotion";
                           "canon" ]%string)))
         Eol).

(** [parenMatch[i]] of a successful match: the text of group [i], or
    [undefined] when the group took no part in the match. *)
Definition group (st : mstate) (i : nat) : value :=
  match capture i st with
  | Some s => VString s
  | None => VUndefined
  end.

(** [results.add(normalizeTraditionName(x))] *)
Definition addTradition (results : list value) (x : jsstring)
    : result (list value) :=
  n <- normalizeTraditionName (VString x) ;;
  ret (setAdd results n).

Definition traditionAlt (results : list value) (alt : jsstring)
    : result (list value) :=
  let cleanAlt := trim alt in
  if nonEmpty cleanAlt && Nat.ltb 3 (List.length cleanAlt)
     && negb (test canonicalize reCanon cleanAlt)
  then addTradition results cleanAlt
  else ret results.

Definition traditionSubPart (results : list value) (subPart : jsstring)
    : result (list value) :=
  match search exact reMainParen 0 subPart with
  | Some (_, parenMatch) =>
      mainPart <- callTrim (group parenMatch 1) ;;
      parenContent <- callTrim (group parenMatch 2) ;;
      results1 <-
        (if nonEmpty mainPart && Nat.ltb 2 (List.length mainPart)
         then addTradition results mainPart
         else ret results) ;;
      let wordCount := List.length (split exact reSpaces parenContent) in
      let isDescription :=
        Nat.ltb 5 wordCount || test canonicalize reDescription parenContent in
      if negb isDescription && Nat.leb wordCount 4
      then forEach traditionAlt (split exact reSlash parenContent) results1
      else ret results1
  | None =>
      let cleaned0 :=
        trim (replaceAll exact reAnyParen (fun _ => []) subPart) in
      let cleaned :=
        replaceFirst canonicalize reSuffix (fun _ => []) cleaned0 in
      if nonEmpty cleaned && Nat.ltb 2 (List.length cleaned)
      then addTradition results cleaned
      else ret results
  end.

Definition traditionPart (results : list value) (part : jsstring)
    : result (list value) :=
  forEach traditionSubPart (split exact reSlash part) results.

Definition parseTraditionValue (value : Js.value) : result (list Js.value) :=
  if negb (truthy value) || negb (isString value) then ret []
  else
    match value with
    | VString s => forEach traditionPart (split exact reDash s) []
    | _ => Throw TypeError
    end.

(** ** Filter query builder (the handler of GET /api/traditions)

    The query parameters [tradition], [language], [traditionType],
    [gender], [startYearMin] and [startYearMax] are modelled.  The
    parameters [period], [saint] and [search] are compiled by the source as
    patterns written by the client, whose syntax is not interpreted here,
    and [placeType] filters markers after the query; a request is taken to
    leave them out. *)

Module Filter.

Local Open Scope N_scope.

(** [/[.*+?^${}()|[\]\\]/g] *)
Definition reMeta : regex :=
  Cls false (map CChar (lit ".*+?^${}()|[]\")).

(** [v.replace(/[.*+?^${}()|[\]\\]/g, '\\$&')] *)
Definition escapeRegExp (v : jsstring) : jsstring :=
  replaceAll exact reMeta (fun matched => ch "\" :: matched) v.

Definition isOneOf (s : jsstring) (names : list string) : bool :=
  existsb (fun n => JsString.eqb s (lit n)) names.

(** The [variations] array of the tradition filter; the diacritic
    spellings are the string literals of the source file, code unit for
    code unit. *)
Definition traditionVariations (tradSearch : jsstring) : list jsstring :=
  let lowerTrad := toLowerCase tradSearch in
  [tradSearch] ++
  (if isOneOf lowerTrad ["shaiva"; "saiva"]%string then
     [ [0x2248; 0xF6] ++ lit "aiva"; lit "Saiva"; lit "Shaiva";
       lit "Shaivism" ]
   else if isOneOf lowerTrad ["vaishnava"; "vaisnava"]%string then
     [ lit "Vai" ++ [0xB7; 0x3C0; 0xA3; 0xB7; 0x3C0; 0xE1] ++ lit "ava";
       lit "Vaisnava"; lit "Vaishnava"; lit "Vaishnavism" ]
   else if isOneOf lowerTrad ["lingayat"]%string then
     [ lit "Li" ++ [0xB7; 0x3C0; 0xD6] ++ lit "g" ++ [0x192; 0xC5] ++ lit "yat";
       lit "Ling" ++ [0x192; 0xC5] ++ lit "yat";
       lit "Virashaiva";
       lit "V" ++ [0x192; 0xB4] ++ lit "ra" ++ [0x2248; 0xF5] ++ lit "aiva" ]
   else if isOneOf lowerTrad ["varkari"]%string then
     [ lit "V" ++ [0x192; 0xC5] ++ lit "rkari"; lit "Varkari Sampradaya" ]
   else if isOneOf lowerTrad ["gaudiya"]%string then
     [ lit "Gau" ++ [0xB7; 0x220F; 0xE7; 0x192; 0xB4] ++ lit "ya";
       lit "Gaud" ++ [0x192; 0xB4] ++ lit "ya" ]
   else if isOneOf lowerTrad ["alvars"]%string then
     [ [0x192; 0xC4; 0xB7; 0x220F; 0xAA] ++ lit "v" ++ [0x192; 0xC5] ++ lit "rs";
       lit "Alwars" ]
   else if isOneOf lowerTrad ["nayanars"]%string then
     [ lit "N" ++ [0x192; 0xC5] ++ lit "yan" ++ [0x192; 0xC5] ++ lit "rs";
       lit "Nayanmars" ]
   else []).

Definition languageVariations (langSearch : jsstring) : list jsstring :=
  let lowerLang := toLowerCase langSearch in
  [langSearch] ++
  (if isOneOf lowerLang ["braj bhasha"]%string then
     map lit ["Braj Bhasa"; "BrajBhasha"; "BrajBhasa"; "Brij Bhasha";
              "Braj"]%string
   else if isOneOf lowerLang ["hindi"]%string then
     map lit ["Hindii"; "Hindustani"]%string
   else if isOneOf lowerLang ["sanskrit"]%string then
     map lit ["Sanskirt"; "Sankrit"; "Sanskrit-derived"]%string
   else if isOneOf lowerLang ["bengali"]%string then map lit ["Bangla"]%string
   else if isOneOf lowerLang ["punjabi"]%string then map lit ["Panjabi"]%string
   else if isOneOf lowerLang ["tamil"]%string then map lit ["Tamizh"]%string
   else if isOneOf lowerLang ["odia"]%string then
     map lit ["Odiya"; "Oriya"]%string
   else []).

(** [escaped.join('|')], the source text of the pattern; its flag is [i]. *)
Definition patternSource (variations : list jsstring) : jsstring :=
  join (lit "|") (map escapeRegExp variations).

(** An aggregation expression of the document store. *)
Inductive expr : Type :=
| EField (name : jsstring)          (* '$name' *)
| ELit (v : value)
| EIfNull (e d : expr)              (* { $ifNull: [e, d] } *)
| EToInt (e : expr)                 (* { $toInt: e } *)
| EGte (a b : expr)                 (* { $gte: [a, b] } *)
| ELte (a b : expr).                (* { $lte: [a, b] } *)

(** The [filter] object handed to [find]. *)
Record filter : Type := MkFilter {
  f_tradition : option jsstring;      (* source of a pattern with flag i *)
  f_language : option jsstring;       (* source of a pattern with flag i *)
  f_traditionType : option jsstring;
  f_gender : option jsstring;
  f_and : list expr                   (* the $expr members of $and *)
}.

(** [req.query], each parameter a string when present. *)
Record criteria : Type := MkCriteria {
  tradition : option jsstring;
  traditionType : option jsstring;
  gender : option jsstring;
  language : option jsstring;
  startYearMin : option jsstring;
  startYearMax : option jsstring
}.

Definition noCriteria : criteria :=
  MkCriteria None None None None None None.

(** [if (x)] on a query parameter: present and not the empty string. *)
Definition given (x : option jsstring) : option jsstring :=
  match x with
  | Some ((_ :: _) as s) => Some s
  | _ => None
  end.

Definition isDigit (c : N) : bool := between 0x30 0x39 c.

Fixpoint digits (acc : Z) (s : jsstring) : Z :=
  match s with
  | [] => acc
  | c :: tl =>
      if isDigit c then digits (10 * acc + Z.of_N (c - 0x30))%Z tl else acc
  end.

(** [parseInt(s, 10)]: leading white space, an optional sign, then the
    longest run of digits; [None] is NaN.  The integer is exact; the
    source holds the nearest double, equal to it up to 2^53 and on the
    same side of every bound that is itself a double. *)
Definition parseInt (s : jsstring) : option Z :=
  let s1 := trimStart s in
  let '(negative, s2) :=
    match s1 with
    | c :: tl =>
        if c =? ch "-" then (true, tl)
        else if c =? ch "+" then (false, tl)
        else (false, s1)
    | [] => (false, [])
    end in
  match s2 with
  | c :: _ =>
      if isDigit c
      then Some (if negative then - digits 0 s2 else digits 0 s2)%Z
      else None
  | [] => None
  end.

Definition number (z : Z) : value := VNumber (inject_Z z).

(** The members of [yearConditions]. *)
Definition yearConditions (startYearMin startYearMax : option jsstring)
    : list expr :=
  (match given startYearMin with
   | Some s =>
       match parseInt s with
       | Some minYear =>
           [ EGte (EToInt (EIfNull (EField (lit "startYear"))
                                   (ELit (VString (lit "0")))))
                  (ELit (number minYear)) ]
       | None => []
       end
   | None => []
   end) ++
  (match given startYearMax with
   | Some s =>
       match parseInt s with
       | Some maxYear =>
           [ ELte (EToInt (EIfNull (EField (lit "startYear"))
                                   (ELit (VString (lit "9999")))))
                  (ELit (number maxYear)) ]
       | None => []
       end
   | None => []
   end).

Definition buildFilter (q : criteria) : filter :=
  MkFilter
    (option_map (fun t => patternSource (traditionVariations (trim t)))
       (given (tradition q)))
    (option_map (fun l => patternSource (languageVariations (trim l)))
       (given (language q)))
    (given (traditionType q))
    (given (gender q))
    (yearConditions (startYearMin q) (startYearMax q)).

(** *** The document store's reading of a filter *)

Definition isSyntaxChar (c : N) : bool :=
  existsb (N.eqb c) (lit "^$\.*+?()[]{}|").

Definition push (c : N) (l : list jsstring) : list jsstring :=
  match l with
  | a :: r => (c :: a) :: r
  | [] => [[c]]
  end.

(** [v] put before the first branch of [l]. *)
Definition prepend (v : jsstring) (l : list jsstring) : list jsstring :=
  match l with
  | a :: r => (v ++ a) :: r
  | [] => [v]
  end.

(** The branches of a pattern text that is an alternation of literal
    texts, a backslash making the syntax character after it literal; any
    other pattern syntax gives [None]. *)
Fixpoint parseAlts (src : jsstring) : option (list jsstring) :=
  match src with
  | [] => Some [[]]
  | c :: tl =>
      if c =? ch "|" then option_map (cons []) (parseAlts tl)
      else if c =? ch "\" then
        match tl with
        | d :: tl' =>
            if isSyntaxChar d then option_map (push d) (parseAlts tl')
            else None
        | [] => None
        end
      else if isSyntaxChar c then None
      else option_map (push c) (parseAlts tl)
  end.

(** A pattern with flag [i] applied by the store to a text: true when
    some part of the text matches. *)
Definition patternTest (branches : list jsstring) (s : jsstring) : bool :=
  test caseFold (alts (map word branches)) s.

(** The value of field [k] of a document, [undefined] when missing. *)
Definition fieldOf (doc : value) (k : jsstring) : value :=
  match doc with
  | VObject props =>
      match assoc k props with
      | Some v => v
      | None => VUndefined
      end
  | _ => VUndefined
  end.

(** [{ field: /src/i }]: the field is a matching string, or an array with
    a matching string among its elements. *)
Definition regexField (src : jsstring) (v : value) : result bool :=
  match parseAlts src with
  | None => Throw Unsupported
  | Some branches =>
      ret (match v with
           | VString s => patternTest branches s
           | VArray xs =>
               existsb (fun x => match x with
                                 | VString s => patternTest branches s
                                 | _ => false
                                 end) xs
           | _ => false
           end)
  end.

(** [{ field: 'text' }] *)
Definition exactField (want : jsstring) (v : value) : bool :=
  match v with
  | VString s => JsString.eqb s want
  | VArray xs =>
      existsb (fun x => match x with
                        | VString s => JsString.eqb s want
                        | _ => false
                        end) xs
  | _ => false
  end.

(** A text that is a whole base-10 integer. *)
Definition wholeInt (s : jsstring) : option Z :=
  let '(negative, s1) :=
    match s with
    | c :: tl =>
        if c =? ch "-" then (true, tl)
        else if c =? ch "+" then (false, tl)
        else (false, s)
    | [] => (false, [])
    end in
  if nonEmpty s1 && forallb isDigit s1
  then Some (if negative then - digits 0 s1 else digits 0 s1)%Z
  else None.

Definition inInt32 (z : Z) : bool :=
  ((- 2147483648 <=? z) && (z <=? 2147483647))%Z.

(** [$toInt] *)
Definition toInt (v : value) : result value :=
  match v with
  | VUndefined | VNull => ret VNull
  | VBool b => ret (number (if b then 1 else 0))
  | VNumber q =>
      let z := Z.quot (Qnum q) (Zpos (Qden q)) in
      if inInt32 z then ret (number z) else Throw ConversionFailure
  | VString s =>
      match wholeInt s with
      | Some z => if inInt32 z then ret (number z) else Throw ConversionFailure
      | None => Throw ConversionFailure
      end
  | _ => Throw ConversionFailure
  end.

(** The store's order on numbers and the null values, which sort below
    every number. *)
Definition compareValues (a b : value) : result comparison :=
  match a, b with
  | VNumber x, VNumber y => ret (Qcompare x y)
  | (VNull | VUndefined), VNumber _ => ret Lt
  | VNumber _, (VNull | VUndefined) => ret Gt
  | (VNull | VUndefined), (VNull | VUndefined) => ret Eq
  | _, _ => Throw Unsupported
  end.

Fixpoint eval (doc : value) (e : expr) : result value :=
  match e with
  | EField name => ret (fieldOf doc name)
  | ELit v => ret v
  | EIfNull e1 d =>
      v <- eval doc e1 ;;
      match v with
      | VUndefined | VNull => eval doc d
      | _ => ret v
      end
  | EToInt e1 => v <- eval doc e1 ;; toInt v
  | EGte a b =>
      x <- eval doc a ;;
      y <- eval doc b ;;
      c <- compareValues x y ;;
      ret (VBool (match c with Lt => false | _ => true end))
  | ELte a b =>
      x <- eval doc a ;;
      y <- eval doc b ;;
      c <- compareValues x y ;;
      ret (VBool (match c with Gt => false | _ => true end))
  end.

Definition whenSet {A : Type} (x : option A) (p : A -> result bool)
    : result bool :=
  match x with
  | Some a => p a
  | None => ret true
  end.

(** Whether [find(filter)] returns the document: every member of the
    filter must hold. *)
Definition matches (f : filter) (doc : value) : result bool :=
  t <- whenSet (f_tradition f)
         (fun src => regexField src (fieldOf doc (lit "tradition"))) ;;
  l <- whenSet (f_language f)
         (fun src => regexField src (fieldOf doc (lit "language"))) ;;
  ty <- whenSet (f_traditionType f)
          (fun w => ret (exactField w (fieldOf doc (lit "traditionType")))) ;;
  g <- whenSet (f_gender f)
         (fun w => ret (exactField w (fieldOf doc (lit "gender")))) ;;
  ys <- forEach (fun acc e => v <- eval doc e ;; ret (acc && truthy v))
          (f_and f) true ;;
  ret (t && l && ty && g && ys).

End Filter.

(** ** Record-to-marker projector (convertToMapMarkers) *)

Module Projector.

Record marker : Type := MkMarker {
  id : jsstring;
  name : value;
  coords : value;
  type : jsstring;
  saint : value;
  m_tradition : value;
  m_traditionType : value;
  m_gender : value;
  period : value;
  startYear : value;
  endYear : value;
  m_language : value;
  philosophy : value;
  texts : value;
  presidingDeity : value;
  popup : jsstring;
  updatedAt : value;
  fullData : value
}.

(** [a || b] *)
Definition orElse (a b : value) : value := if truthy a then a else b.

Definition isObjectType (v : value) : bool :=
  match typeof v with TObject => true | _ => false end.

(** The decimal text of an array index. *)
Definition indexKey (n : nat) : jsstring :=
  lit (NilEmpty.string_of_uint (Nat.to_uint n)).

Fixpoint indexed (n : nat) (xs : list value) : list (jsstring * value) :=
  match xs with
  | [] => []
  | x :: tl => (indexKey n, x) :: indexed (S n) tl
  end.

(** [Object.entries(v)] for a value whose [typeof] is object: the own
    properties of an object in their enumeration order, the elements of
    an array under their indices. *)
Definition entries (v : value) : list (jsstring * value) :=
  match v with
  | VObject props => props
  | VArray xs => indexed 0 xs
  | _ => []
  end.

Section WithHost.

(** The text of a number in a template literal. *)
Variable numberToString : Q -> jsstring.

(** The text [Math.random().toString(36).slice(2, 9)] gives at the n-th
    draw of a run. *)
Variable randomSuffix : nat -> jsstring.

(** ToString, the conversion a template literal applies.  An object
    carrying an own property [toString] (which no stored value makes
    callable) cannot be converted. *)
Fixpoint toStr (v : value) : result jsstring :=
  match v with
  | VUndefined => ret (lit "undefined")
  | VNull => ret (lit "null")
  | VBool true => ret (lit "true")
  | VBool false => ret (lit "false")
  | VNumber q => ret (numberToString q)
  | VString s => ret s
  | VArray xs =>
      l <- (fix items (l : list value) : result (list jsstring) :=
              match l with
              | [] => ret []
              | x :: tl =>
                  s <- match x with
                       | VUndefined | VNull => ret []
                       | _ => toStr x
                       end ;;
                  r <- items tl ;;
                  ret (s :: r)
              end) xs ;;
      ret (join (lit ",") l)
  | VObject props =>
      match assoc (lit "toString") props with
      | Some _ => Throw TypeError
      | None => ret (lit "[object Object]")
      end
  | VBuiltin BObject => ret (lit "function Object() { [native code] }")
  | VBuiltin BObjectPrototype => ret (lit "[object Object]")
  | VBuiltin (BMethod n _) =>
      ret (lit "function " ++ n ++ lit "() { [native code] }")
  end.


(** The dash of the popup text, the three code units the source file has
    between the place name and the category. *)
Definition popupDash : jsstring := [0x201A; 0xC4; 0xEE]%N.

(** The arrow function [createMarker] for category [type]; the state is
    the [markers] array with the number of random draws made so far. *)
Definition createMarker (doc : value) (type : jsstring)
    (st : list marker * nat) (place : value) : result (list marker * nat) :=
  c <- getPropOpt place (lit "coords") ;;
  if negb (truthy c) then ret st
  else
    c' <- getProp place (lit "coords") ;;
    len <- getProp c' (lit "length") ;;
    if negb (strictEqNat len 2) then ret st
    else
      let '(markers, draws) := st in
      docId <- getProp doc (lit "_id") ;;
      idText <- toStr docId ;;
      placeName <- getProp place (lit "name") ;;
      placeCoords <- getProp place (lit "coords") ;;
      docSaint <- getProp doc (lit "saint") ;;
      docTradition <- getProp doc (lit "tradition") ;;
      docTraditionType <- getProp doc (lit "traditionType") ;;
      docGender <- getProp doc (lit "gender") ;;
      docPeriod <- getProp doc (lit "period") ;;
      docStartYear <- getProp doc (lit "startYear") ;;
      docEndYear <- getProp doc (lit "endYear") ;;
      docLanguage <- getProp doc (lit "language") ;;
      docPhilosophy <- getProp doc (lit "philosophy") ;;
      docTexts <- getProp doc (lit "texts") ;;
      docDeity <- getProp doc (lit "presidingDeity") ;;
      nameText <- toStr placeName ;;
      saintText <- toStr docSaint ;;
      docUpdatedAt <- getProp doc (lit "updatedAt") ;;
      ret (markers ++
           [ MkMarker
               (idText ++ lit "_" ++ type ++ lit "_" ++ randomSuffix draws)
               placeName placeCoords type docSaint docTradition
               docTraditionType docGender docPeriod docStartYear docEndYear
               docLanguage docPhilosophy
               (orElse docTexts (VArray []))
               (orElse docDeity VNull)
               (nameText ++ lit " " ++ popupDash ++ lit " " ++ type
                  ++ lit " of " ++ saintText)
               (orElse docUpdatedAt VNull)
               doc ],
           S draws).

(** The body of the loop over [Object.entries(doc.places)]. *)
Definition placeEntry (doc : value) (st : list marker * nat)
    (entry : jsstring * value) : result (list marker * nat) :=
  let '(type, placeData) := entry in
  if negb (truthy placeData) then ret st
  else
    match placeData with
    | VArray xs => forEach (createMarker doc type) xs st
    | _ => createMarker doc type st placeData
    end.

(** [convertToMapMarkers(doc)], started after [draws] random draws; it
    returns the markers and the number of draws then made. *)
Definition convertToMapMarkers (doc : value) (draws : nat)
    : result (list marker * nat) :=
  places <- getPropOpt doc (lit "places") ;;
  if negb (truthy places) then ret ([], draws)
  else
    places' <- getProp doc (lit "places") ;;
    if negb (isObjectType places') then ret ([], draws)
    else
      places'' <- getProp doc (lit "places") ;;
      forEach (placeEntry doc) (entries places'') ([], draws).

End WithHost.
End Projector.

(** ** Definitions that follow the words of the specification *)

Module Spec.



(** A case-insensitive substring match: [p] occurs in [s] at some index,
    two code units being the same when [fold] makes them equal. *)
Fixpoint ciStartsWith (fold : N -> N) (p s : jsstring) : bool :=
  match p, s with
  | [], _ => true
  | x :: p', y :: s' => N.eqb (fold x) (fold y) && ciStartsWith fold p' s'
  | _ :: _, [] => false
  end.

Fixpoint ciIncludes (fold : N -> N) (s p : jsstring) : bool :=
  ciStartsWith fold p s ||
  match s with
  | [] => false
  | _ :: tl => ciIncludes fold tl p
  end.

(** [x] is [y], a text of lower-case letters, written in some letter
    case: each code unit is the letter of [y] or its capital. *)
Definition sameLetter (c d : N) : Prop :=
  c = d \/ (between 0x41 0x5A c = true /\ d = (c + 32)%N).

Definition letterCaseOf (x y : jsstring) : Prop := Forall2 sameLetter x y.

Definition isLowerLetter (d : N) : bool := between 0x61 0x7A d.

(** A Place: a name, optional coordinates and an optional region. *)
Inductive coordinates : Type :=
| NoCoords
| NullCoords
| Coords (xs : list Q).

Record Place : Type := MkPlace {
  placeName : jsstring;
  placeCoords : coordinates;
  placeRegion : option jsstring
}.

(** An entry of the places map: one Place, a list of Places, or null. *)
Inductive PlaceSlot : Type :=
| Single (p : Place)
| Many (ps : list Place)
| Empty.

Definition coordsBinding (c : coordinates) : list (jsstring * value) :=
  match c with
  | NoCoords => []
  | NullCoords => [(lit "coords", VNull)]
  | Coords xs => [(lit "coords", VArray (map VNumber xs))]
  end.

(** The stored form of a Place, of an entry and of a places map. *)
Definition ofPlace (p : Place) : value :=
  VObject ((lit "name", VString (placeName p))
           :: coordsBinding (placeCoords p)
           ++ [(lit "region",
                match placeRegion p with
                | Some r => VString r
                | None => VNull
                end)]).

Definition ofSlot (s : PlaceSlot) : value :=
  match s with
  | Single p => ofPlace p
  | Many ps => VArray (map ofPlace ps)
  | Empty => VNull
  end.

Definition ofPlaces (pm : list (jsstring * PlaceSlot)) : value :=
  VObject (map (fun e => (fst e, ofSlot (snd e))) pm).

Definition hasCoordinatePair (p : Place) : bool :=
  match placeCoords p with
  | Coords [_; _] => true
  | _ => false
  end.

Definition placesIn (s : PlaceSlot) : list Place :=
  match s with
  | Single p => [p]
  | Many ps => ps
  | Empty => []
  end.

(** The (category, Place) pairs of a places map whose Place has exactly
    two coordinate values, in the order of the map. *)
Definition geocodedPairs (pm : list (jsstring * PlaceSlot))
    : list (jsstring * Place) :=
  flat_map (fun e => map (pair (fst e))
                       (filter hasCoordinatePair (placesIn (snd e)))) pm.

(** What identifies the marker of a (category, Place) pair: the category,
    the name of the Place and its coordinates. *)
Definition pairKey (kp : jsstring * Place) : jsstring * value * value :=
  (fst kp,
   VString (placeName (snd kp)),
   match placeCoords (snd kp) with
   | Coords xs => VArray (map VNumber xs)
   | _ => VNull
   end).

Definition markerKey (m : Projector.marker) : jsstring * value * value :=
  (Projector.type m, Projector.name m, Projector.coords m).

(** A marker without its synthetic identifier. *)
Definition withoutId (m : Projector.marker) : Projector.marker :=
  Projector.MkMarker []
    (Projector.name m) (Projector.coords m) (Projector.type m)
    (Projector.saint m) (Projector.m_tradition m)
    (Projector.m_traditionType m) (Projector.m_gender m)
    (Projector.period m) (Projector.startYear m) (Projector.endYear m)
    (Projector.m_language m) (Projector.philosophy m) (Projector.texts m)
    (Projector.presidingDeity m) (Projector.popup m)
    (Projector.updatedAt m) (Projector.fullData m).

Definition markersWithoutIds (r : result (list Projector.marker * nat))
    : result (list Projector.marker) :=
  match r with
  | Ok (ms, _) => Ok (map withoutId ms)
  | Throw e => Throw e
  end.

End Spec.

(** ** Sample values used in the statements below *)

Module Samples.

Local Open Scope N_scope.

(** The spellings with diacritics of section 8 of the specification:
    the letters i-macron (U+012B), s-acute (U+015B), n-dot-above (U+1E45)
    and a-macron (U+0101). *)
Definition virasaiva : jsstring :=
  lit "V" ++ [0x12B] ++ lit "ra" ++ [0x15B] ++ lit "aiva".

Definition lingayat_diacritic : jsstring :=
  lit "Li" ++ [0x1E45] ++ lit "g" ++ [0x101] ++ lit "yat".

(** A stored record with the given tradition field and no start year. *)
Definition recordWithTradition (t : jsstring) : value :=
  VObject [ (lit "saint", VString (lit "Basava"));
            (lit "tradition", VString t) ].

Definition onlyTradition (t : jsstring) : Filter.criteria :=
  Filter.MkCriteria (Some t) None None None None None.

Definition onlyYearMin (s : jsstring) : Filter.criteria :=
  Filter.MkCriteria None None None None (Some s) None.

Definition onlyYearMax (s : jsstring) : Filter.criteria :=
  Filter.MkCriteria None None None None None (Some s).

(** The record of section 8: a geocoded birth place and a temple that has
    no coordinates. *)
Definition samplePlaces : list (jsstring * Spec.PlaceSlot) :=
  [ (lit "birth", Spec.Single (Spec.MkPlace (lit "X") (Spec.Coords [1%Q; 2%Q]) None));
    (lit "temple", Spec.Many [Spec.MkPlace (lit "Y") Spec.NullCoords None]) ].

Definition sampleRecord : value :=
  VObject [ (lit "_id", VString (lit "64f0c2a1"));
            (lit "saint", VString (lit "Basava"));
            (lit "tradition", VString (lit "Lingayat"));
            (lit "places", Spec.ofPlaces samplePlaces) ].

(** Number texts for integers, enough for the samples. *)
Definition showInteger (q : Q) : jsstring :=
  lit (NilEmpty.string_of_int (Z.to_int (Qnum q))).

(** A sequence of random suffixes: the first draw and the later ones. *)
Definition draws (n : nat) : jsstring :=
  match n with
  | O => lit "k3x9q1a"
  | S _ => lit "z7m2c4d"
  end.

End Samples.

From Stdlib Require Import Permutation Sorted.

(** ** Unique value extractor (extractUniqueValues) *)

Module Options.

Section WithHost.

(** The text of a number, for the conversion [localeCompare] applies to
    its argument. *)
Variable numberToString : Q -> jsstring.

(** [x.localeCompare(y)] of the host, by its sign. *)
Variable localeCompare : jsstring -> jsstring -> Z.

(** [a.localeCompare(b)]: only a string has the method. *)
Definition compareItems (a b : value) : result Z :=
  match a with
  | VString x =>
      y <- Projector.toStr numberToString b ;;
      ret (localeCompare x y)
  | _ => Throw TypeError
  end.

(** [x] put into a sorted list after the elements that do not come after
    it. *)
Fixpoint insertSorted {A : Type} (cmp : A -> A -> result Z) (x : A)
    (sorted : list A) : result (list A) :=
  match sorted with
  | [] => ret [x]
  | y :: tl =>
      c <- cmp y x ;;
      if (c <=? 0)%Z
      then r <- insertSorted cmp x tl ;; ret (y :: r)
      else ret (x :: sorted)
  end.

(** [arr.sort(cmp)].  The sort of the engine is stable, which fixes its
    result for a comparison that is an order; the stable insertion sort
    stands for it. *)
Definition sortWith {A : Type} (cmp : A -> A -> result Z) (l : list A)
    : result (list A) :=
  forEach (fun sorted x => insertSorted cmp x sorted) l [].

(** The body of the inner [forEach]: [if (item && item.length > 1)
    uniqueSet.add(item)]. *)
Definition keepItem (uniqueSet : list value) (item : value)
    : result (list value) :=
  if truthy item
  then
    len <- lengthOf item ;;
    if gtNat len 1 then ret (setAdd uniqueSet item) else ret uniqueSet
  else ret uniqueSet.

(** The [Set] filled from the values, before it is sorted. *)
Definition collectUnique (parseFunction : value -> result (list value))
    (values : list value) : result (list value) :=
  forEach (fun uniqueSet value =>
             parsed <- parseFunction value ;;
             forEach keepItem parsed uniqueSet)
          values [].

(** [fieldType === 'tradition' ? parseTraditionValue : parseLanguageValue];
    [fieldType] is [None] when the argument is left out, and its default
    is [language]. *)
Definition parseFunctionOf (fieldType : option jsstring)
    : value -> result (list value) :=
  match fieldType with
  | Some t =>
      if JsString.eqb t (lit "tradition") then parseTraditionValue
      else parseLanguageValue
  | None => parseLanguageValue
  end.

(** [extractUniqueValues(values, fieldType)] *)
Definition extractUniqueValues (values : list value)
    (fieldType : option jsstring) : result (list value) :=
  uniqueSet <- collectUnique (parseFunctionOf fieldType) values ;;
  sortWith compareItems uniqueSet.

End WithHost.

End Options.

(** ** Contributions (validateContributionBody, normalizeAndGeocodePlaces,
       the handler of POST /api/contribute) *)

Module Contribution.

Definition requiredFields : list jsstring :=
  map lit [ "saint"; "tradition"; "period"; "startYear"; "endYear";
            "traditionType"; "gender"; "language"; "philosophy";
            "birthPlace" ]%string.

(** The double quote of the message texts. *)
Definition quote : N := 0x22%N.

(** The message pushed for a required field. *)
Definition fieldError (field : jsstring) : jsstring :=
  lit "Field " ++ [quote] ++ field ++ [quote]
    ++ lit " is required and must be a non-empty string".

Definition placesError : jsstring :=
  lit "Field " ++ [quote] ++ lit "places" ++ [quote]
    ++ lit " is required and must be an object".

(** The body of the [forEach] over the required fields:
    [!body[field] || typeof body[field] !== 'string' ||
    !body[field].trim()]. *)
Definition checkField (body : value) (errors : list jsstring)
    (field : jsstring) : result (list jsstring) :=
  v1 <- getProp body field ;;
  if negb (truthy v1) then ret (errors ++ [fieldError field])
  else
    v2 <- getProp body field ;;
    if negb (isString v2) then ret (errors ++ [fieldError field])
    else
      v3 <- getProp body field ;;
      t <- callTrim v3 ;;
      if negb (nonEmpty t) then ret (errors ++ [fieldError field])
      else ret errors.

Definition validateContributionBody (body : value) : result (list jsstring) :=
  errors <- forEach (checkField body) requiredFields [] ;;
  places <- getProp body (lit "places") ;;
  if negb (truthy places) then ret (errors ++ [placesError])
  else
    places' <- getProp body (lit "places") ;;
    if negb (Projector.isObjectType places') then ret (errors ++ [placesError])
    else ret errors.

(** What [geocodePlace] resolves a place name to.  The latitude and the
    longitude are numbers: a [parseFloat] that gives NaN is not
    modelled. *)
Record geoData : Type := MkGeo {
  lat : Q;
  lon : Q;
  displayName : jsstring;
  region : jsstring
}.

(** [Array.isArray] *)
Definition isArray (v : value) : bool :=
  match v with VArray _ => true | _ => false end.

(** [arr.length], as a condition *)
Definition nonEmptyList {A : Type} (l : list A) : bool :=
  match l with [] => false | _ :: _ => true end.

(** The default [= {}] of a parameter. *)
Definition orEmptyObject (v : value) : value :=
  match v with
  | VUndefined => VObject []
  | _ => v
  end.

Section WithGeocoder.

(** The answer of the geocoding service to the n-th call of
    [geocodePlace] of a run, [None] standing for the [null] returned when
    the service fails or finds nothing. *)
Variable geocodePlace : nat -> value -> option geoData.

(** The arrow function [processPlace]; [calls] counts the calls of
    [geocodePlace] made so far. *)
Definition processPlace (calls : nat) (placeObj : value)
    : result (value * nat) :=
  if negb (truthy placeObj) then ret (VNull, calls)
  else
    name0 <- getProp placeObj (lit "name") ;;
    if negb (truthy name0) then ret (VNull, calls)
    else
      c0 <- getProp placeObj (lit "coords") ;;
      coords <-
        (if isArray c0
         then
           c1 <- getProp placeObj (lit "coords") ;;
           len <- getProp c1 (lit "length") ;;
           if strictEqNat len 2 then getProp placeObj (lit "coords")
           else ret VNull
         else ret VNull) ;;
      r0 <- getProp placeObj (lit "region") ;;
      let region0 := Projector.orElse r0 VNull in
      resolved <-
        (if negb (truthy coords)
         then
           name1 <- getProp placeObj (lit "name") ;;
           match geocodePlace calls name1 with
           | Some geo =>
               ret (VArray [VNumber (lat geo); VNumber (lon geo)],
                    Projector.orElse region0 (VString (region geo)),
                    S calls)
           | None => ret (VNull, Projector.orElse region0 VNull, S calls)
           end
         else ret (coords, region0, calls)) ;;
      let '(coords', region', calls') := resolved in
      name2 <- getProp placeObj (lit "name") ;;
      ret (VObject [ (lit "name", name2); (lit "coords", coords');
                     (lit "region", region') ],
           calls').

Definition placeTypes : list jsstring := [lit "birth"; lit "samadhi"].

(** The loop over an array of places: the places that are processed to
    an object are pushed on [processedPlaces]. *)
Definition processEach (st : list value * nat) (place : value)
    : result (list value * nat) :=
  let '(processedPlaces, calls) := st in
  r <- processPlace calls place ;;
  let '(processed, calls') := r in
  ret (if truthy processed then processedPlaces ++ [processed]
       else processedPlaces,
       calls').

(** The body of the loop over [placeTypes]; the state is the object
    [geocodedPlaces] with the number of geocoder calls. *)
Definition geocodeType (places : value)
    (st : list (jsstring * value) * nat) (type : jsstring)
    : result (list (jsstring * value) * nat) :=
  let '(geocodedPlaces, calls) := st in
  placeData <- getProp places type ;;
  if negb (truthy placeData)
  then ret (geocodedPlaces ++ [(type, VNull)], calls)
  else
    match placeData with
    | VArray xs =>
        r <- forEach processEach xs ([], calls) ;;
        let '(processedPlaces, calls') := r in
        ret (geocodedPlaces
               ++ [(type, if nonEmptyList processedPlaces
                          then VArray processedPlaces else VNull)],
             calls')
    | _ =>
        r <- processPlace calls placeData ;;
        let '(processed, calls') := r in
        ret (geocodedPlaces ++ [(type, processed)], calls')
    end.

(** [normalizeAndGeocodePlaces(places)]; an argument that is [undefined]
    takes the default of the parameter, the empty object. *)
Definition normalizeAndGeocodePlaces (places : value) (calls : nat)
    : result (value * nat) :=
  let places := orEmptyObject places in
  r <- forEach (geocodeType places) placeTypes ([], calls) ;;
  let '(geocodedPlaces, calls') := r in
  ret (VObject geocodedPlaces, calls').

(** The answer of the handler: the rejection with status 400, or the
    document handed to [insertOne]. *)
Inductive response : Type :=
| BadRequest (details : list jsstring)
| Stored (traditionDocument : value).

(** [body.field.trim()] *)
Definition trimmedField (body : value) (field : jsstring) : result value :=
  v <- getProp body field ;;
  t <- callTrim v ;;
  ret (VString t).

(** [body.field ? body.field.trim() : null] *)
Definition optionalField (body : value) (field : jsstring) : result value :=
  v <- getProp body field ;;
  if truthy v
  then v' <- getProp body field ;; t <- callTrim v' ;; ret (VString t)
  else ret VNull.

(** The two [new Date()] of the document. *)
Variables contributedAt updatedAt : value.

(** The handler of POST /api/contribute up to the call of [insertOne]. *)
Definition contribute (reqBody : value) (calls : nat)
    : result (response * nat) :=
  let body := Projector.orElse reqBody (VObject []) in
  validationErrors <- validateContributionBody body ;;
  if Nat.ltb 0 (List.length validationErrors)
  then ret (BadRequest validationErrors, calls)
  else
    bodyPlaces <- getProp body (lit "places") ;;
    r <- normalizeAndGeocodePlaces bodyPlaces calls ;;
    let '(geocodedPlaces, calls') := r in
    saint <- trimmedField body (lit "saint") ;;
    tradition <- trimmedField body (lit "tradition") ;;
    period <- trimmedField body (lit "period") ;;
    startYear <- trimmedField body (lit "startYear") ;;
    endYear <- trimmedField body (lit "endYear") ;;
    traditionType <- trimmedField body (lit "traditionType") ;;
    school <- optionalField body (lit "school") ;;
    presidingDeity <- optionalField body (lit "presidingDeity") ;;
    sufi <- getProp body (lit "sufi") ;;
    birthPlace <- trimmedField body (lit "birthPlace") ;;
    deathPlace <- optionalField body (lit "deathPlace") ;;
    gender <- trimmedField body (lit "gender") ;;
    language <- trimmedField body (lit "language") ;;
    texts0 <- getProp body (lit "texts") ;;
    texts <-
      (if isArray texts0 then getProp body (lit "texts")
       else
         t1 <- getProp body (lit "texts") ;;
         if truthy t1
         then t2 <- getProp body (lit "texts") ;; ret (VArray [t2])
         else ret (VArray [])) ;;
    philosophy <- trimmedField body (lit "philosophy") ;;
    ret (Stored
           (VObject
              [ (lit "saint", saint);
                (lit "tradition", tradition);
                (lit "places", geocodedPlaces);
                (lit "period", period);
                (lit "startYear", startYear);
                (lit "endYear", endYear);
                (lit "traditionType", traditionType);
                (lit "school", school);
                (lit "presidingDeity", presidingDeity);
                (lit "sufi", VBool (truthy sufi));
                (lit "birthPlace", birthPlace);
                (lit "deathPlace", deathPlace);
                (lit "gender", gender);
                (lit "language", language);
                (lit "texts", texts);
                (lit "philosophy", philosophy);
                (lit "contributedAt", contributedAt);
                (lit "updatedAt", updatedAt) ]),
         calls').

End WithGeocoder.

(** *** The form of the browser (src/frontend/index.js)

    The script modelled is the first of the file, whose contribution
    carries the members startYear, endYear and birthPlace that this
    server requires. *)

(** [processPlaceInput(input)] *)
Definition processPlaceInput (input : value) : result value :=
  if negb (truthy input) then ret VNull
  else
    t <- callTrim input ;;
    if negb (nonEmpty t) then ret VNull
    else
      t' <- callTrim input ;;
      ret (VObject [ (lit "name", VString t'); (lit "coords", VNull);
                     (lit "region", VNull) ]).

(** The [places] member of the contribution that
    [handleContributionSubmit] sends, from the two place inputs of the
    form. *)
Definition submittedPlaces (birthPlace deathPlace : value) : result value :=
  birth <- processPlaceInput birthPlace ;;
  death <- processPlaceInput deathPlace ;;
  ret (VObject [ (lit "birth", birth); (lit "death", death) ]).

End Contribution.

(** ** The markers of a response (the end of the handler of GET
       /api/traditions) *)

Module Response.

Section WithHost.

Variable numberToString : Q -> jsstring.
Variable randomSuffix : nat -> jsstring.



End WithHost.

End Response.


(** ** The behaviour of the handlers in words *)

Module Reading.

Import Filter.

(** A field value holds one of the variants, case put aside: the value
    is a text that contains one, or an array with such a text. *)
Definition containsAny (variants : list jsstring) (field : value) : bool :=
  match field with
  | VString s => existsb (Spec.ciIncludes caseFold s) variants
  | VArray xs =>
      existsb (fun x => match x with
                        | VString s =>
                            existsb (Spec.ciIncludes caseFold s) variants
                        | _ => false
                        end) xs
  | _ => false
  end.

(** The bound a year parameter stands for, if any. *)
Definition boundOf (x : option jsstring) : option Z :=
  match given x with
  | Some s => parseInt s
  | None => None
  end.

(** [lo <= y <= hi], a missing bound holding. *)
Definition withinBounds (lo hi : option Z) (y : Z) : bool :=
  match lo with Some a => (a <=? y)%Z | None => true end
  && match hi with Some b => (y <=? b)%Z | None => true end.

Definition onlyYears (lo hi : option jsstring) : criteria :=
  MkCriteria None None None None lo hi.

(** A text of at least two code units: what a list of filter options may
    hold. *)
Definition isToken (v : value) : bool :=
  match v with
  | VString s => Nat.leb 2 (List.length s)
  | _ => false
  end.

(** The two members of [Object.prototype] that are not methods. *)
Definition isInherited (v : value) : bool :=
  match v with
  | VBuiltin BObject | VBuiltin BObjectPrototype => true
  | _ => false
  end.

(** What the tradition parser may put in its set: a token or one of
    the two inherited members. *)
Definition isTraditionItem (v : value) : bool :=
  isToken v || isInherited v.

(** A [Set] whose members all satisfy [ok]. *)
Definition setOf (ok : value -> bool) (results : list value) : Prop :=
  Forall (fun t => ok t = true) results /\ NoDup results.

(** A text put into a sorted list of texts after those that do not come
    after it, and the sort by such insertions. *)
Fixpoint insertText (cmp : jsstring -> jsstring -> Z) (x : jsstring)
    (sorted : list jsstring) : list jsstring :=
  match sorted with
  | [] => [x]
  | y :: tl =>
      if (cmp y x <=? 0)%Z then y :: insertText cmp x tl else x :: sorted
  end.

Definition sortTexts (cmp : jsstring -> jsstring -> Z) (l : list jsstring)
    : list jsstring :=
  fold_left (fun sorted x => insertText cmp x sorted) l [].

(** The order of two texts by their code units, as a sign. *)
Fixpoint compareCodeUnits (a b : jsstring) : Z :=
  match a, b with
  | [], [] => 0
  | [], _ :: _ => -1
  | _ :: _, [] => 1
  | x :: a', y :: b' =>
      match N.compare x y with
      | Lt => -1
      | Gt => 1
      | Eq => compareCodeUnits a' b'
      end
  end.

(** *** Contributions *)

(** A required field of a body is in order: it is a text with more than
    white space in it. *)
Definition fieldOk (props : list (jsstring * value)) (field : jsstring)
    : bool :=
  match lookup props field with
  | VString s => nonEmpty (trim s)
  | _ => false
  end.

Definition placesOk (props : list (jsstring * value)) : bool :=
  truthy (lookup props (lit "places"))
  && Projector.isObjectType (lookup props (lit "places")).

(** The messages a body deserves: one for each required field that is
    not in order, in the order of the fields, then the one about the
    places. *)
Definition expectedErrors (props : list (jsstring * value))
    : list jsstring :=
  map Contribution.fieldError
    (List.filter (fun f => negb (fieldOk props f))
       Contribution.requiredFields)
  ++ (if placesOk props then [] else [Contribution.placesError]).

(** [v.k] where the read cannot fail, [undefined] otherwise. *)
Definition prop (v : value) (k : jsstring) : value :=
  match getProp v k with
  | Ok x => x
  | Throw _ => VUndefined
  end.

(** An array of two elements. *)
Definition hasPair (coords : value) : bool :=
  match coords with
  | VArray [_; _] => true
  | _ => false
  end.

(** A place as the server stores it: an object with the members name,
    coords and region, in that order, the name given and the coords
    either null or a pair. *)
Definition isStoredPlace (v : value) : bool :=
  match v with
  | VObject [(k1, name); (k2, coords); (k3, _)] =>
      JsString.eqb k1 (lit "name") && JsString.eqb k2 (lit "coords")
      && JsString.eqb k3 (lit "region") && truthy name
      && (hasPair coords
          || match coords with VNull => true | _ => false end)
  | _ => false
  end.

(** What the server stores under a place category: null, a place, or an
    array of places that is not empty. *)
Definition isStoredSlot (v : value) : bool :=
  match v with
  | VNull => true
  | VArray xs => Contribution.nonEmptyList xs && forallb isStoredPlace xs
  | _ => isStoredPlace v
  end.

(** A submitted place that has a name, and one that has a name and no
    pair of coordinates. *)
Definition namedPlace (placeObj : value) : bool :=
  truthy placeObj && truthy (prop placeObj (lit "name")).

Definition needsGeocoding (placeObj : value) : bool :=
  namedPlace placeObj && negb (hasPair (prop placeObj (lit "coords"))).

(** The number of places under a category that have a name and no pair
    of coordinates. *)
Definition geocodings (slot : value) : nat :=
  match slot with
  | VArray xs => List.length (List.filter needsGeocoding xs)
  | _ => if needsGeocoding slot then 1 else 0
  end.

(** The members of a body that may be left out, and such a member in
    order: left out (or another falsy value), or a text. *)
Definition optionalFields : list jsstring :=
  map lit ["school"; "presidingDeity"; "deathPlace"]%string.

Definition optionalOk (props : list (jsstring * value)) (field : jsstring)
    : bool :=
  negb (truthy (lookup props field)) || isString (lookup props field).

(** What is stored for an optional member. *)
Definition storedOptional (v : value) : value :=
  match v with
  | VString ((_ :: _) as s) => VString (trim s)
  | _ => VNull
  end.

(** The members of a stored document, in their order. *)
Definition documentKeys : list jsstring :=
  map lit [ "saint"; "tradition"; "places"; "period"; "startYear";
            "endYear"; "traditionType"; "school"; "presidingDeity"; "sufi";
            "birthPlace"; "deathPlace"; "gender"; "language"; "texts";
            "philosophy"; "contributedAt"; "updatedAt" ]%string.

(** The place stored for a name that came without coordinates, given
    the answer of the geocoder. *)
Definition geocoded (geo : option Contribution.geoData) (name : jsstring)
    : value :=
  VObject
    [ (lit "name", VString name);
      (lit "coords",
         match geo with
         | Some g => VArray [ VNumber (Contribution.lat g);
                              VNumber (Contribution.lon g) ]
         | None => VNull
         end);
      (lit "region",
         match geo with
         | Some g => VString (Contribution.region g)
         | None => VNull
         end) ].

(** The places stored for a contribution made through the form, given
    the trimmed birth place input and the answer of the geocoder for
    it. *)
Definition formPlaces (geo : option Contribution.geoData)
    (birthName : jsstring) : value :=
  VObject
    [ (lit "birth",
         if nonEmpty birthName then geocoded geo birthName else VNull);
      (lit "samadhi", VNull) ].

(** The same as a places map of the specification. *)
Definition formPlaceMap (geo : option Contribution.geoData)
    (birthName : jsstring) : list (jsstring * Spec.PlaceSlot) :=
  [ (lit "birth",
       if nonEmpty birthName
       then Spec.Single
              (Spec.MkPlace birthName
                 match geo with
                 | Some g => Spec.Coords [ Contribution.lat g;
                                           Contribution.lon g ]
                 | None => Spec.NullCoords
                 end
                 (option_map Contribution.region geo))
       else Spec.Empty);
    (lit "samadhi", Spec.Empty) ].

(** A value whose [length] is 2. *)
Definition lengthIs2 (v : value) : bool :=
  match getProp v (lit "length") with
  | Ok len => strictEqNat len 2
  | Throw _ => false
  end.

(** What holds of the markers made for [doc] in a run that started after
    [draws] random draws, [n] being the number of draws then made: each
    draw made one marker; every marker carries the document, coords of
    length 2 and one of the categories [keys]; and the identifier of the
    i-th marker ends in the i-th draw of the run. *)
Definition markersOk (numberToString : Q -> jsstring)
    (randomSuffix : nat -> jsstring) (doc : value) (draws : nat)
    (keys : list jsstring) (st : list Projector.marker * nat) : Prop :=
  snd st = (draws + List.length (fst st))%nat
  /\ Forall (fun mk => Projector.fullData mk = doc
                       /\ lengthIs2 (Projector.coords mk) = true
                       /\ In (Projector.type mk) keys) (fst st)
  /\ (forall i mk,
        nth_error (fst st) i = Some mk ->
        exists idText,
          Projector.toStr numberToString (prop doc (lit "_id")) = ret idText
          /\ Projector.id mk
             = idText ++ lit "_" ++ Projector.type mk ++ lit "_"
                 ++ randomSuffix (draws + i)%nat).

(** The entries of the tradition table whose key lower-casing leaves as
    it is, and the keys of the other entries. *)
Definition isLowerCased (k : jsstring) : bool :=
  JsString.eqb (toLowerCase k) k.

Definition reachableEntries : list (jsstring * value) :=
  List.filter (fun p => isLowerCased (fst p)) traditionNormalizations.

Definition unreachableKeys : list jsstring :=
  List.filter (fun k => negb (isLowerCased k))
    (map fst traditionNormalizations).

End Reading.

(** ** Sample contributions *)

Module Cases.

Import Contribution.

Definition varanasi : geoData :=
  MkGeo (25 # 1) (83 # 1) (lit "Varanasi, Uttar Pradesh, India")
    (lit "Uttar Pradesh").

(** A geocoder that knows one town. *)
Definition geocoder (n : nat) (name : value) : option geoData :=
  match name with
  | VString s => if JsString.eqb s (lit "Varanasi") then Some varanasi
                 else None
  | _ => None
  end.

Definition place (name : string) (coords : value) : value :=
  VObject [ (lit "name", VString (lit name)); (lit "coords", coords);
            (lit "region", VNull) ].

(** Places as a client may submit them: a birth place without
    coordinates, a death place, and two samadhi places of which one has
    coordinates and one has no name. *)
Definition submitted : value :=
  VObject
    [ (lit "birth", place "Varanasi" VNull);
      (lit "death", place "Kashi" VNull);
      (lit "samadhi",
         VArray [ place "Maghar" (VArray [VNumber (26 # 1); VNumber (83 # 1)]);
                  VObject [(lit "coords",
                            VArray [VNumber 1; VNumber 2])] ]) ].

(** The members of a body that passes the validation, after [more]. *)
Definition fields (more : list (jsstring * value))
    : list (jsstring * value) :=
    (more ++
     [ (lit "saint", VString (lit " Kabir "));
       (lit "tradition", VString (lit "Sant"));
       (lit "period", VString (lit "15th century"));
       (lit "startYear", VString (lit "1440"));
       (lit "endYear", VString (lit "1518"));
       (lit "traditionType", VString (lit "Nirguna"));
       (lit "gender", VString (lit "Male"));
       (lit "language", VString (lit "Hindi"));
       (lit "philosophy", VString (lit "Nirguna bhakti"));
       (lit "birthPlace", VString (lit "Varanasi"));
       (lit "places", submitted) ]).

Definition body (more : list (jsstring * value)) : value :=
  VObject (fields more).

End Cases.
(** * Properties *)

Import Filter Projector Samples.

(** ** The compound value parser on the samples of the specification *)

(** C4: parsing the language value Hindi (Braj, Avadhi dialects) gives
    exactly Hindi, Braj Bhasha and Awadhi.  The dialect group is found and
    taken apart into Braj and Avadhi and removed from the working text
    before that text, now Hindi followed by a space, is split; Braj is
    normalised to Braj Bhasha and Avadhi to Awadhi. *)
Theorem C4_hindi_dialects :
  let input := lit "Hindi (Braj, Avadhi dialects)" in
  matchAll canonicalize reDialects input
    = Some [lit "(Braj, Avadhi dialects)"]
  /\ extractDialects [lit "(Braj, Avadhi dialects)"]
    = [lit "Braj"; lit "Avadhi"]
  /\ replaceAll canonicalize reDialectsDrop (fun _ => []) input
    = lit "Hindi "
  /\ split canonicalize separatorRegex (lit "Hindi ") = [lit "Hindi "]
  /\ normalizeLanguageName (VString (lit "Braj"))
    = ret (VString (lit "Braj Bhasha"))
  /\ normalizeLanguageName (VString (lit "Avadhi"))
    = ret (VString (lit "Awadhi"))
  /\ parseLanguageValue (VString input)
    = ret [ VString (lit "Hindi"); VString (lit "Braj Bhasha");
            VString (lit "Awadhi") ].
Proof.
  vm_compute. repeat split; reflexivity.
Qed.



(** ** The text normaliser on single tokens *)


(** Counterexample to C6 as stated: on the empty string both normalisers
    return the empty string itself, not null. *)
Lemma C6_empty_string_returned :
  normalizeLanguageName (VString []) = ret (VString [])
  /\ normalizeTraditionName (VString []) = ret (VString [])
  /\ normalizeLanguageName (VString []) <> ret VNull
  /\ normalizeTraditionName (VString []) <> ret VNull.
Proof.
  repeat split; try reflexivity; intro H; discriminate H.
Qed.

(** ** The filter query builder *)

(** C1, at the failing input: the filter built for the input lingayat does
    not match a record whose tradition field is written with diacritics,
    because the two diacritic spellings among its variants are other code
    units than those of the stored names; it matches Lingayat and
    Virashaiva and does not match Vaishnava. *)
Theorem C1_lingayat_filter_misses_diacritic_spellings :
  let f := buildFilter (onlyTradition (lit "lingayat")) in
  matches f (recordWithTradition virasaiva) = ret false
  /\ matches f (recordWithTradition lingayat_diacritic) = ret false
  /\ matches f (recordWithTradition (lit "Lingayat")) = ret true
  /\ matches f (recordWithTradition (lit "Virashaiva")) = ret true
  /\ matches f (recordWithTradition (lit "Vaishnava")) = ret false.
Proof.
  vm_compute. repeat split; reflexivity.
Qed.

(** Counterexample to C2 as stated: with only the upper bound 1000, a
    record without a start year is not returned. *)
Lemma C2_upper_bound_excludes_missing_year :
  fieldOf (recordWithTradition (lit "Lingayat")) (lit "startYear")
    = VUndefined
  /\ matches (buildFilter (onlyYearMax (lit "1000")))
       (recordWithTradition (lit "Lingayat")) = ret false.
Proof.
  split; vm_compute; reflexivity.
Qed.

(** ** The record-to-marker projector *)

(** Counterexample to C9 as stated: two runs on one record, the second
    after the first, draw different random suffixes and so give markers
    with different identifiers. *)
Lemma C9_runs_differ_in_identifier :
  exists first second,
    convertToMapMarkers showInteger draws sampleRecord 0 = ret (first, 1%nat)
    /\ convertToMapMarkers showInteger draws sampleRecord 1
        = ret (second, 2%nat)
    /\ map id first = [lit "64f0c2a1_birth_k3x9q1a"]
    /\ map id second = [lit "64f0c2a1_birth_z7m2c4d"]
    /\ first <> second.
Proof.
  eexists. eexists. split; [vm_compute; reflexivity |].
  split; [vm_compute; reflexivity |].
  split; [reflexivity |]. split; [reflexivity |].
  intro H. discriminate H.
Qed.

(** ** Facts about the matcher *)

Section MatcherFacts.

Variable canon : N -> N.

Lemma starLoop_caps (try1 : mstate -> list mstate) :
  (forall st st', In st' (try1 st) -> exists l, caps st' = l ++ caps st) ->
  forall fuel st st',
    In st' (starLoop try1 fuel st) -> exists l, caps st' = l ++ caps st.
Proof.
  intros Htry. induction fuel as [|f IH]; intros st st' Hin; simpl in Hin.
  - destruct Hin as [<- | []]. exists []. reflexivity.
  - apply in_app_or in Hin. destruct Hin as [Hin | [<- | []]].
    + apply in_flat_map in Hin. destruct Hin as [st1 [H1 H2]].
      destruct (Nat.ltb (pos st) (pos st1)); [| destruct H2].
      apply IH in H2. destruct H2 as [l2 E2].
      apply Htry in H1. destruct H1 as [l1 E1].
      exists (l2 ++ l1). rewrite E2, E1. apply app_assoc.
    + exists []. reflexivity.
Qed.

(** A match only adds captures. *)
Lemma m_caps (r : regex) :
  forall st st', In st' (m canon r st) -> exists l, caps st' = l ++ caps st.
Proof.
  induction r as [| c | neg items | r1 IH1 r2 IH2 | r1 IH1 r2 IH2 | r1 IH1
                 | i r1 IH1 | |]; intros st st' Hin; simpl in Hin.
  - destruct Hin as [<- | []]. exists []. reflexivity.
  - destruct (rest st) as [| ch tl] eqn:Er; [destruct Hin |].
    destruct (N.eqb (canon c) (canon ch)); [| destruct Hin].
    destruct Hin as [<- | []]. exists []. reflexivity.
  - destruct (rest st) as [| ch tl] eqn:Er; [destruct Hin |].
    destruct (cls_match canon neg items ch); [| destruct Hin].
    destruct Hin as [<- | []]. exists []. reflexivity.
  - apply in_flat_map in Hin. destruct Hin as [st1 [H1 H2]].
    apply IH1 in H1. apply IH2 in H2.
    destruct H1 as [l1 E1]. destruct H2 as [l2 E2].
    exists (l2 ++ l1). rewrite E2, E1. apply app_assoc.
  - apply in_app_or in Hin. destruct Hin as [Hin | Hin]; [apply (IH1 _ _ Hin) | apply (IH2 _ _ Hin)].
  - exact (starLoop_caps (m canon r1) IH1 (S (List.length (rest st))) st st' Hin).
  - apply in_map_iff in Hin. destruct Hin as [st1 [E H1]].
    apply IH1 in H1. destruct H1 as [l1 E1]. subst st'. simpl.
    exists ((i, firstn (pos st1 - pos st) (rest st)) :: l1).
    rewrite E1. reflexivity.
  - destruct (Nat.eqb (pos st) 0); [| destruct Hin].
    destruct Hin as [<- | []]. exists []. reflexivity.
  - destruct (rest st); [| destruct Hin].
    destruct Hin as [<- | []]. exists []. reflexivity.
Qed.

Lemma capture_app (i : nat) (st st' : mstate) (l : list (nat * jsstring)) :
  caps st' = l ++ caps st -> capture i st <> None -> capture i st' <> None.
Proof.
  unfold capture. intros -> H.
  induction l as [| [j x] l IH]; simpl; [exact H |].
  destruct (Nat.eqb j i); [discriminate | exact IH].
Qed.

(** A group that every match of [r] binds has a text after a match. *)
Lemma binds_capture (i : nat) (r : regex) :
  binds i r = true ->
  forall st st', In st' (m canon r st) -> capture i st' <> None.
Proof.
  induction r as [| c | neg items | r1 IH1 r2 IH2 | r1 IH1 r2 IH2 | r1 IH1
                 | j r1 IH1 | |]; simpl; intros Hb st st' Hin;
    try discriminate Hb.
  - apply in_flat_map in Hin. destruct Hin as [st1 [H1 H2]].
    apply orb_true_iff in Hb. destruct Hb as [Hb | Hb].
    + destruct (m_caps _ _ _ H2) as [l E].
      eapply capture_app; eauto.
    + eauto.
  - apply andb_true_iff in Hb. destruct Hb as [Hb1 Hb2].
    apply in_app_or in Hin. destruct Hin; eauto.
  - apply in_map_iff in Hin. destruct Hin as [st1 [E H1]]. subst st'.
    unfold capture. simpl.
    destruct (Nat.eqb j i) eqn:Eji; [discriminate |].
    simpl in Hb. apply (IH1 Hb _ _ H1).
Qed.

Lemma matchAt_in (r : regex) (p : nat) (s : jsstring) (st : mstate) :
  matchAt canon r p s = Some st -> In st (m canon r (MState p s [])).
Proof.
  unfold matchAt. destruct (m canon r (MState p s [])) as [| x l]; simpl.
  - discriminate.
  - intros [= <-]. now left.
Qed.

Lemma search_in (r : regex) (s : jsstring) :
  forall p q st, search canon r p s = Some (q, st) ->
  exists s', In st (m canon r (MState q s' [])).
Proof.
  induction s as [| c tl IH]; intros p q st; simpl.
  - destruct (matchAt canon r p []) eqn:E; [| discriminate].
    intros [= <- <-]. exists []. now apply matchAt_in.
  - destruct (matchAt canon r p (c :: tl)) eqn:E.
    + intros [= <- <-]. exists (c :: tl). now apply matchAt_in.
    + apply IH.
Qed.

End MatcherFacts.

(** ** Facts about values and loops *)








(** Both groups of the pattern for a name followed by a parenthesis have a
    text whenever the pattern matches, so reading them never fails. *)
Lemma reMainParen_groups (subPart : jsstring) (q : nat) (st : mstate) :
  search exact reMainParen 0 subPart = Some (q, st) ->
  exists g1 g2, group st 1 = VString g1 /\ group st 2 = VString g2.
Proof.
  intros H. apply search_in in H. destruct H as [s' Hin].
  pose proof (binds_capture exact 1 reMainParen eq_refl _ _ Hin) as H1.
  pose proof (binds_capture exact 2 reMainParen eq_refl _ _ Hin) as H2.
  unfold group.
  destruct (capture 1 st) as [g1 |]; [| contradiction].
  destruct (capture 2 st) as [g2 |]; [| contradiction].
  eauto.
Qed.




(** ** Replacing the matches of a character class *)

Section ClassFacts.

Variable canon : N -> N.
Variables (neg : bool) (items : list citem).

Local Abbreviation inClass := (cls_match canon neg items).

Lemma matchLen_cls (p : nat) (s : jsstring) :
  matchLen canon (Cls neg items) p s =
  match s with
  | c :: _ => if inClass c then Some 1%nat else None
  | [] => None
  end.
Proof.
  unfold matchLen, matchAt. simpl.
  destruct s as [| c tl]; [reflexivity |].
  destruct (cls_match canon neg items c); [| reflexivity].
  unfold hd_error, option_map, step. simpl pos. f_equal. lia.
Qed.

Lemma hd_error_app {A : Type} (l l' : list A) (x : A) :
  hd_error l = Some x -> hd_error (l ++ l') = Some x.
Proof.
  destruct l; simpl; [discriminate | trivial].
Qed.

(** The first result of the loop of a starred class is the one that has
    read the whole run of code units of the class. *)
Lemma starLoop_cls_hd (fuel : nat) :
  forall st,
    (prefixLen inClass (rest st) < fuel)%nat ->
    hd_error (starLoop (m canon (Cls neg items)) fuel st)
    = Some (MState (pos st + prefixLen inClass (rest st))
                   (skipn (prefixLen inClass (rest st)) (rest st))
                   (caps st)).
Proof.
  induction fuel as [| f IH]; intros [p s c] Hlt; [lia |].
  cbn [rest pos caps] in *. cbn [starLoop].
  destruct s as [| ch tl].
  - cbn [m rest flat_map app hd_error prefixLen skipn pos].
    rewrite Nat.add_0_r. reflexivity.
  - cbn [m rest prefixLen] in *.
    destruct (inClass ch) eqn:E.
    + cbn [flat_map step pos caps].
      replace (Nat.ltb p (S p)) with true
        by (symmetry; apply Nat.ltb_lt; lia).
      rewrite app_nil_r.
      apply hd_error_app.
      unfold step at 2. cbn [rest pos caps].
      rewrite IH by (cbn [rest]; lia).
      cbn [rest pos caps skipn]. f_equal. f_equal. lia.
    + cbn [flat_map app hd_error skipn]. rewrite Nat.add_0_r. reflexivity.
Qed.

Lemma prefixLen_le (p : N -> bool) (s : jsstring) :
  (prefixLen p s <= List.length s)%nat.
Proof.
  induction s as [| c tl IH]; simpl; [lia |].
  destruct (p c); simpl; lia.
Qed.

Lemma matchLen_plus_cls (p : nat) (s : jsstring) :
  matchLen canon (plus (Cls neg items)) p s =
  match s with
  | c :: tl => if inClass c then Some (S (prefixLen inClass tl)) else None
  | [] => None
  end.
Proof.
  destruct s as [| c tl]; [reflexivity |].
  unfold matchLen, matchAt.
  assert (Hm : m canon (plus (Cls neg items)) (MState p (c :: tl) [])
               = if inClass c
                 then starLoop (m canon (Cls neg items)) (S (List.length tl))
                        (MState (S p) tl []) ++ []
                 else []).
  { unfold plus. cbn [m rest flat_map]. destruct (inClass c); reflexivity. }
  rewrite Hm. destruct (inClass c); [| reflexivity].
  rewrite app_nil_r.
  rewrite starLoop_cls_hd
    by (cbn [rest]; pose proof (prefixLen_le inClass tl); lia).
  unfold option_map. cbn [pos rest]. f_equal. lia.
Qed.

(** Replacing each code unit of the class by [rep] of it. *)
Lemma replaceGo_cls (rep : jsstring -> jsstring) (s : jsstring) :
  forall p,
    replaceGo canon (Cls neg items) rep 0 p s
    = flat_map (fun c => if inClass c then rep [c] else [c]) s.
Proof.
  induction s as [| c tl IH]; intros p.
  - cbn [replaceGo]. rewrite matchLen_cls. reflexivity.
  - cbn [replaceGo flat_map]. rewrite matchLen_cls.
    destruct (inClass c); cbn [firstn]; rewrite IH; reflexivity.
Qed.

End ClassFacts.

(** Collapsing white space with the pattern of the source is
    [collapseFrom]. *)
Lemma replaceGo_spaces (s : jsstring) :
  forall p,
    replaceGo exact reSpaces (fun _ => lit " ") 0 p s = collapseFrom false s
    /\ replaceGo exact reSpaces (fun _ => lit " ")
         (prefixLen isWhiteSpace s) p s = collapseFrom true s.
Proof.
  assert (Hws : forall c, cls_match exact false [CSpace] c = isWhiteSpace c).
  { intros c. unfold cls_match, exact. simpl. now rewrite orb_false_r. }
  assert (Hpl : forall t, prefixLen (cls_match exact false [CSpace]) t
                          = prefixLen isWhiteSpace t).
  { induction t as [| c t IH]; cbn [prefixLen]; [reflexivity |].
    rewrite Hws, IH. reflexivity. }
  unfold reSpaces, ws.
  induction s as [| c tl IH]; intros p.
  - cbn [replaceGo prefixLen]. rewrite matchLen_plus_cls. split; reflexivity.
  - destruct (IH (S p)) as [IH0 IH1].
    cbn [prefixLen collapseFrom].
    destruct (isWhiteSpace c) eqn:E.
    + split.
      * cbn [replaceGo]. rewrite matchLen_plus_cls, Hws, E, Hpl.
        rewrite IH1. reflexivity.
      * cbn [replaceGo]. exact IH1.
    + assert (H0 : replaceGo exact (plus (Cls false [CSpace]))
                     (fun _ => lit " ") 0 p (c :: tl)
                   = c :: collapseFrom false tl).
      { cbn [replaceGo]. rewrite matchLen_plus_cls, Hws, E.
        rewrite IH0. reflexivity. }
      split; exact H0.
Qed.

Lemma collapse_spaces (s : jsstring) :
  replaceAll exact reSpaces (fun _ => lit " ") s = collapseFrom false s.
Proof.
  unfold replaceAll. apply replaceGo_spaces.
Qed.

Lemma strip_parens (s : jsstring) :
  replaceAll exact reParens (fun _ => []) s
  = List.filter (fun c => negb (cls_match exact false
                             [CChar (ch "("); CChar (ch ")")] c)) s.
Proof.
  unfold replaceAll, reParens. rewrite replaceGo_cls.
  induction s as [| c tl IH]; cbn [flat_map List.filter]; [reflexivity |].
  destruct (cls_match exact false [CChar (ch "("); CChar (ch ")")] c);
    cbn [negb app]; rewrite IH; reflexivity.
Qed.

Lemma collapseFrom_length (s : jsstring) :
  forall b, (List.length (collapseFrom b s) <= List.length s)%nat.
Proof.
  induction s as [| c tl IH]; intros b; simpl; [lia |].
  destruct (isWhiteSpace c); [destruct b |]; simpl;
    try (pose proof (IH true)); try (pose proof (IH false)); lia.
Qed.


(** ** The length floor of the normalisers *)

(** Removing parentheses and collapsing white space do not lengthen a
    text. *)
Lemma cleaned_length (t : jsstring) :
  (List.length (replaceAll exact reSpaces (fun _ => lit " ")
                  (replaceAll exact reParens (fun _ => []) t))
   <= List.length t)%nat
  /\ (List.length (replaceAll exact reSpaces (fun _ => lit " ") t)
      <= List.length t)%nat.
Proof.
  rewrite !collapse_spaces, strip_parens. split.
  - etransitivity; [apply collapseFrom_length | apply filter_length_le].
  - apply collapseFrom_length.
Qed.

(** C6, amended: on the empty string both normalisers return the empty
    string itself; on every other token whose trimmed form has fewer than
    two code units both return null. *)
Theorem C6_length_floor (name : jsstring) :
  name <> [] ->
  (List.length (trim name) < 2)%nat ->
  normalizeLanguageName (VString name) = ret VNull
  /\ normalizeTraditionName (VString name) = ret VNull
  /\ normalizeLanguageName (VString []) = ret (VString [])
  /\ normalizeTraditionName (VString []) = ret (VString []).
Proof.
  intros Hne Hlen.
  destruct (cleaned_length (trim name)) as [HL HT].
  assert (HL' : Nat.ltb (List.length
            (replaceAll exact reSpaces (fun _ => lit " ")
               (replaceAll exact reParens (fun _ => []) (trim name)))) 2
          = true) by (apply Nat.ltb_lt; lia).
  assert (HT' : Nat.ltb (List.length
            (replaceAll exact reSpaces (fun _ => lit " ") (trim name))) 2
          = true) by (apply Nat.ltb_lt; lia).
  unfold normalizeLanguageName, normalizeTraditionName.
  destruct name as [| c tl]; [contradiction |].
  cbn [truthy negb callTrim bind].
  rewrite HL', HT'. repeat split; reflexivity.
Qed.

(** The length floor at the token a. *)
Lemma C6_length_floor_witness :
  normalizeLanguageName (VString (lit "a")) = ret VNull
  /\ normalizeTraditionName (VString (lit "a")) = ret VNull
  /\ normalizeLanguageName (VString []) = ret (VString [])
  /\ normalizeTraditionName (VString []) = ret (VString []).
Proof.
  apply (C6_length_floor (lit "a")).
  - discriminate.
  - vm_compute. lia.
Defined.

(** ** Title case by splitting at spaces *)







(** A lower-cased token that is the name of an inherited member is looked
    up with success: the normaliser returns the member, not a text. *)
Lemma inherited_member_returned :
  normalizeLanguageName (VString (lit "constructor")) = ret (VBuiltin BObject)
  /\ normalizeTraditionName (VString (lit "Constructor"))
     = ret (VBuiltin BObject).
Proof.
  split; reflexivity.
Qed.

(** ** The year range of the filter *)

Lemma compare_numbers (a b : Z) :
  compareValues (number a) (number b) = ret (Z.compare a b).
Proof.
  unfold compareValues, number, Qcompare. simpl.
  now rewrite !Z.mul_1_r.
Qed.

Lemma eval_gte (doc : value) (a b : expr) :
  eval doc (EGte a b)
  = (x <- eval doc a ;; y <- eval doc b ;; c <- compareValues x y ;;
     ret (VBool (match c with Lt => false | _ => true end))).
Proof. reflexivity. Qed.

Lemma eval_lte (doc : value) (a b : expr) :
  eval doc (ELte a b)
  = (x <- eval doc a ;; y <- eval doc b ;; c <- compareValues x y ;;
     ret (VBool (match c with Gt => false | _ => true end))).
Proof. reflexivity. Qed.

(** C2, amended: a record without a start year is compared as 0 with a
    lower bound and as 9999 with an upper bound.  With only the lower
    bound n it is returned exactly when n is at most 0, and with only the
    upper bound n exactly when n is at least 9999; either bound excludes
    it when it is a year between 1 and 9998. *)
Theorem C2_missing_year_against_bounds
    (bound : jsstring) (n : Z) (doc : value) :
  bound <> [] ->
  parseInt bound = Some n ->
  fieldOf doc (lit "startYear") = VUndefined ->
  eval doc (EToInt (EIfNull (EField (lit "startYear"))
                            (ELit (VString (lit "0"))))) = ret (number 0)
  /\ eval doc (EToInt (EIfNull (EField (lit "startYear"))
                               (ELit (VString (lit "9999")))))
     = ret (number 9999)
  /\ matches (buildFilter (onlyYearMin bound)) doc = ret (Z.leb n 0)
  /\ matches (buildFilter (onlyYearMax bound)) doc = ret (Z.leb 9999 n).
Proof.
  intros Hne Hparse Hmissing.
  assert (E0 : eval doc (EToInt (EIfNull (EField (lit "startYear"))
                                   (ELit (VString (lit "0")))))
               = ret (number 0)).
  { cbn [eval bind]. rewrite Hmissing. reflexivity. }
  assert (E9 : eval doc (EToInt (EIfNull (EField (lit "startYear"))
                                   (ELit (VString (lit "9999")))))
               = ret (number 9999)).
  { cbn [eval bind]. rewrite Hmissing. reflexivity. }
  destruct bound as [| c tl]; [contradiction |].
  repeat split; try assumption.
  - unfold matches, buildFilter, onlyYearMin, yearConditions.
    cbn [tradition language traditionType gender startYearMin startYearMax
         given option_map f_tradition f_language f_traditionType f_gender
         f_and whenSet bind app].
    rewrite Hparse. cbn [app forEach]. rewrite eval_gte, E0.
    cbn [bind eval]. rewrite compare_numbers. cbn [bind truthy andb].
    unfold Z.leb. rewrite (Z.compare_antisym 0 n).
    destruct (Z.compare 0 n); reflexivity.
  - unfold matches, buildFilter, onlyYearMax, yearConditions.
    cbn [tradition language traditionType gender startYearMin startYearMax
         given option_map f_tradition f_language f_traditionType f_gender
         f_and whenSet bind app].
    rewrite Hparse. cbn [app forEach]. rewrite eval_lte, E9.
    cbn [bind eval]. rewrite compare_numbers. cbn [bind truthy andb].
    unfold Z.leb. destruct (Z.compare 9999 n); reflexivity.
Qed.

(** The bounds 1000 of the specification's examples. *)
Lemma C2_missing_year_against_bounds_witness :
  matches (buildFilter (onlyYearMin (lit "1000")))
    (recordWithTradition (lit "Lingayat")) = ret false
  /\ matches (buildFilter (onlyYearMax (lit "1000")))
       (recordWithTradition (lit "Lingayat")) = ret false.
Proof.
  pose proof (C2_missing_year_against_bounds (lit "1000") 1000
                (recordWithTradition (lit "Lingayat"))) as H.
  destruct H as [_ [_ [Hmin Hmax]]];
    [discriminate | reflexivity | reflexivity |].
  split; [exact Hmin | exact Hmax].
Defined.

(** ** The projector on records without a places object *)

Section ProjectorFacts.

Variable numberToString : Q -> jsstring.

Lemma getPropOpt_truthy (v p : value) (k : jsstring) :
  getPropOpt v k = ret p -> truthy p = true -> getProp v k = ret p.
Proof.
  destruct v; simpl; intros H Ht; try exact H;
    injection H as <-; discriminate Ht.
Qed.

(** C10: when the places field of the document is absent, null or not an
    object, the projector returns no marker and does not throw, whatever
    the document is; and an entry of the places object that is null is
    passed over without a marker and without an error. *)
Theorem C10_no_places_no_markers
    (randomSuffix : nat -> jsstring) (doc places : value) (draws : nat) :
  getPropOpt doc (lit "places") = ret places ->
  places = VUndefined \/ places = VNull \/ isObjectType places = false ->
  convertToMapMarkers numberToString randomSuffix doc draws = ret ([], draws)
  /\ (forall (d : value) (st : list marker * nat) (category : jsstring),
        placeEntry numberToString randomSuffix d st (category, VNull)
        = ret st).
Proof.
  intros Hget Hcase. split; [| reflexivity].
  unfold convertToMapMarkers. rewrite Hget. cbn [bind].
  destruct (truthy places) eqn:Ht; cbn [negb]; [| reflexivity].
  rewrite (getPropOpt_truthy _ _ _ Hget Ht). cbn [bind].
  destruct Hcase as [-> | [-> | Hobj]]; try discriminate Ht.
  rewrite Hobj. reflexivity.
Qed.

(** ** Two runs of the projector *)

Ltac bind_step :=
  match goal with
  | |- context [bind ?c _] => destruct c; cbn [bind]; [| reflexivity]
  end.

Lemma createMarker_agree (rs1 rs2 : nat -> jsstring) (doc place : value)
    (category : jsstring) (ms1 ms2 : list marker) (n1 n2 : nat) :
  map Spec.withoutId ms1 = map Spec.withoutId ms2 ->
  Spec.markersWithoutIds
    (createMarker numberToString rs1 doc category (ms1, n1) place)
  = Spec.markersWithoutIds
      (createMarker numberToString rs2 doc category (ms2, n2) place).
Proof.
  intros H. unfold createMarker.
  assert (Hst : Spec.markersWithoutIds (ret (ms1, n1))
                = Spec.markersWithoutIds (ret (ms2, n2))).
  { simpl. now rewrite H. }
  bind_step. destruct (negb (truthy a)); [exact Hst |].
  bind_step. bind_step. destruct (negb (strictEqNat a1 2)); [exact Hst |].
  repeat bind_step.
  simpl. rewrite !map_app, H. reflexivity.
Qed.

Lemma forEach_agree {A : Type}
    (f1 f2 : list marker * nat -> A -> result (list marker * nat)) :
  (forall st1 st2 x,
      map Spec.withoutId (fst st1) = map Spec.withoutId (fst st2) ->
      Spec.markersWithoutIds (f1 st1 x) = Spec.markersWithoutIds (f2 st2 x)) ->
  forall xs st1 st2,
    map Spec.withoutId (fst st1) = map Spec.withoutId (fst st2) ->
    Spec.markersWithoutIds (forEach f1 xs st1)
    = Spec.markersWithoutIds (forEach f2 xs st2).
Proof.
  intros Hf. induction xs as [| x tl IH]; intros [ms1 n1] [ms2 n2] H.
  - simpl in *. now rewrite H.
  - cbn [forEach].
    specialize (Hf (ms1, n1) (ms2, n2) x H).
    destruct (f1 (ms1, n1) x) as [[ms1' n1'] | e1];
      destruct (f2 (ms2, n2) x) as [[ms2' n2'] | e2];
      simpl in Hf; try discriminate Hf; cbn [bind].
    + apply IH. simpl. now injection Hf.
    + exact Hf.
Qed.

Lemma placeEntry_agree (rs1 rs2 : nat -> jsstring) (doc : value)
    (st1 st2 : list marker * nat) (entry : jsstring * value) :
  map Spec.withoutId (fst st1) = map Spec.withoutId (fst st2) ->
  Spec.markersWithoutIds (placeEntry numberToString rs1 doc st1 entry)
  = Spec.markersWithoutIds (placeEntry numberToString rs2 doc st2 entry).
Proof.
  intros H. destruct entry as [category placeData]. unfold placeEntry.
  destruct st1 as [ms1 n1], st2 as [ms2 n2].
  destruct (negb (truthy placeData)).
  - simpl in *. now rewrite H.
  - destruct placeData; try (now apply createMarker_agree).
    apply forEach_agree; [| exact H].
    intros [a1 b1] [a2 b2] x Hx. now apply createMarker_agree.
Qed.

(** C9, amended: two runs of the projector on one record, whatever the
    random draws of each, both throw or both return; when they return,
    the two marker sequences are equal field by field once the synthetic
    identifiers are left out. *)
Theorem C9_runs_agree_up_to_identifier
    (rs1 rs2 : nat -> jsstring) (doc : value) (d1 d2 : nat) :
  Spec.markersWithoutIds (convertToMapMarkers numberToString rs1 doc d1)
  = Spec.markersWithoutIds (convertToMapMarkers numberToString rs2 doc d2).
Proof.
  unfold convertToMapMarkers.
  bind_step. destruct (negb (truthy a)); [reflexivity |].
  bind_step. destruct (negb (isObjectType a0)); [reflexivity |].
  apply forEach_agree; [| reflexivity].
  intros st1 st2 x Hx. now apply placeEntry_agree.
Qed.

End ProjectorFacts.

(** A record without places, the null document and a places field that
    is a text. *)
Lemma C10_no_places_no_markers_witness :
  convertToMapMarkers showInteger draws
    (recordWithTradition (lit "Lingayat")) 0 = ret ([], 0%nat)
  /\ convertToMapMarkers showInteger draws VNull 0 = ret ([], 0%nat)
  /\ convertToMapMarkers showInteger draws
       (VObject [(lit "places", VString (lit "Kalyana"))]) 0
     = ret ([], 0%nat).
Proof.
  split; [| split].
  - apply (C10_no_places_no_markers showInteger draws
             (recordWithTradition (lit "Lingayat")) VUndefined 0 eq_refl).
    left; reflexivity.
  - apply (C10_no_places_no_markers showInteger draws VNull VUndefined 0
             eq_refl).
    left; reflexivity.
  - apply (C10_no_places_no_markers showInteger draws
             (VObject [(lit "places", VString (lit "Kalyana"))])
             (VString (lit "Kalyana")) 0 eq_refl).
    right; right; reflexivity.
Defined.


(** ** The projector on a well-formed record *)

Lemma strictEqNat_fromNat (n k : nat) :
  strictEqNat (fromNat n) k = Nat.eqb n k.
Proof.
  unfold strictEqNat, fromNat.
  destruct (Nat.eqb_spec n k) as [-> | Hne].
  - apply Qeq_bool_iff. reflexivity.
  - destruct (Qeq_bool _ _) eqn:E; [| reflexivity].
    apply Qeq_bool_iff in E. unfold Qeq in E. simpl in E. lia.
Qed.

Section WellFormedRecord.

Variable numberToString : Q -> jsstring.
Variable randomSuffix : nat -> jsstring.

(** The stored record: its places field holds a well-formed places map
    and its identifier and saint have a text. *)
Variable props : list (jsstring * value).
Variables idText saintText : jsstring.
Hypothesis Hid : toStr numberToString (lookup props (lit "_id")) = ret idText.
Hypothesis Hsaint :
  toStr numberToString (lookup props (lit "saint")) = ret saintText.

Local Abbreviation create :=
  (createMarker numberToString randomSuffix (VObject props)).

Lemma createMarker_skips (category : jsstring) (p : Spec.Place)
    (st : list marker * nat) :
  Spec.hasCoordinatePair p = false ->
  create category st (Spec.ofPlace p) = ret st.
Proof.
  destruct p as [nm cs rg]. unfold Spec.hasCoordinatePair. cbn [Spec.placeCoords].
  intros H. unfold createMarker, Spec.ofPlace.
  cbn [Spec.placeName Spec.placeCoords Spec.placeRegion].
  destruct cs as [| | xs]; try reflexivity.
  cbn [Spec.coordsBinding app getPropOpt getProp bind].
  change (lookup _ (lit "coords")) with (VArray (map VNumber xs)).
  cbn [truthy negb bind getProp].
  change (JsString.eqb (lit "length") (lit "length")) with true.
  cbn iota. cbn [bind].
  rewrite strictEqNat_fromNat, length_map.
  destruct xs as [| a [| b [| c xs]]]; try reflexivity. discriminate H.
Qed.

Lemma createMarker_emits (category : jsstring) (p : Spec.Place)
    (ms : list marker) (n : nat) :
  Spec.hasCoordinatePair p = true ->
  exists mk,
    create category (ms, n) (Spec.ofPlace p) = ret (ms ++ [mk], S n)
    /\ Spec.markerKey mk = Spec.pairKey (category, p).
Proof.
  destruct p as [nm cs rg]. unfold Spec.hasCoordinatePair. cbn [Spec.placeCoords].
  intros H.
  destruct cs as [| | [| a [| b [| c xs]]]]; try discriminate H.
  unfold createMarker, Spec.ofPlace.
  cbn [Spec.placeName Spec.placeCoords Spec.placeRegion Spec.coordsBinding app
       getPropOpt getProp bind].
  change (lookup _ (lit "coords")) with (VArray [VNumber a; VNumber b]).
  change (lookup _ (lit "name")) with (VString nm).
  cbn [truthy negb bind map getProp].
  change (JsString.eqb (lit "length") (lit "length")) with true.
  cbn iota. cbn [bind].
  rewrite strictEqNat_fromNat. cbn [List.length Nat.eqb negb bind].
  rewrite Hid, Hsaint. cbn [bind toStr].
  eexists. split; reflexivity.
Qed.

(** The identifier and the popup text of the marker made: the text of the
    record identifier, the category and the random draw of this marker,
    joined by underscores; the name of the place, the dash of the source,
    the category and the saint. *)
Lemma createMarker_identifier (category : jsstring) (p : Spec.Place)
    (ms : list marker) (n : nat) :
  Spec.hasCoordinatePair p = true ->
  exists mk,
    create category (ms, n) (Spec.ofPlace p) = ret (ms ++ [mk], S n)
    /\ id mk = idText ++ lit "_" ++ category ++ lit "_" ++ randomSuffix n
    /\ popup mk = Spec.placeName p ++ lit " " ++ popupDash ++ lit " "
                   ++ category ++ lit " of " ++ saintText
    /\ fullData mk = VObject props.
Proof.
  destruct p as [nm cs rg]. unfold Spec.hasCoordinatePair. cbn [Spec.placeCoords].
  intros H.
  destruct cs as [| | [| a [| b [| c xs]]]]; try discriminate H.
  unfold createMarker, Spec.ofPlace.
  cbn [Spec.placeName Spec.placeCoords Spec.placeRegion Spec.coordsBinding app
       getPropOpt getProp bind].
  change (lookup _ (lit "coords")) with (VArray [VNumber a; VNumber b]).
  change (lookup _ (lit "name")) with (VString nm).
  cbn [truthy negb bind map getProp].
  change (JsString.eqb (lit "length") (lit "length")) with true.
  cbn iota. cbn [bind].
  rewrite strictEqNat_fromNat. cbn [List.length Nat.eqb negb bind].
  rewrite Hid, Hsaint. cbn [bind toStr].
  eexists. repeat split; reflexivity.
Qed.

(** The markers of a list of Places. *)
Lemma forEach_places (category : jsstring) (ps : list Spec.Place) :
  forall ms n,
  exists new,
    forEach (create category) (map Spec.ofPlace ps) (ms, n)
    = ret (ms ++ new, (n + List.length new)%nat)
    /\ map Spec.markerKey new
       = map Spec.pairKey
           (map (pair category) (List.filter Spec.hasCoordinatePair ps)).
Proof.
  induction ps as [| p tl IH]; intros ms n.
  - exists []. simpl. now rewrite app_nil_r, Nat.add_0_r.
  - cbn [map forEach List.filter].
    destruct (Spec.hasCoordinatePair p) eqn:E.
    + destruct (createMarker_emits category p ms n E) as [mk [-> Hk]].
      cbn [bind]. destruct (IH (ms ++ [mk]) (S n)) as [new [-> Hnew]].
      exists (mk :: new). split.
      * rewrite <- app_assoc. cbn [app List.length]. f_equal. f_equal. lia.
      * cbn [map]. now rewrite Hk, Hnew.
    + rewrite (createMarker_skips category p (ms, n) E). cbn [bind].
      apply IH.
Qed.

Lemma placeEntry_slot (category : jsstring) (slot : Spec.PlaceSlot) :
  forall ms n,
  exists new,
    placeEntry numberToString randomSuffix (VObject props) (ms, n)
      (category, Spec.ofSlot slot)
    = ret (ms ++ new, (n + List.length new)%nat)
    /\ map Spec.markerKey new
       = map Spec.pairKey
           (map (pair category)
              (List.filter Spec.hasCoordinatePair (Spec.placesIn slot))).
Proof.
  intros ms n. destruct slot as [p | ps |].
  - pose proof (forEach_places category [p] ms n) as H.
    cbn [map forEach] in H.
    destruct H as [new [H Hk]]. exists new. split; [| exact Hk].
    rewrite <- H. unfold placeEntry. cbn [Spec.ofSlot].
    unfold Spec.ofPlace at 1. cbn [truthy negb].
    destruct (create category (ms, n) (Spec.ofPlace p)); reflexivity.
  - apply forEach_places.
  - exists []. simpl. now rewrite app_nil_r, Nat.add_0_r.
Qed.

Lemma forEach_entries (pm : list (jsstring * Spec.PlaceSlot)) :
  forall ms n,
  exists new,
    forEach (placeEntry numberToString randomSuffix (VObject props))
      (map (fun e => (fst e, Spec.ofSlot (snd e))) pm) (ms, n)
    = ret (ms ++ new, (n + List.length new)%nat)
    /\ map Spec.markerKey new = map Spec.pairKey (Spec.geocodedPairs pm).
Proof.
  induction pm as [| [category slot] tl IH]; intros ms n.
  - exists []. simpl. now rewrite app_nil_r, Nat.add_0_r.
  - cbn [map forEach fst snd].
    destruct (placeEntry_slot category slot ms n) as [new1 [-> H1]].
    cbn [bind].
    destruct (IH (ms ++ new1) (n + List.length new1)%nat) as [new2 [-> H2]].
    exists (new1 ++ new2). split.
    + rewrite <- app_assoc, length_app. f_equal. f_equal. lia.
    + unfold Spec.geocodedPairs. cbn [flat_map fst snd].
      rewrite !map_app, H1. f_equal. exact H2.
Qed.

End WellFormedRecord.

(** C3: for a record whose places map holds, under each category, one
    Place, a list of Places or null, the projector returns without an
    error and its markers are, in order, one for each (category, Place)
    pair whose Place has exactly two coordinate values, bearing the
    category, the name and the coordinates of the Place; a Place whose
    coordinates are absent, null or not two gives no marker.  Each marker
    made costs one random draw. *)
Theorem C3_one_marker_per_geocoded_place
    (numberToString : Q -> jsstring) (randomSuffix : nat -> jsstring)
    (props : list (jsstring * value)) (idText saintText : jsstring)
    (pm : list (jsstring * Spec.PlaceSlot)) (draws : nat) :
  assoc (lit "places") props = Some (Spec.ofPlaces pm) ->
  toStr numberToString (lookup props (lit "_id")) = ret idText ->
  toStr numberToString (lookup props (lit "saint")) = ret saintText ->
  exists markers,
    convertToMapMarkers numberToString randomSuffix (VObject props) draws
    = ret (markers, (draws + List.length markers)%nat)
    /\ map Spec.markerKey markers = map Spec.pairKey (Spec.geocodedPairs pm)
    /\ List.length markers = List.length (Spec.geocodedPairs pm).
Proof.
  intros Hplaces Hid Hsaint.
  destruct (forEach_entries numberToString randomSuffix props idText saintText
              Hid Hsaint pm [] draws) as [markers [Hrun Hkeys]].
  exists markers. split; [| split].
  - unfold convertToMapMarkers.
    cbn [getPropOpt getProp bind]. unfold lookup. rewrite Hplaces.
    unfold Spec.ofPlaces at 1 2. cbn [truthy negb isObjectType typeof bind].
    unfold Spec.ofPlaces. cbn [entries]. exact Hrun.
  - exact Hkeys.
  - rewrite <- (length_map Spec.markerKey), Hkeys. apply length_map.
Qed.

(** The record of the specification's example: one marker, for the birth
    place. *)
Lemma C3_one_marker_per_geocoded_place_witness :
  exists markers,
    convertToMapMarkers showInteger draws sampleRecord 0
    = ret (markers, (0 + List.length markers)%nat)
    /\ map Spec.markerKey markers
       = [ (lit "birth", VString (lit "X"),
            VArray [VNumber 1; VNumber 2]) ]
    /\ List.length markers = 1%nat.
Proof.
  exact (C3_one_marker_per_geocoded_place showInteger draws
           [ (lit "_id", VString (lit "64f0c2a1"));
             (lit "saint", VString (lit "Basava"));
             (lit "tradition", VString (lit "Lingayat"));
             (lit "places", Spec.ofPlaces samplePlaces) ]
           (lit "64f0c2a1") (lit "Basava") samplePlaces 0
           eq_refl eq_refl eq_refl).
Defined.

(** ** The pattern of the tradition and language filters *)

Lemma isSyntaxChar_meta (c : N) :
  cls_match exact false (map CChar (lit ".*+?^${}()|[]\")) c = isSyntaxChar c.
Proof.
  unfold cls_match, isSyntaxChar, exact. cbn [xorb].
  apply eq_true_iff_eq. rewrite !existsb_exists. split.
  - intros [it [Hin Hm]]. apply in_map_iff in Hin.
    destruct Hin as [a [<- Ha]]. simpl in Hm. apply N.eqb_eq in Hm. subst a.
    exists c. split; [| apply N.eqb_refl].
    vm_compute in Ha. vm_compute. tauto.
  - intros [a [Ha Hm]]. apply N.eqb_eq in Hm. subst a.
    exists (CChar c). split; [| simpl; apply N.eqb_refl].
    apply in_map. vm_compute in Ha. vm_compute. tauto.
Qed.

(** Escaping puts a backslash before each syntax character. *)
Lemma escapeRegExp_spec (v : jsstring) :
  escapeRegExp v
  = flat_map (fun c => if isSyntaxChar c then [ch "\"; c] else [c]) v.
Proof.
  unfold escapeRegExp, replaceAll, reMeta. rewrite replaceGo_cls.
  induction v as [| c tl IH]; [reflexivity |].
  cbn [flat_map]. rewrite isSyntaxChar_meta, IH. reflexivity.
Qed.

Lemma parseAlts_cons (n : nat) :
  forall s, (List.length s <= n)%nat ->
  parseAlts s = None \/ exists a r, parseAlts s = Some (a :: r).
Proof.
  induction n as [| n IH]; intros s Hlen.
  - destruct s; [right; simpl; eauto | simpl in Hlen; lia].
  - destruct s as [| c tl]; [right; simpl; eauto |].
    simpl in Hlen. cbn [parseAlts].
    destruct (N.eqb c (ch "|")).
    + destruct (IH tl) as [-> | [a [r ->]]]; [lia | now left |].
      right. simpl. eauto.
    + destruct (N.eqb c (ch "\")).
      * destruct tl as [| d tl']; [now left |].
        destruct (isSyntaxChar d); [| now left].
        simpl in Hlen.
        destruct (IH tl') as [-> | [a [r ->]]]; [lia | now left |].
        right. simpl. eauto.
      * destruct (isSyntaxChar c); [now left |].
        destruct (IH tl) as [-> | [a [r ->]]]; [lia | now left |].
        right. simpl. eauto.
Qed.

Lemma push_prepend (c : N) (v : jsstring) (l : list jsstring) :
  push c (prepend v l) = prepend (c :: v) l.
Proof.
  destruct l; reflexivity.
Qed.

Lemma not_syntax_not_special (c : N) :
  isSyntaxChar c = false ->
  N.eqb c (ch "|") = false /\ N.eqb c (ch "\") = false.
Proof.
  intros H. split.
  - destruct (N.eqb_spec c (ch "|")) as [-> |]; [discriminate H | reflexivity].
  - destruct (N.eqb_spec c (ch "\")) as [-> |]; [discriminate H | reflexivity].
Qed.

(** Reading back an escaped text gives the text, as the start of the
    first branch of what follows. *)
Lemma parseAlts_escape (v rest : jsstring) :
  parseAlts (escapeRegExp v ++ rest)
  = option_map (prepend v) (parseAlts rest).
Proof.
  rewrite escapeRegExp_spec.
  induction v as [| c tl IH].
  - simpl.
    destruct (parseAlts_cons (List.length rest) rest (Nat.le_refl _))
      as [-> | [a [r ->]]]; reflexivity.
  - cbn [flat_map]. destruct (isSyntaxChar c) eqn:E.
    + cbn [app parseAlts].
      change (N.eqb (ch "\") (ch "|")) with false.
      change (N.eqb (ch "\") (ch "\")) with true. cbn iota.
      rewrite E, IH.
      destruct (parseAlts rest) as [l |]; cbn [option_map]; [| reflexivity].
      now rewrite push_prepend.
    + destruct (not_syntax_not_special c E) as [E1 E2].
      cbn [app parseAlts]. rewrite E1, E2, E, IH.
      destruct (parseAlts rest) as [l |]; cbn [option_map]; [| reflexivity].
      now rewrite push_prepend.
Qed.

Lemma join_two (sep x y : jsstring) (l : list jsstring) :
  join sep (x :: y :: l) = x ++ sep ++ join sep (y :: l).
Proof. reflexivity. Qed.

(** The pattern text built from a list of variants reads back as exactly
    these variants, each a literal branch: no character of a variant acts
    as pattern syntax. *)
Lemma parseAlts_patternSource (v : jsstring) (vs : list jsstring) :
  parseAlts (patternSource (v :: vs)) = Some (v :: vs).
Proof.
  unfold patternSource. revert v.
  induction vs as [| w ws IH]; intros v.
  - cbn [map join]. rewrite <- (app_nil_r (escapeRegExp v)).
    rewrite parseAlts_escape. simpl. now rewrite app_nil_r.
  - change (map escapeRegExp (v :: w :: ws))
      with (escapeRegExp v :: map escapeRegExp (w :: ws)).
    change (map escapeRegExp (w :: ws))
      with (escapeRegExp w :: map escapeRegExp ws) at 1.
    rewrite join_two, parseAlts_escape.
    change (lit "|" ++ ?x) with (ch "|" :: x).
    cbn [parseAlts]. change (N.eqb (ch "|") (ch "|")) with true. cbn iota.
    change (escapeRegExp w :: map escapeRegExp ws)
      with (map escapeRegExp (w :: ws)).
    rewrite IH. simpl. now rewrite app_nil_r.
Qed.

Section LiteralBranches.

Variable fold : N -> N.

Lemma m_word (b : jsstring) :
  forall p s c,
    m fold (word b) (MState p s c)
    = if Spec.ciStartsWith fold b s
      then [MState (p + List.length b) (skipn (List.length b) s) c]
      else [].
Proof.
  induction b as [| x b IH]; intros p s c.
  - simpl. now rewrite Nat.add_0_r.
  - cbn [word m rest Spec.ciStartsWith].
    destruct s as [| y s]; [reflexivity |].
    destruct (N.eqb (fold x) (fold y)); [| reflexivity].
    cbn [flat_map andb]. unfold step. cbn [pos caps].
    rewrite IH, app_nil_r.
    destruct (Spec.ciStartsWith fold b s); [| reflexivity].
    cbn [List.length skipn]. do 2 f_equal. lia.
Qed.

Lemma matchAt_branches (b : jsstring) (bs : list jsstring)
    (p : nat) (s : jsstring) :
  found (matchAt fold (alts (map word (b :: bs))) p s)
  = existsb (fun v => Spec.ciStartsWith fold v s) (b :: bs).
Proof.
  unfold matchAt. revert b.
  induction bs as [| b' bs IH]; intros b.
  - cbn [map alts existsb]. rewrite m_word, orb_false_r.
    destruct (Spec.ciStartsWith fold b s); reflexivity.
  - cbn [map alts existsb]. cbn [map alts existsb] in IH.
    change (m fold (Alt ?a ?r) ?st) with (m fold a st ++ m fold r st).
    rewrite m_word.
    destruct (Spec.ciStartsWith fold b s); [reflexivity |].
    cbn [app orb]. apply IH.
Qed.

Lemma existsb_orb {A : Type} (f g : A -> bool) (l : list A) :
  existsb (fun x => f x || g x) l = existsb f l || existsb g l.
Proof.
  induction l as [| x l IH]; simpl; [reflexivity |].
  rewrite IH. destruct (f x), (g x), (existsb f l); reflexivity.
Qed.

Lemma existsb_same {A : Type} (f g : A -> bool) (l : list A) :
  (forall x, f x = g x) -> existsb f l = existsb g l.
Proof.
  intros H. induction l as [| x l IH]; simpl; [reflexivity |].
  now rewrite H, IH.
Qed.

(** A pattern that is an alternation of literal texts is found in a text
    exactly when one of the texts occurs in it, case put aside. *)
Lemma test_branches (b : jsstring) (bs : list jsstring) (s : jsstring) :
  test fold (alts (map word (b :: bs))) s
  = existsb (Spec.ciIncludes fold s) (b :: bs).
Proof.
  unfold test.
  assert (H : forall p,
             match search fold (alts (map word (b :: bs))) p s with
             | Some _ => true
             | None => false
             end = existsb (Spec.ciIncludes fold s) (b :: bs)).
  { induction s as [| c tl IH]; intros p.
    - cbn [search].
      pose proof (matchAt_branches b bs p []) as Hm.
      destruct (matchAt fold (alts (map word (b :: bs))) p []);
        cbn [found] in Hm; rewrite Hm; apply existsb_same;
        intros v; cbn [Spec.ciIncludes]; now rewrite orb_false_r.
    - cbn [search].
      pose proof (matchAt_branches b bs p (c :: tl)) as Hm.
      transitivity
        (existsb (fun v => Spec.ciStartsWith fold v (c :: tl)
                           || Spec.ciIncludes fold tl v) (b :: bs));
        [| reflexivity].
      rewrite existsb_orb, <- Hm.
      destruct (matchAt fold (alts (map word (b :: bs))) p (c :: tl));
        cbn [found orb]; [reflexivity | apply IH]. }
  apply H.
Qed.

End LiteralBranches.

(** The meaning of the tradition filter: for every input that is not
    empty, a record is returned exactly when its tradition field contains,
    case put aside, the trimmed input or one of the variants listed for
    it, each taken literally. *)
Lemma tradition_filter_meaning (input t : jsstring) :
  input <> [] ->
  matches (buildFilter (onlyTradition input)) (recordWithTradition t)
  = ret (existsb (Spec.ciIncludes caseFold t)
           (traditionVariations (trim input))).
Proof.
  intros Hne. destruct input as [| c0 tl0]; [contradiction |].
  unfold matches, buildFilter, onlyTradition.
  cbn [tradition language traditionType gender startYearMin startYearMax
       given option_map f_tradition f_language f_traditionType f_gender
       f_and whenSet yearConditions app forEach].
  unfold regexField.
  unfold traditionVariations at 1. cbn [app].
  rewrite parseAlts_patternSource.
  change (fieldOf (recordWithTradition t) (lit "tradition")) with (VString t).
  unfold patternTest. rewrite test_branches.
  cbn [bind]. now rewrite !andb_true_r.
Qed.

(** The variants of an input that is lingayat in some letter case. *)
Lemma lingayat_variations (x : jsstring) :
  toLowerCase x = lit "lingayat" ->
  traditionVariations x
  = [ x;
      lit "Li" ++ [0xB7; 0x3C0; 0xD6]%N ++ lit "g" ++ [0x192; 0xC5]%N
        ++ lit "yat";
      lit "Ling" ++ [0x192; 0xC5]%N ++ lit "yat";
      lit "Virashaiva";
      lit "V" ++ [0x192; 0xB4]%N ++ lit "ra" ++ [0x2248; 0xF5]%N
        ++ lit "aiva" ].
Proof.
  intros H. unfold traditionVariations. rewrite H. reflexivity.
Qed.

(** ** The tradition filter for an input in any letter case *)

Lemma between_enum (lo hi d : N) :
  between lo hi d = true ->
  In d (map (fun k => (lo + N.of_nat k)%N)
          (seq 0 (S (N.to_nat (hi - lo))))).
Proof.
  unfold between. intros H. apply andb_true_iff in H. destruct H as [H1 H2].
  apply N.leb_le in H1. apply N.leb_le in H2.
  apply in_map_iff. exists (N.to_nat (d - lo)). split; [lia |].
  apply in_seq. lia.
Qed.

(** A letter in either case is lowered, and folded, to the lower-case
    letter. *)
Lemma letter_lowered (c d : N) :
  Spec.isLowerLetter d = true ->
  Spec.sameLetter c d ->
  lowerCU c = [d] /\ caseFold c = d /\ caseFold d = d.
Proof.
  intros Hd Hc.
  assert (Hc' : c = d \/ c = (d - 32)%N).
  { destruct Hc as [-> | [_ ->]]; [now left | right; lia]. }
  apply between_enum in Hd. vm_compute in Hd.
  repeat (destruct Hd as [<- | Hd];
          [destruct Hc' as [-> | ->]; vm_compute; repeat split; reflexivity |]).
  destruct Hd.
Qed.

Lemma spelling_lowered (x y : jsstring) :
  Spec.letterCaseOf x y ->
  forallb Spec.isLowerLetter y = true ->
  toLowerCase x = y /\ map caseFold x = map caseFold y.
Proof.
  intros H. induction H as [| c d x y Hcd Hxy IH]; intros Hy.
  - split; reflexivity.
  - cbn [forallb] in Hy. apply andb_true_iff in Hy. destruct Hy as [Hd Hy].
    destruct (letter_lowered c d Hd Hcd) as [E1 [E2 E3]].
    destruct (IH Hy) as [IH1 IH2].
    unfold toLowerCase in *. cbn [flat_map map].
    rewrite E1, E2, E3, IH1, IH2. split; reflexivity.
Qed.

Section FoldedMatch.

Variable fold : N -> N.

Lemma ciStartsWith_folded (p p' s : jsstring) :
  map fold p = map fold p' ->
  Spec.ciStartsWith fold p s = Spec.ciStartsWith fold p' s.
Proof.
  revert p' s. induction p as [| a p IH]; intros [| a' p'] s H;
    try discriminate H; [reflexivity |].
  cbn [map] in H. injection H as Ha Hp.
  cbn [Spec.ciStartsWith]. destruct s as [| y s]; [reflexivity |].
  now rewrite Ha, (IH p' s Hp).
Qed.

Lemma ciIncludes_folded (p p' s : jsstring) :
  map fold p = map fold p' ->
  Spec.ciIncludes fold s p = Spec.ciIncludes fold s p'.
Proof.
  intros H. induction s as [| y s IH]; cbn [Spec.ciIncludes];
    rewrite (ciStartsWith_folded p p' _ H); [reflexivity |].
  now rewrite IH.
Qed.

Lemma ciStartsWith_self (p post : jsstring) :
  Spec.ciStartsWith fold p (p ++ post) = true.
Proof.
  induction p as [| a p IH]; [reflexivity |].
  cbn [app Spec.ciStartsWith]. now rewrite N.eqb_refl, IH.
Qed.

Lemma ciIncludes_inside (pre p post : jsstring) :
  Spec.ciIncludes fold (pre ++ p ++ post) p = true.
Proof.
  induction pre as [| a pre IH].
  - cbn [app]. destruct (p ++ post) eqn:E; cbn [Spec.ciIncludes];
      rewrite <- E, ciStartsWith_self; reflexivity.
  - cbn [app Spec.ciIncludes]. rewrite IH. apply orb_true_r.
Qed.

End FoldedMatch.

(** For the input lingayat in any letter case, with white space around it
    or not: the filter returns every record whose tradition field contains
    Lingayat, in any letter case of the field, and does not return a
    record whose tradition field is Vaishnava, nor one whose field is one
    of the two spellings with diacritics. *)
Lemma lingayat_filter_any_case (input stored pre post : jsstring) :
  Spec.letterCaseOf (trim input) (lit "lingayat") ->
  Spec.letterCaseOf stored (lit "lingayat") ->
  let f := buildFilter (onlyTradition input) in
  matches f (recordWithTradition (pre ++ stored ++ post)) = ret true
  /\ matches f (recordWithTradition (lit "Vaishnava")) = ret false
  /\ matches f (recordWithTradition virasaiva) = ret false
  /\ matches f (recordWithTradition lingayat_diacritic) = ret false.
Proof.
  intros Hin Hst f.
  assert (Hne : input <> []).
  { intros ->. inversion Hin. }
  destruct (spelling_lowered _ _ Hin eq_refl) as [Hlow Hfold].
  destruct (spelling_lowered _ _ Hst eq_refl) as [_ Hfold'].
  unfold f. repeat split; rewrite tradition_filter_meaning by exact Hne;
    rewrite (lingayat_variations _ Hlow); cbn [existsb].
  - rewrite (ciIncludes_folded caseFold (trim input) stored)
      by (now rewrite Hfold, Hfold').
    now rewrite ciIncludes_inside.
  - rewrite (ciIncludes_folded caseFold _ _ _ Hfold). reflexivity.
  - rewrite (ciIncludes_folded caseFold _ _ _ Hfold). reflexivity.
  - rewrite (ciIncludes_folded caseFold _ _ _ Hfold). reflexivity.
Qed.

(** The input LingaYat with spaces around it. *)
Lemma lingayat_filter_any_case_witness :
  let f := buildFilter (onlyTradition (lit " LingaYat ")) in
  matches f (recordWithTradition (lit "Vira-LINGAYAT sampradaya")) = ret true
  /\ matches f (recordWithTradition (lit "Vaishnava")) = ret false
  /\ matches f (recordWithTradition virasaiva) = ret false
  /\ matches f (recordWithTradition lingayat_diacritic) = ret false.
Proof.
  apply (lingayat_filter_any_case (lit " LingaYat ") (lit "LINGAYAT")
           (lit "Vira-") (lit " sampradaya")).
  - vm_compute.
    repeat (apply Forall2_cons;
            [first [left; reflexivity | right; split; reflexivity] |]).
    apply Forall2_nil.
  - vm_compute.
    repeat (apply Forall2_cons;
            [first [left; reflexivity | right; split; reflexivity] |]).
    apply Forall2_nil.
Defined.

(** * Further properties of the filter query builder *)

Import Reading.

(** The store's reading of a pattern built from variants, on any value of
    the field. *)
Lemma regexField_patternSource (v : jsstring) (vs : list jsstring)
    (field : value) :
  regexField (patternSource (v :: vs)) field
  = ret (containsAny (v :: vs) field).
Proof.
  unfold regexField. rewrite parseAlts_patternSource.
  destruct field; try reflexivity.
  - unfold patternTest, containsAny. now rewrite test_branches.
  - unfold containsAny. f_equal. apply existsb_same.
    intros x. destruct x; try reflexivity.
    unfold patternTest. now rewrite test_branches.
Qed.

Lemma tradition_filter_general (input : jsstring) (doc : value) :
  input <> [] ->
  matches (buildFilter (onlyTradition input)) doc
  = ret (containsAny (traditionVariations (trim input))
           (fieldOf doc (lit "tradition"))).
Proof.
  intros Hne. destruct input as [| c0 tl0]; [contradiction |].
  unfold matches, buildFilter, onlyTradition.
  cbn [tradition language traditionType gender startYearMin startYearMax
       given option_map f_tradition f_language f_traditionType f_gender
       f_and whenSet yearConditions app forEach].
  unfold traditionVariations at 1. cbn [app].
  rewrite regexField_patternSource. cbn [bind].
  now rewrite !andb_true_r.
Qed.





Lemma ciIncludes_empty (t : jsstring) :
  Spec.ciIncludes caseFold t [] = true.
Proof.
  destruct t; reflexivity.
Qed.

(** X3: a tradition input of white space only is not taken as unset: its
    pattern is empty and is found in every text, so the filter returns
    every record that has a tradition text and no record without the
    field. *)
Theorem X3_blank_tradition_input (input t : jsstring) (doc : value) :
  input <> [] ->
  trim input = [] ->
  (fieldOf doc (lit "tradition") = VString t ->
   matches (buildFilter (onlyTradition input)) doc = ret true)
  /\ (fieldOf doc (lit "tradition") = VUndefined ->
      matches (buildFilter (onlyTradition input)) doc = ret false).
Proof.
  intros Hne Hblank.
  split; intros Hf; rewrite tradition_filter_general by exact Hne;
    rewrite Hblank, Hf; [| reflexivity].
  change (traditionVariations []) with [@nil N].
  cbn [containsAny existsb]. now rewrite ciIncludes_empty.
Qed.

Lemma X3_blank_tradition_input_witness :
  matches (buildFilter (onlyTradition (lit "  ")))
    (recordWithTradition (lit "Varkari")) = ret true
  /\ matches (buildFilter (onlyTradition (lit "  ")))
       (VObject [(lit "saint", VString (lit "Basava"))]) = ret false.
Proof.
  split.
  - apply (proj1 (X3_blank_tradition_input (lit "  ") (lit "Varkari")
                    (recordWithTradition (lit "Varkari"))
                    ltac:(discriminate) eq_refl)).
    reflexivity.
  - apply (proj2 (X3_blank_tradition_input (lit "  ") []
                    (VObject [(lit "saint", VString (lit "Basava"))])
                    ltac:(discriminate) eq_refl)).
    reflexivity.
Defined.

(** ** The year range on records that have a start year *)

Lemma eval_startYear (doc v d : value) (y : Z) :
  fieldOf doc (lit "startYear") = v ->
  toInt v = ret (number y) ->
  eval doc (EToInt (EIfNull (EField (lit "startYear")) (ELit d)))
  = ret (number y).
Proof.
  intros Hf Hy. cbn [eval bind]. rewrite Hf.
  destruct v; try discriminate Hy; cbn [bind]; exact Hy.
Qed.

Lemma eval_startYear_fails (doc v d : value) (e : error) :
  fieldOf doc (lit "startYear") = v ->
  toInt v = Throw e ->
  eval doc (EToInt (EIfNull (EField (lit "startYear")) (ELit d)))
  = Throw e.
Proof.
  intros Hf Hy. cbn [eval bind]. rewrite Hf.
  destruct v; try discriminate Hy; cbn [bind]; exact Hy.
Qed.

Lemma gte_bound (doc : value) (e : expr) (y a : Z) :
  eval doc e = ret (number y) ->
  eval doc (EGte e (ELit (number a))) = ret (VBool (a <=? y)%Z).
Proof.
  intros H. rewrite eval_gte, H. cbn [bind eval].
  rewrite compare_numbers. cbn [bind]. unfold Z.leb.
  rewrite (Z.compare_antisym y a). now destruct (y ?= a)%Z.
Qed.

Lemma lte_bound (doc : value) (e : expr) (y b : Z) :
  eval doc e = ret (number y) ->
  eval doc (ELte e (ELit (number b))) = ret (VBool (y <=? b)%Z).
Proof.
  intros H. rewrite eval_lte, H. cbn [bind eval].
  rewrite compare_numbers. cbn [bind]. unfold Z.leb.
  now destruct (y ?= b)%Z.
Qed.

Lemma years_filter (lo hi : option jsstring) (doc : value) :
  matches (buildFilter (onlyYears lo hi)) doc
  = forEach (fun acc e => v <- eval doc e ;; ret (acc && truthy v))
      (yearConditions lo hi) true.
Proof.
  unfold matches, buildFilter, onlyYears.
  cbn [tradition language traditionType gender startYearMin startYearMax
       given option_map f_tradition f_language f_traditionType f_gender
       f_and whenSet bind].
  destruct (forEach _ _ _); reflexivity.
Qed.

(** X4: the year range is inclusive on both ends.  For a record whose
    start year converts to the integer y, a query with only year
    parameters returns it exactly when y is at least the lower bound and
    at most the upper bound, a parameter that is missing, empty or not a
    number setting no bound. *)
Theorem X4_year_range_inclusive
    (lo hi : option jsstring) (doc v : value) (y : Z) :
  fieldOf doc (lit "startYear") = v ->
  toInt v = ret (number y) ->
  matches (buildFilter (onlyYears lo hi)) doc
  = ret (withinBounds (boundOf lo) (boundOf hi) y).
Proof.
  intros Hf Hy. rewrite years_filter.
  unfold yearConditions, withinBounds, boundOf.
  destruct (given lo) as [slo |]; [destruct (parseInt slo) as [a |] |];
    (destruct (given hi) as [shi |]; [destruct (parseInt shi) as [b |] |]);
    cbn [app forEach bind];
    rewrite ?(gte_bound doc _ y _ (eval_startYear doc v _ y Hf Hy)),
            ?(lte_bound doc _ y _ (eval_startYear doc v _ y Hf Hy));
    cbn [bind truthy andb]; rewrite ?andb_true_r; reflexivity.
Qed.

(** A record of the year 1500 against the range 1400 to 1500 and against
    the range 1501 to 1600. *)
Lemma X4_year_range_inclusive_witness :
  matches (buildFilter (onlyYears (Some (lit "1400")) (Some (lit "1500"))))
    (VObject [(lit "startYear", VString (lit "1500"))]) = ret true
  /\ matches (buildFilter (onlyYears (Some (lit "1501")) (Some (lit "1600"))))
       (VObject [(lit "startYear", VString (lit "1500"))]) = ret false.
Proof.
  split.
  - exact (X4_year_range_inclusive (Some (lit "1400")) (Some (lit "1500"))
             (VObject [(lit "startYear", VString (lit "1500"))])
             (VString (lit "1500")) 1500 eq_refl eq_refl).
  - exact (X4_year_range_inclusive (Some (lit "1501")) (Some (lit "1600"))
             (VObject [(lit "startYear", VString (lit "1500"))])
             (VString (lit "1500")) 1500 eq_refl eq_refl).
Defined.

Lemma years_filter_fails
    (lo hi : option jsstring) (doc : value) (s : jsstring) :
  fieldOf doc (lit "startYear") = VString s ->
  wholeInt s = None ->
  matches (buildFilter (onlyYears lo hi)) doc
  = match boundOf lo, boundOf hi with
    | None, None => ret true
    | _, _ => Throw ConversionFailure
    end.
Proof.
  intros Hf Hs. rewrite years_filter.
  assert (Hy : toInt (VString s) = Throw ConversionFailure)
    by (cbn [toInt]; now rewrite Hs).
  unfold yearConditions, boundOf.
  destruct (given lo) as [slo |]; [destruct (parseInt slo) as [a |] |];
    (destruct (given hi) as [shi |]; [destruct (parseInt shi) as [b |] |]);
    cbn [app forEach bind]; try reflexivity;
    rewrite ?eval_gte, ?eval_lte;
    rewrite (eval_startYear_fails doc _ _ _ Hf Hy); reflexivity.
Qed.

(** X5: a record whose start year is a text that is not a whole integer
    makes the query fail with a conversion failure as soon as one year
    bound is set, and is returned when none is. *)
Theorem X5_year_text_not_integer
    (lo hi : option jsstring) (doc : value) (s : jsstring) :
  fieldOf doc (lit "startYear") = VString s ->
  wholeInt s = None ->
  matches (buildFilter (onlyYears lo hi)) doc
  = match boundOf lo, boundOf hi with
    | None, None => ret true
    | _, _ => Throw ConversionFailure
    end.
Proof.
  apply years_filter_fails.
Qed.

Lemma X5_year_text_not_integer_witness :
  matches (buildFilter (onlyYears None (Some (lit "1600"))))
    (VObject [(lit "startYear", VString (lit "c. 1500"))])
  = Throw ConversionFailure
  /\ matches (buildFilter (onlyYears (Some (lit "early")) None))
       (VObject [(lit "startYear", VString (lit "c. 1500"))]) = ret true.
Proof.
  split.
  - exact (X5_year_text_not_integer None (Some (lit "1600"))
             (VObject [(lit "startYear", VString (lit "c. 1500"))])
             (lit "c. 1500") eq_refl eq_refl).
  - exact (X5_year_text_not_integer (Some (lit "early")) None
             (VObject [(lit "startYear", VString (lit "c. 1500"))])
             (lit "c. 1500") eq_refl eq_refl).
Defined.

(** ** Letter case *)





(** * The tokens of the compound value parser *)

(** ** Lower-casing is idempotent *)

Lemma lowerCU_high (c : N) : (0x212B < c)%N -> lowerCU c = [c].
Proof.
  intros H. unfold lowerCU, between.
  repeat match goal with
         | |- context [N.leb c ?k] =>
             rewrite (proj2 (N.leb_gt c k)) by lia
         | |- context [N.eqb c ?k] =>
             rewrite (proj2 (N.eqb_neq c k)) by lia
         end.
  rewrite ?andb_false_r. reflexivity.
Qed.

Lemma eqb_eq (a b : jsstring) : JsString.eqb a b = true -> a = b.
Proof.
  revert b. induction a as [| x a IH]; intros [| y b] H;
    try discriminate H; [reflexivity |].
  cbn [JsString.eqb] in H. apply andb_true_iff in H. destruct H as [H1 H2].
  apply N.eqb_eq in H1. now rewrite H1, (IH b H2).
Qed.

Lemma eqb_refl (a : jsstring) : JsString.eqb a a = true.
Proof.
  induction a as [| x a IH]; [reflexivity |].
  cbn [JsString.eqb]. now rewrite N.eqb_refl, IH.
Qed.

Lemma lowerCU_low :
  forallb (fun n =>
             forallb (fun d => JsString.eqb (lowerCU d) [d])
               (lowerCU (N.of_nat n)))
    (seq 0 (N.to_nat 0x212C)) = true.
Proof.
  vm_compute. reflexivity.
Qed.

(** A code unit that lower-casing gives is left as it is by it. *)
Lemma lowerCU_fixed (c d : N) : In d (lowerCU c) -> lowerCU d = [d].
Proof.
  intros Hin. destruct (N.ltb_spec 0x212B c) as [Hhi | Hlo].
  - rewrite (lowerCU_high c Hhi) in Hin. destruct Hin as [<- | []].
    now apply lowerCU_high.
  - pose proof lowerCU_low as H. rewrite forallb_forall in H.
    specialize (H (N.to_nat c)). rewrite N2Nat.id in H.
    assert (Hc : In (N.to_nat c) (seq 0 (N.to_nat 0x212C)))
      by (apply in_seq; lia).
    specialize (H Hc). rewrite forallb_forall in H.
    apply eqb_eq. now apply H.
Qed.

Lemma toLowerCase_idempotent (s : jsstring) :
  toLowerCase (toLowerCase s) = toLowerCase s.
Proof.
  unfold toLowerCase.
  assert (H : forall l : jsstring,
             (forall d, In d l -> lowerCU d = [d]) -> flat_map lowerCU l = l).
  { induction l as [| d l IH]; intros Hl; [reflexivity |].
    cbn [flat_map]. rewrite (Hl d (or_introl eq_refl)).
    cbn [app]. f_equal. apply IH. intros d' Hd'. apply Hl. now right. }
  apply H. intros d Hd. apply in_flat_map in Hd.
  destruct Hd as [c [_ Hc]]. exact (lowerCU_fixed c d Hc).
Qed.

(** ** What a table lookup under a lower-cased key can give *)

Lemma assoc_in {A : Type} (k : jsstring) (l : list (jsstring * A)) (v : A) :
  assoc k l = Some v -> In (k, v) l.
Proof.
  induction l as [| [k' v'] tl IH]; intros H; [discriminate H |].
  cbn [assoc] in H. destruct (JsString.eqb k' k) eqn:E.
  - injection H as <-. apply eqb_eq in E. subst k'. now left.
  - right. now apply IH.
Qed.

(** No method of [Object.prototype] has a name that lower-casing leaves
    as it is, so only its two other members answer a lower-cased key. *)
Lemma inherited_lowered (s : jsstring) (v : value) :
  assoc (toLowerCase s) objectPrototype = Some v ->
  isInherited v = true.
Proof.
  intros H. apply assoc_in in H.
  pose proof (toLowerCase_idempotent s) as Hi.
  remember (toLowerCase s) as k eqn:Hk. clear Hk s.
  unfold objectPrototype in H. cbn [In] in H.
  repeat (destruct H as [H | H];
          [injection H as Hk Hv; subst v;
           first [reflexivity
                 | rewrite <- Hk in Hi; vm_compute in Hi; discriminate Hi] |]).
  destruct H.
Qed.

Lemma lookup_lowered (table : list (jsstring * value)) (s : jsstring) :
  Forall (fun p => isToken (snd p) = true) table ->
  isToken (lookup table (toLowerCase s)) = true
  \/ isInherited (lookup table (toLowerCase s)) = true
  \/ lookup table (toLowerCase s) = VUndefined.
Proof.
  intros Ht. unfold lookup.
  destruct (assoc (toLowerCase s) table) as [v |] eqn:E.
  - left. apply assoc_in in E. rewrite Forall_forall in Ht.
    exact (Ht _ E).
  - destruct (assoc (toLowerCase s) objectPrototype) as [v |] eqn:E'.
    + right; left. exact (inherited_lowered s v E').
    + right; right. reflexivity.
Qed.

Lemma languageNormalizations_tokens :
  Forall (fun p => isToken (snd p) = true) languageNormalizations.
Proof.
  unfold languageNormalizations. cbn [map].
  repeat (apply Forall_cons; [vm_compute; reflexivity |]). apply Forall_nil.
Qed.

Lemma traditionNormalizations_tokens :
  Forall (fun p => isToken (snd p) = true) traditionNormalizations.
Proof.
  unfold traditionNormalizations.
  repeat (apply Forall_cons; [vm_compute; reflexivity |]). apply Forall_nil.
Qed.

(** ** The set of results *)

Lemma sameValueZero_refl (v : value) :
  isToken v = true \/ isInherited v = true \/ v = VNull ->
  sameValueZero v v = true.
Proof.
  intros [H | [H | ->]]; [| | reflexivity].
  - destruct v; try discriminate H. cbn [sameValueZero]. apply eqb_refl.
  - destruct v as [| | | | | | | b]; try discriminate H.
    destruct b; try discriminate H; reflexivity.
Qed.

Lemma setAdd_In (set : list value) (v x : value) :
  In x (setAdd set v) -> In x set \/ x = v.
Proof.
  unfold setAdd. destruct (existsb _ set); [now left |].
  intros H. apply in_app_or in H. destruct H as [H | [<- | []]]; auto.
Qed.

Lemma setAdd_keeps (set : list value) (v x : value) :
  In x set -> In x (setAdd set v).
Proof.
  unfold setAdd. destruct (existsb _ set); [easy |].
  intros H. apply in_or_app. now left.
Qed.

Lemma setAdd_NoDup (set : list value) (v : value) :
  sameValueZero v v = true ->
  NoDup set -> NoDup (setAdd set v).
Proof.
  intros Hv Hs. unfold setAdd.
  destruct (existsb (sameValueZero v) set) eqn:E; [exact Hs |].
  assert (Hn : ~ In v set).
  { intros Hin. assert (existsb (sameValueZero v) set = true)
      by (apply existsb_exists; exists v; auto).
    congruence. }
  clear E. induction Hs as [| y l Hy Hl IH]; cbn [app].
  - constructor; [intros [] | constructor].
  - constructor.
    + intros Hin. apply in_app_or in Hin.
      destruct Hin as [Hin | [<- | []]]; [now apply Hy |].
      apply Hn. now left.
    + apply IH. intros Hin. apply Hn. now right.
Qed.

Lemma setAdd_has (set : list value) (v : value) :
  sameValueZero v v = true -> In v (setAdd set v) \/
    exists w, In w set /\ sameValueZero v w = true.
Proof.
  intros _. unfold setAdd.
  destruct (existsb (sameValueZero v) set) eqn:E.
  - right. apply existsb_exists in E. exact E.
  - left. apply in_or_app. right. now left.
Qed.

(** A loop that keeps a property of its state. *)
Lemma forEach_keeps {A S : Type} (f : S -> A -> result S) (P : S -> Prop) :
  (forall acc x, P acc -> exists acc', f acc x = ret acc' /\ P acc') ->
  forall xs acc, P acc -> exists acc', forEach f xs acc = ret acc' /\ P acc'.
Proof.
  intros Hf. induction xs as [| x tl IH]; intros acc Hacc; cbn [forEach].
  - now exists acc.
  - destruct (Hf acc x Hacc) as [acc' [-> Hacc']]. cbn [bind].
    now apply IH.
Qed.

(** ** Language tokens *)

Lemma setOf_add (ok : value -> bool) (results : list value) (v : value) :
  (forall x, ok x = true -> sameValueZero x x = true) ->
  setOf ok results -> ok v = true -> setOf ok (setAdd results v).
Proof.
  intros Hok [Hall Hnd] Hv. split.
  - apply Forall_forall. intros x Hx. apply setAdd_In in Hx.
    destruct Hx as [Hx | ->]; [| exact Hv].
    rewrite Forall_forall in Hall. now apply Hall.
  - apply setAdd_NoDup; [now apply Hok | exact Hnd].
Qed.

Lemma isToken_same (x : value) : isToken x = true -> sameValueZero x x = true.
Proof.
  intros H. apply sameValueZero_refl. now left.
Qed.

Lemma isTraditionItem_same (x : value) :
  isTraditionItem x = true -> sameValueZero x x = true.
Proof.
  unfold isTraditionItem. intros H. apply sameValueZero_refl.
  apply orb_true_iff in H. destruct H as [H | H]; auto.
Qed.

(** What the language normaliser returns for a text. *)
Lemma normalizeLanguageName_kind (s : jsstring) :
  exists v, normalizeLanguageName (VString s) = ret v
            /\ (isString v = true \/ isInherited v = true \/ v = VNull).
Proof.
  unfold normalizeLanguageName.
  destruct (negb (truthy (VString s)));
    [eexists; split; [reflexivity | now left] |].
  cbn [callTrim bind].
  destruct (Nat.ltb _ 2); [eexists; split; [reflexivity | now right; right] |].
  match goal with
  | |- context [lookup languageNormalizations (toLowerCase ?c)] =>
      pose proof (lookup_lowered languageNormalizations c
                    languageNormalizations_tokens) as H;
      remember (lookup languageNormalizations (toLowerCase c)) as hit eqn:Eh;
      clear Eh
  end.
  destruct (truthy hit) eqn:Ht.
  - exists hit. split; [reflexivity |].
    destruct H as [H | [H | H]].
    + left. destruct hit; try discriminate H; reflexivity.
    + right; left. exact H.
    + subst hit. discriminate Ht.
  - eexists. split; [reflexivity | left; reflexivity].
Qed.

Lemma languagePart_keeps (results : list value) (part : jsstring) :
  setOf isToken results ->
  exists results', languagePart results part = ret results'
                   /\ setOf isToken results'.
Proof.
  intros Hset. unfold languagePart.
  destruct (_ || _); [eauto |].
  destruct (existsb _ skipPhrases); [eauto |].
  destruct (existsb _ qualifiers); [eauto |].
  destruct (normalizeLanguageName_kind (trim part)) as [v [-> Hv]].
  cbn [bind].
  destruct (truthy v) eqn:Ht; [| eauto].
  destruct Hv as [Hv | [Hv | ->]]; [| | discriminate Ht].
  - destruct v as [| | | | t | | |]; try discriminate Hv.
    unfold lengthOf. cbn [getProp].
    change (JsString.eqb (lit "length") (lit "length")) with true.
    cbn [bind].
    destruct (gtNat (fromNat (List.length t)) 1) eqn:Hg; [| eauto].
    eexists; split; [reflexivity |].
    apply setOf_add; [exact isToken_same | exact Hset |].
    cbn [isToken]. apply Nat.leb_le.
    unfold gtNat, fromNat in Hg. apply negb_true_iff in Hg.
    destruct (Nat.le_gt_cases 2 (List.length t)) as [Hl | Hl]; [exact Hl |].
    assert (Hq : Qle_bool (inject_Z (Z.of_nat (List.length t)))
                   (inject_Z (Z.of_nat 1)) = true).
    { apply Qle_bool_iff. rewrite <- Zle_Qle. lia. }
    congruence.
  - destruct v as [| | | | | | | b]; try discriminate Hv.
    destruct b; try discriminate Hv; unfold lengthOf; vm_compute; eauto.
Qed.

(** ** Trimmed texts *)

Lemma dropWhile_twice (p : N -> bool) (s : jsstring) :
  dropWhile p (dropWhile p s) = dropWhile p s.
Proof.
  induction s as [| c tl IH]; [reflexivity |].
  cbn [dropWhile]. destruct (p c) eqn:E; [exact IH |].
  cbn [dropWhile]. now rewrite E.
Qed.

Lemma dropWhile_head (p : N -> bool) (s : jsstring) (c : N) (tl : jsstring) :
  dropWhile p s = c :: tl -> p c = false.
Proof.
  induction s as [| d s IH]; [discriminate |].
  cbn [dropWhile]. destruct (p d) eqn:E; [exact IH |].
  intros H. injection H as <- _. exact E.
Qed.

Lemma last_hd_rev (s : jsstring) : last s 0%N = hd 0%N (rev s).
Proof.
  induction s as [| x l _] using rev_ind; [reflexivity |].
  now rewrite last_last, rev_app_distr.
Qed.

Lemma trimEnd_fixed (s : jsstring) :
  isWhiteSpace (last s 0%N) = false -> trimEnd s = s.
Proof.
  rewrite last_hd_rev. unfold trimEnd. intros H.
  destruct (rev s) as [| c l] eqn:E.
  - rewrite <- (rev_involutive s), E. reflexivity.
  - cbn [hd] in H. cbn [dropWhile]. rewrite H, <- E.
    apply rev_involutive.
Qed.

Lemma trimEnd_last (s : jsstring) :
  isWhiteSpace (last (trimEnd s) 0%N) = false.
Proof.
  rewrite last_hd_rev. unfold trimEnd. rewrite rev_involutive.
  destruct (dropWhile isWhiteSpace (rev s)) as [| c l] eqn:E;
    [reflexivity |].
  exact (dropWhile_head _ _ _ _ E).
Qed.

(** The text [trimEnd] gives is the start of its argument. *)
Lemma trimEnd_prefix (s : jsstring) : exists w, s = trimEnd s ++ w.
Proof.
  unfold trimEnd.
  assert (H : forall l : jsstring,
             exists w, l = rev w ++ dropWhile isWhiteSpace l).
  { induction l as [| c l [w IH]]; [now exists [] |].
    cbn [dropWhile]. destruct (isWhiteSpace c).
    - exists (w ++ [c]). rewrite rev_app_distr. cbn [rev app].
      now rewrite <- IH.
    - now exists []. }
  destruct (H (rev s)) as [w Hw]. exists w.
  rewrite <- (rev_involutive s) at 1. rewrite Hw at 1.
  now rewrite rev_app_distr, rev_involutive.
Qed.

Lemma trim_head (s : jsstring) (c : N) (tl : jsstring) :
  trim s = c :: tl -> isWhiteSpace c = false.
Proof.
  unfold trim. intros H.
  destruct (trimEnd_prefix (trimStart s)) as [w Hw].
  rewrite H in Hw. cbn [app] in Hw.
  exact (dropWhile_head _ _ _ _ Hw).
Qed.

Lemma trimStart_fixed (s : jsstring) :
  isWhiteSpace (hd 0%N s) = false -> trimStart s = s.
Proof.
  destruct s as [| c tl]; [reflexivity |].
  cbn [hd]. unfold trimStart. cbn [dropWhile]. now intros ->.
Qed.

(** A text with no white space at either end is left as it is. *)
Lemma trim_fixed (s : jsstring) :
  isWhiteSpace (hd 0%N s) = false ->
  isWhiteSpace (last s 0%N) = false ->
  trim s = s.
Proof.
  intros H1 H2. unfold trim. rewrite (trimStart_fixed s H1).
  now apply trimEnd_fixed.
Qed.

Lemma trim_ends (s : jsstring) :
  isWhiteSpace (hd 0%N (trim s)) = false
  /\ isWhiteSpace (last (trim s) 0%N) = false.
Proof.
  split; [| apply trimEnd_last].
  destruct (trim s) as [| c tl] eqn:E; [reflexivity |].
  exact (trim_head s c tl E).
Qed.

Lemma trim_idempotent (s : jsstring) : trim (trim s) = trim s.
Proof.
  destruct (trim_ends s) as [H1 H2]. now apply trim_fixed.
Qed.

(** The tradition normaliser on a text of two code units or more that
    has no white space at either end. *)
Lemma normalizeTraditionName_kind (x : jsstring) :
  isWhiteSpace (hd 0%N x) = false ->
  isWhiteSpace (last x 0%N) = false ->
  (2 <= List.length x)%nat ->
  exists v, normalizeTraditionName (VString x) = ret v
            /\ isTraditionItem v = true.
Proof.
  intros H1 H2 Hlen. unfold normalizeTraditionName.
  destruct x as [| c [| d tl]]; try (cbn [List.length] in Hlen; lia).
  cbn [truthy negb callTrim bind].
  rewrite (trim_fixed (c :: d :: tl) H1 H2), collapse_spaces.
  cbn [hd] in H1.
  assert (Hl : Nat.ltb (List.length (collapseFrom false (c :: d :: tl))) 2
               = false).
  { apply Nat.ltb_ge. cbn [collapseFrom]. rewrite H1.
    destruct (isWhiteSpace d); cbn [List.length]; lia. }
  rewrite Hl.
  match goal with
  | |- context [lookup traditionNormalizations (toLowerCase ?k)] =>
      pose proof (lookup_lowered traditionNormalizations k
                    traditionNormalizations_tokens) as H;
      remember (lookup traditionNormalizations (toLowerCase k)) as hit eqn:Eh;
      clear Eh
  end.
  unfold isTraditionItem.
  destruct (truthy hit) eqn:Ht.
  - exists hit. split; [reflexivity |].
    destruct H as [H | [H | H]].
    + now rewrite H.
    + rewrite H. apply orb_true_r.
    + subst hit. discriminate Ht.
  - eexists. split; [reflexivity |].
    cbn [isToken]. apply Nat.ltb_ge in Hl.
    apply orb_true_iff. left. now apply Nat.leb_le.
Qed.

(** ** The suffix pattern of the tradition parser *)

Lemma upperCU_high (c : N) : (0x1EFF < c)%N -> upperCU c = [c].
Proof.
  intros H. unfold upperCU, between.
  repeat match goal with
         | |- context [N.leb c ?k] =>
             rewrite (proj2 (N.leb_gt c k)) by lia
         | |- context [N.eqb c ?k] =>
             rewrite (proj2 (N.eqb_neq c k)) by lia
         end.
  rewrite ?andb_false_r. reflexivity.
Qed.

Lemma canonicalize_ws_low :
  forallb (fun n => Bool.eqb (isWhiteSpace (canonicalize (N.of_nat n)))
                      (isWhiteSpace (N.of_nat n)))
    (seq 0 (N.to_nat 0x1F00)) = true.
Proof.
  vm_compute. reflexivity.
Qed.

(** Under the [i] flag the class of white space holds the same code
    units as without it. *)
Lemma canonicalize_ws (c : N) :
  isWhiteSpace (canonicalize c) = isWhiteSpace c.
Proof.
  destruct (N.ltb_spec 0x1EFF c) as [Hhi | Hlo].
  - unfold canonicalize. rewrite (upperCU_high c Hhi).
    now destruct ((128 <=? c)%N && (c <? 128)%N).
  - pose proof canonicalize_ws_low as H. rewrite forallb_forall in H.
    specialize (H (N.to_nat c)). rewrite N2Nat.id in H.
    apply Bool.eqb_prop. apply H. apply in_seq. lia.
Qed.

Lemma m_ws (st : mstate) :
  m canonicalize ws st
  = match rest st with
    | c :: tl => if isWhiteSpace c then [step st tl] else []
    | [] => []
    end.
Proof.
  unfold ws. cbn [m]. destruct (rest st) as [| c tl]; [reflexivity |].
  unfold cls_match. cbn [existsb item_match xorb].
  now rewrite orb_false_r, canonicalize_ws.
Qed.

Lemma m_star_ws (st : mstate) :
  m canonicalize (Star ws) st
  = starLoop (m canonicalize ws) (S (List.length (rest st))) st.
Proof. reflexivity. Qed.

Lemma m_plus_ws (st : mstate) :
  m canonicalize (plus ws) st
  = flat_map (m canonicalize (Star ws)) (m canonicalize ws st).
Proof. reflexivity. Qed.

(** One more code unit of white space in front adds one way, tried last,
    for a run of white space to match. *)
Lemma plus_ws_earlier (p : nat) (c : N) (s : jsstring) :
  isWhiteSpace c = true ->
  m canonicalize (plus ws) (MState p (c :: s) [])
  = m canonicalize (plus ws) (MState (S p) s []) ++ [MState (S p) s []].
Proof.
  intros Hc. rewrite !m_plus_ws, !m_ws. cbn [rest]. rewrite Hc.
  unfold step. cbn [flat_map pos caps]. rewrite app_nil_r, m_star_ws.
  cbn [rest]. destruct s as [| d s'].
  - cbn [List.length starLoop]. rewrite m_ws. reflexivity.
  - cbn [List.length].
    change (starLoop (m canonicalize ws) (S (S (List.length s')))
              (MState (S p) (d :: s') []))
      with (flat_map
              (fun st1 =>
                 if Nat.ltb (pos (MState (S p) (d :: s') [])) (pos st1)
                 then starLoop (m canonicalize ws) (S (List.length s')) st1
                 else [])
              (m canonicalize ws (MState (S p) (d :: s') []))
            ++ [MState (S p) (d :: s') []]).
    rewrite m_ws. cbn [rest]. destruct (isWhiteSpace d); [| reflexivity].
    unfold step. cbn [flat_map pos caps]. rewrite m_star_ws. cbn [rest].
    replace (Nat.ltb (S p) (S (S p))) with true
      by (symmetry; apply Nat.ltb_lt; lia).
    reflexivity.
Qed.

Lemma flat_map_nil_app {A B : Type} (f : A -> list B) (l l' : list A) :
  hd_error (flat_map f (l ++ l')) = None -> hd_error (flat_map f l) = None.
Proof.
  rewrite flat_map_app. destruct (flat_map f l); [reflexivity | discriminate].
Qed.

(** Where white space is followed by a match of the suffix pattern, the
    pattern matches from that white space on as well. *)
Lemma suffix_earlier (p : nat) (c : N) (s : jsstring) :
  isWhiteSpace c = true ->
  matchAt canonicalize reSuffix p (c :: s) = None ->
  matchAt canonicalize reSuffix (S p) s = None.
Proof.
  intros Hc. unfold matchAt, reSuffix.
  match goal with
  | |- context [Seq (plus ws) ?R] => generalize R
  end.
  intros R.
  change (m canonicalize (Seq (plus ws) R) (MState p (c :: s) []))
    with (flat_map (m canonicalize R)
            (m canonicalize (plus ws) (MState p (c :: s) []))).
  change (m canonicalize (Seq (plus ws) R) (MState (S p) s []))
    with (flat_map (m canonicalize R)
            (m canonicalize (plus ws) (MState (S p) s []))).
  rewrite (plus_ws_earlier p c s Hc). apply flat_map_nil_app.
Qed.

Lemma last_append {A : Type} (l l' : list A) (d : A) :
  l' <> [] -> last (l ++ l') d = last l' d.
Proof.
  intros H. induction l as [| a l IH]; [reflexivity |].
  cbn [app last]. destruct (l ++ l') as [| b t] eqn:E; [| exact IH].
  apply app_eq_nil in E. destruct E as [_ E]. contradiction.
Qed.

Lemma last_cons_skipn (c : N) (s : jsstring) (n : nat) :
  isWhiteSpace c = false ->
  isWhiteSpace (last (c :: s) 0%N) = false ->
  isWhiteSpace (last (c :: skipn n s) 0%N) = false.
Proof.
  intros Hc Hs. destruct (skipn n s) as [| d tl] eqn:E; [exact Hc |].
  assert (Hs' : s = firstn n s ++ d :: tl)
    by (rewrite <- E; symmetry; apply firstn_skipn).
  rewrite Hs' in Hs.
  change (c :: firstn n s ++ d :: tl) with ((c :: firstn n s) ++ d :: tl)
    in Hs.
  rewrite last_append in Hs by discriminate.
  exact Hs.
Qed.

(** Removing the suffix leaves no white space at the end. *)
Lemma suffix_removed_last (s : jsstring) :
  forall (p : nat) (c : N),
    isWhiteSpace (last (c :: s) 0%N) = false ->
    (isWhiteSpace c = true ->
     matchAt canonicalize reSuffix p s = None) ->
    isWhiteSpace
      (last (c :: replaceFirstGo canonicalize reSuffix (fun _ => []) p s)
         0%N) = false.
Proof.
  induction s as [| d tl IH]; intros p c Hlast Hc.
  - cbn [replaceFirstGo]. unfold matchLen.
    destruct (matchAt canonicalize reSuffix p []) as [st |];
      cbn [option_map app skipn firstn]; [| exact Hlast].
    destruct (pos st - p)%nat; exact Hlast.
  - cbn [replaceFirstGo]. unfold matchLen.
    destruct (matchAt canonicalize reSuffix p (d :: tl)) as [st |] eqn:E;
      cbn [option_map app].
    + destruct (isWhiteSpace c) eqn:Ec;
        [discriminate (Hc eq_refl) |].
      now apply last_cons_skipn.
    + change (last (c :: d :: replaceFirstGo canonicalize reSuffix
                               (fun _ => []) (S p) tl) 0%N)
        with (last (d :: replaceFirstGo canonicalize reSuffix
                          (fun _ => []) (S p) tl) 0%N).
      apply IH; [exact Hlast |].
      intros Hd. exact (suffix_earlier p d tl Hd E).
Qed.

Lemma suffix_needs_ws (p : nat) (c : N) (s : jsstring) :
  isWhiteSpace c = false ->
  matchAt canonicalize reSuffix p (c :: s) = None.
Proof.
  intros Hc. unfold matchAt, reSuffix.
  match goal with
  | |- context [Seq (plus ws) ?R] => generalize R
  end.
  intros R.
  change (m canonicalize (Seq (plus ws) R) (MState p (c :: s) []))
    with (flat_map (m canonicalize R)
            (m canonicalize (plus ws) (MState p (c :: s) []))).
  rewrite m_plus_ws, m_ws. cbn [rest]. rewrite Hc. reflexivity.
Qed.

(** A text with no white space at either end has none either once the
    suffix is removed. *)
Lemma suffix_removed_trimmed (s : jsstring) :
  isWhiteSpace (hd 0%N s) = false ->
  isWhiteSpace (last s 0%N) = false ->
  isWhiteSpace
    (hd 0%N (replaceFirst canonicalize reSuffix (fun _ => []) s)) = false
  /\ isWhiteSpace
       (last (replaceFirst canonicalize reSuffix (fun _ => []) s) 0%N)
     = false.
Proof.
  intros Hh Hl. unfold replaceFirst. destruct s as [| c tl].
  - cbn [replaceFirstGo]. unfold matchLen.
    destruct (matchAt canonicalize reSuffix 0 []) as [st |];
      cbn [option_map app]; [| split; reflexivity].
    destruct (pos st - 0)%nat; split; reflexivity.
  - cbn [hd] in Hh. cbn [replaceFirstGo]. unfold matchLen.
    rewrite (suffix_needs_ws 0 c tl Hh). cbn [option_map hd].
    split; [exact Hh |].
    apply suffix_removed_last; [exact Hl |].
    intros Hc. congruence.
Qed.

(** ** Tradition tokens *)

Lemma addTradition_keeps (results : list value) (x : jsstring) :
  isWhiteSpace (hd 0%N x) = false ->
  isWhiteSpace (last x 0%N) = false ->
  (2 <= List.length x)%nat ->
  setOf isTraditionItem results ->
  exists results', addTradition results x = ret results'
                   /\ setOf isTraditionItem results'.
Proof.
  intros H1 H2 H3 Hset. unfold addTradition.
  destruct (normalizeTraditionName_kind x H1 H2 H3) as [v [-> Hv]].
  cbn [bind]. eexists. split; [reflexivity |].
  apply setOf_add; [exact isTraditionItem_same | exact Hset | exact Hv].
Qed.

Lemma traditionAlt_keeps (results : list value) (alt : jsstring) :
  setOf isTraditionItem results ->
  exists results', traditionAlt results alt = ret results'
                   /\ setOf isTraditionItem results'.
Proof.
  intros Hset. unfold traditionAlt.
  destruct (nonEmpty (trim alt) && Nat.ltb 3 (List.length (trim alt))
            && negb (test canonicalize reCanon (trim alt))) eqn:E;
    [| eauto].
  apply andb_true_iff in E. destruct E as [E _].
  apply andb_true_iff in E. destruct E as [_ E]. apply Nat.ltb_lt in E.
  destruct (trim_ends alt) as [H1 H2].
  apply addTradition_keeps; auto. lia.
Qed.

Lemma traditionSubPart_keeps (results : list value) (subPart : jsstring) :
  setOf isTraditionItem results ->
  exists results', traditionSubPart results subPart = ret results'
                   /\ setOf isTraditionItem results'.
Proof.
  intros Hset. unfold traditionSubPart.
  destruct (search exact reMainParen 0 subPart) as [[q st] |] eqn:E.
  - destruct (reMainParen_groups _ _ _ E) as [g1 [g2 [-> ->]]].
    cbn [callTrim bind].
    assert (H1 : exists results1,
               (if nonEmpty (trim g1) && Nat.ltb 2 (List.length (trim g1))
                then addTradition results (trim g1)
                else ret results) = ret results1
               /\ setOf isTraditionItem results1).
    { destruct (nonEmpty (trim g1) && Nat.ltb 2 (List.length (trim g1)))
        eqn:E1; [| eauto].
      apply andb_true_iff in E1. destruct E1 as [_ E1].
      apply Nat.ltb_lt in E1. destruct (trim_ends g1) as [Ha Hb].
      apply addTradition_keeps; auto. lia. }
    destruct H1 as [results1 [-> Hset1]]. cbn [bind].
    destruct (_ && _); [| eauto].
    apply forEach_keeps; [| exact Hset1].
    intros acc x. apply traditionAlt_keeps.
  - match goal with
    | |- context [replaceFirst canonicalize reSuffix ?f (trim ?y)] =>
        destruct (trim_ends y) as [Ha Hb];
        destruct (suffix_removed_trimmed (trim y) Ha Hb) as [Hc Hd];
        remember (replaceFirst canonicalize reSuffix f (trim y)) as cleaned
          eqn:Ecl; clear Ecl
    end.
    destruct (nonEmpty cleaned && Nat.ltb 2 (List.length cleaned)) eqn:E1;
      [| eauto].
    apply andb_true_iff in E1. destruct E1 as [_ E1].
    apply Nat.ltb_lt in E1.
    apply addTradition_keeps; auto. lia.
Qed.

Lemma traditionPart_keeps (results : list value) (part : jsstring) :
  setOf isTraditionItem results ->
  exists results', traditionPart results part = ret results'
                   /\ setOf isTraditionItem results'.
Proof.
  intros Hset. unfold traditionPart.
  apply forEach_keeps; [| exact Hset].
  intros acc x. apply traditionSubPart_keeps.
Qed.

Lemma parseLanguageValue_tokens (v : value) :
  exists tokens,
    parseLanguageValue v = ret tokens /\ setOf isToken tokens.
Proof.
  destruct v as [| | b | q | s | xs | props | b];
    try (exists []; split;
         [unfold parseLanguageValue; cbn [truthy isString negb orb];
          rewrite ?orb_true_r; reflexivity
         | split; constructor]).
  destruct s as [| c s]; [exists []; repeat split; constructor |].
  unfold parseLanguageValue. cbn [truthy isString negb orb].
  destruct (matchAll canonicalize reDialects _) as [ms |];
    apply forEach_keeps;
    try (intros acc x; apply languagePart_keeps);
    split; constructor.
Qed.

Lemma parseTraditionValue_tokens (v : value) :
  exists tokens,
    parseTraditionValue v = ret tokens /\ setOf isTraditionItem tokens.
Proof.
  destruct v as [| | b | q | s | xs | props | b];
    try (exists []; split;
         [unfold parseTraditionValue; cbn [truthy isString negb orb];
          rewrite ?orb_true_r; reflexivity
         | split; constructor]).
  destruct s as [| c s]; [exists []; repeat split; constructor |].
  unfold parseTraditionValue. cbn [truthy isString negb orb].
  apply forEach_keeps; [| split; constructor].
  intros acc x. apply traditionPart_keeps.
Qed.

(** X7: the language parser returns, for every value, a list of texts of
    at least two code units each, no text twice; it never returns null,
    an empty text or a member inherited from [Object.prototype]. *)
Theorem X7_language_tokens (v : value) :
  exists tokens,
    parseLanguageValue v = ret tokens
    /\ Forall (fun t => isToken t = true) tokens
    /\ NoDup tokens.
Proof.
  destruct (parseLanguageValue_tokens v) as [tokens [E [Hall Hnd]]].
  exists tokens. repeat split; assumption.
Qed.

(** X8: the tradition parser returns, for every value, a list without
    repetition whose members are texts of at least two code units or,
    for a part that reads constructor or __proto__, the member that every
    object inherits under that name; it never returns null, an empty
    text or a method. *)
Theorem X8_tradition_tokens (v : value) :
  exists tokens,
    parseTraditionValue v = ret tokens
    /\ Forall (fun t => isToken t = true \/ isInherited t = true) tokens
    /\ NoDup tokens.
Proof.
  destruct (parseTraditionValue_tokens v) as [tokens [E [Hall Hnd]]].
  exists tokens. repeat split; [exact E | | exact Hnd].
  apply Forall_forall. intros t Ht. rewrite Forall_forall in Hall.
  specialize (Hall t Ht). unfold isTraditionItem in Hall.
  now apply orb_true_iff in Hall.
Qed.

(** ** Keys of the tradition table that no name reaches *)

Lemma assoc_reachable {A : Type} (table : list (jsstring * A))
    (k : jsstring) :
  isLowerCased k = true ->
  assoc k (List.filter (fun p => isLowerCased (fst p)) table)
  = assoc k table.
Proof.
  intros Hk. induction table as [| [k' v] table IH]; [reflexivity |].
  cbn [List.filter fst assoc].
  destruct (JsString.eqb k' k) eqn:E.
  - apply eqb_eq in E. subst k'. rewrite Hk. cbn [assoc].
    now rewrite eqb_refl.
  - destruct (isLowerCased k'); [cbn [assoc]; rewrite E |]; exact IH.
Qed.

(** X9: six of the eighteen keys of the tradition table hold a code
    unit that lower-casing changes, so the lower-cased name that the
    normaliser looks up is never one of them: for every name the table
    answers as the table without these six entries does. *)
Theorem X9_unreachable_tradition_keys (name : jsstring) :
  List.length unreachableKeys = 6%nat
  /\ (forall k, In k unreachableKeys -> toLowerCase name <> k)
  /\ lookup traditionNormalizations (toLowerCase name)
     = lookup reachableEntries (toLowerCase name).
Proof.
  assert (Hl : isLowerCased (toLowerCase name) = true).
  { unfold isLowerCased. rewrite toLowerCase_idempotent. apply eqb_refl. }
  split; [vm_compute; reflexivity |]. split.
  - intros k Hk E. unfold unreachableKeys in Hk.
    apply filter_In in Hk. destruct Hk as [_ Hk].
    rewrite <- E, Hl in Hk. discriminate Hk.
  - unfold lookup, reachableEntries. now rewrite assoc_reachable.
Qed.

(** * The unique value extractor *)

Import Options.

Section Extractor.

Variable numberToString : Q -> jsstring.
Variable localeCompare : jsstring -> jsstring -> Z.

(** An item is kept exactly when it is a token. *)
Lemma keepItem_token (uniqueSet : list value) (item : value) :
  isToken item = true \/ isInherited item = true ->
  keepItem uniqueSet item
  = ret (if isToken item then setAdd uniqueSet item else uniqueSet).
Proof.
  intros [H | H].
  - destruct item as [| | | | s | | |]; try discriminate H.
    cbn [isToken] in *. apply Nat.leb_le in H.
    destruct s as [| c [| d tl]]; try (cbn [List.length] in H; lia).
    unfold keepItem, lengthOf. cbn [truthy getProp].
    change (JsString.eqb (lit "length") (lit "length")) with true.
    cbn [bind].
    assert (Hg : gtNat (fromNat (List.length (c :: d :: tl))) 1 = true).
    { unfold gtNat, fromNat. apply negb_true_iff.
      destruct (Qle_bool _ _) eqn:E; [| reflexivity].
      apply Qle_bool_iff in E. rewrite <- Zle_Qle in E.
      cbn [List.length] in E. lia. }
    rewrite Hg. reflexivity.
  - destruct item as [| | | | | | | b]; try discriminate H.
    destruct b; try discriminate H; reflexivity.
Qed.

Lemma isToken_text (x : value) :
  isToken x = true -> exists s, x = VString s.
Proof.
  destruct x; try discriminate. eauto.
Qed.

Lemma same_token (x w : value) :
  isToken x = true -> sameValueZero x w = true -> w = x.
Proof.
  intros Hx H. destruct x as [| | | | s | | |]; try discriminate Hx.
  destruct w; try discriminate H. cbn [sameValueZero] in H.
  apply eqb_eq in H. now subst.
Qed.

(** The inner loop: the tokens among the parsed items join the set. *)
Lemma keepItems (parsed : list value) :
  Forall (fun t => isToken t = true \/ isInherited t = true) parsed ->
  forall uniqueSet,
    setOf isToken uniqueSet ->
    exists out,
      forEach keepItem parsed uniqueSet = ret out
      /\ setOf isToken out
      /\ (forall x, In x out <->
                    In x uniqueSet \/ (isToken x = true /\ In x parsed)).
Proof.
  induction 1 as [| t parsed Ht _ IH]; intros uniqueSet Hset.
  - exists uniqueSet. split; [reflexivity |]. split; [exact Hset |].
    intros x. split; [intros H; now left | intros [H | [_ []]]; exact H].
  - cbn [forEach]. rewrite (keepItem_token uniqueSet t Ht). cbn [bind].
    destruct (isToken t) eqn:Et.
    + destruct (IH (setAdd uniqueSet t)) as [out [E [Hout Hin]]].
      { apply setOf_add; [exact isToken_same | exact Hset | exact Et]. }
      exists out. split; [exact E |]. split; [exact Hout |].
      intros x. rewrite Hin. split.
      * intros [H | [H1 H2]].
        -- apply setAdd_In in H. destruct H as [H | ->]; [now left |].
           right. split; [exact Et | now left].
        -- right. split; [exact H1 | now right].
      * intros [H | [H1 [<- | H2]]].
        -- left. now apply setAdd_keeps.
        -- left. destruct (setAdd_has uniqueSet t (isToken_same t Et))
             as [H | [w [Hw Hs]]]; [exact H |].
           apply setAdd_keeps. now rewrite <- (same_token t w Et Hs).
        -- right. now split.
    + destruct (IH uniqueSet Hset) as [out [E [Hout Hin]]].
      exists out. split; [exact E |]. split; [exact Hout |].
      intros x. rewrite Hin. split.
      * intros [H | [H1 H2]]; [now left |].
        right. split; [exact H1 | now right].
      * intros [H | [H1 [<- | H2]]]; [now left | congruence |].
        right. now split.
Qed.

(** The outer loop, for a parser that returns tokens and inherited
    members only. *)
Lemma collectFrom (parseFunction : value -> result (list value))
    (values : list value) :
  (forall v, exists tokens,
      parseFunction v = ret tokens
      /\ Forall (fun t => isToken t = true \/ isInherited t = true) tokens) ->
  forall uniqueSet,
    setOf isToken uniqueSet ->
    exists out,
      forEach (fun uniqueSet value =>
                 parsed <- parseFunction value ;;
                 forEach keepItem parsed uniqueSet) values uniqueSet
      = ret out
      /\ setOf isToken out
      /\ (forall x, In x out <->
                    In x uniqueSet
                    \/ (isToken x = true
                        /\ exists v tokens,
                             In v values /\ parseFunction v = ret tokens
                             /\ In x tokens)).
Proof.
  intros Hp. induction values as [| v values IH]; intros uniqueSet Hset.
  - exists uniqueSet. split; [reflexivity |]. split; [exact Hset |].
    intros x. split; [intros H; now left |].
    intros [H | [_ [v [tokens [[] _]]]]]. exact H.
  - cbn [forEach]. destruct (Hp v) as [tokens [Ev Htok]]. rewrite Ev.
    cbn [bind].
    destruct (keepItems tokens Htok uniqueSet Hset) as [mid [-> [Hmid Hin1]]].
    cbn [bind].
    destruct (IH mid Hmid) as [out [E [Hout Hin]]].
    exists out. split; [exact E |]. split; [exact Hout |].
    intros x. rewrite Hin, Hin1. split.
    + intros [[H | [H1 H2]] | [H1 [v' [tk [Hv' [Etk Hx]]]]]].
      * now left.
      * right. split; [exact H1 |]. exists v, tokens. repeat split; auto.
        now left.
      * right. split; [exact H1 |]. exists v', tk. repeat split; auto.
        now right.
    + intros [H | [H1 [v' [tk [[<- | Hv'] [Etk Hx]]]]]].
      * left; now left.
      * left; right. split; [exact H1 |].
        rewrite Ev in Etk. injection Etk as <-. exact Hx.
      * right. split; [exact H1 |]. exists v', tk. now repeat split.
Qed.

Lemma parseFunctionOf_items (fieldType : option jsstring) (v : value) :
  exists tokens,
    parseFunctionOf fieldType v = ret tokens
    /\ Forall (fun t => isToken t = true \/ isInherited t = true) tokens.
Proof.
  assert (Hl : exists tokens,
             parseLanguageValue v = ret tokens
             /\ Forall (fun t => isToken t = true \/ isInherited t = true)
                  tokens).
  { destruct (parseLanguageValue_tokens v) as [tokens [E [Hall _]]].
    exists tokens. split; [exact E |].
    apply Forall_forall. intros t Ht. rewrite Forall_forall in Hall.
    left. now apply Hall. }
  unfold parseFunctionOf. destruct fieldType as [t |]; [| exact Hl].
  destruct (JsString.eqb t (lit "tradition")); [| exact Hl].
  destruct (parseTraditionValue_tokens v) as [tokens [E [Hall _]]].
  exists tokens. split; [exact E |].
  apply Forall_forall. intros x Hx. rewrite Forall_forall in Hall.
  specialize (Hall x Hx). unfold isTraditionItem in Hall.
  now apply orb_true_iff in Hall.
Qed.

(** ** The sort *)

Lemma tokens_texts (l : list value) :
  Forall (fun t => isToken t = true) l ->
  exists names, l = map VString names.
Proof.
  induction 1 as [| x l Hx _ [names ->]]; [now exists [] |].
  destruct (isToken_text x Hx) as [s ->]. now exists (s :: names).
Qed.

Lemma insertSorted_texts (x : jsstring) (names : list jsstring) :
  insertSorted (compareItems numberToString localeCompare) (VString x)
    (map VString names)
  = ret (map VString (insertText localeCompare x names)).
Proof.
  induction names as [| y tl IH]; [reflexivity |].
  cbn [map insertSorted insertText compareItems Projector.toStr bind].
  destruct (localeCompare y x <=? 0)%Z; [| reflexivity].
  rewrite IH. reflexivity.
Qed.

Lemma sortWith_texts (names : list jsstring) :
  sortWith (compareItems numberToString localeCompare) (map VString names)
  = ret (map VString (sortTexts localeCompare names)).
Proof.
  unfold sortWith, sortTexts.
  assert (H : forall acc,
             forEach (fun sorted x =>
                        insertSorted
                          (compareItems numberToString localeCompare)
                          x sorted)
               (map VString names) (map VString acc)
             = ret (map VString
                      (fold_left (fun sorted x =>
                                    insertText localeCompare x sorted)
                         names acc))).
  { induction names as [| x tl IH]; intros acc; [reflexivity |].
    cbn [map forEach fold_left]. rewrite insertSorted_texts. cbn [bind].
    apply IH. }
  exact (H []).
Qed.

Lemma insertText_perm (x : jsstring) (names : list jsstring) :
  Permutation (x :: names) (insertText localeCompare x names).
Proof.
  induction names as [| y tl IH]; [apply Permutation_refl |].
  cbn [insertText]. destruct (localeCompare y x <=? 0)%Z.
  - eapply Permutation_trans; [apply perm_swap |].
    now apply perm_skip.
  - apply Permutation_refl.
Qed.

Lemma sortTexts_perm (names : list jsstring) :
  Permutation names (sortTexts localeCompare names).
Proof.
  unfold sortTexts.
  assert (H : forall acc,
             Permutation (names ++ acc)
               (fold_left (fun sorted x => insertText localeCompare x sorted)
                  names acc)).
  { induction names as [| x tl IH]; intros acc; [apply Permutation_refl |].
    cbn [fold_left app].
    eapply Permutation_trans; [| apply IH].
    eapply Permutation_trans; [apply Permutation_middle |].
    apply Permutation_app_head. apply insertText_perm. }
  specialize (H []). now rewrite app_nil_r in H.
Qed.

Section Ordered.

Hypothesis total :
  forall a b, (localeCompare a b <= 0 \/ localeCompare b a <= 0)%Z.
Hypothesis transitive :
  forall a b c,
    (localeCompare a b <= 0)%Z -> (localeCompare b c <= 0)%Z ->
    (localeCompare a c <= 0)%Z.

Local Abbreviation notAfter := (fun a b => (localeCompare a b <= 0)%Z).

Lemma insertText_sorted (x : jsstring) (names : list jsstring) :
  StronglySorted notAfter names ->
  StronglySorted notAfter (insertText localeCompare x names).
Proof.
  induction 1 as [| y tl Hs IH Hy]; cbn [insertText].
  - constructor; constructor.
  - destruct (Z.leb_spec (localeCompare y x) 0) as [Hle | Hgt].
    + constructor; [exact IH |].
      apply Forall_forall. intros z Hz.
      apply (Permutation_in _ (Permutation_sym (insertText_perm x tl)))
        in Hz.
      destruct Hz as [<- | Hz]; [exact Hle |].
      rewrite Forall_forall in Hy. now apply Hy.
    + assert (Hxy : (localeCompare x y <= 0)%Z)
        by (destruct (total x y) as [H | H]; [exact H | lia]).
      constructor; [now constructor |].
      constructor; [exact Hxy |].
      apply Forall_forall. intros z Hz. rewrite Forall_forall in Hy.
      exact (transitive x y z Hxy (Hy z Hz)).
Qed.

Lemma sortTexts_sorted (names : list jsstring) :
  StronglySorted notAfter (sortTexts localeCompare names).
Proof.
  unfold sortTexts.
  assert (H : forall acc,
             StronglySorted notAfter acc ->
             StronglySorted notAfter
               (fold_left (fun sorted x => insertText localeCompare x sorted)
                  names acc)).
  { induction names as [| x tl IH]; intros acc Hacc; [exact Hacc |].
    cbn [fold_left]. apply IH. now apply insertText_sorted. }
  apply H. constructor.
Qed.

End Ordered.

Lemma extractUniqueValues_texts (values : list value)
    (fieldType : option jsstring) :
  exists names,
    extractUniqueValues numberToString localeCompare values fieldType
    = ret (map VString (sortTexts localeCompare names))
    /\ NoDup names
    /\ (forall s,
          In s names <->
          (2 <= List.length s)%nat
          /\ exists v tokens,
               In v values
               /\ parseFunctionOf fieldType v = ret tokens
               /\ In (VString s) tokens).
Proof.
  unfold extractUniqueValues, collectUnique.
  destruct (collectFrom (parseFunctionOf fieldType) values
              (parseFunctionOf_items fieldType) [])
    as [out [-> [[Hall Hnd] Hin]]]; [split; constructor |].
  destruct (tokens_texts out Hall) as [names ->].
  cbn [bind]. rewrite sortWith_texts.
  exists names. split; [reflexivity |]. split.
  - clear Hin Hall. induction names as [| x tl IH]; [constructor |].
    cbn [map] in Hnd. inversion Hnd as [| ? ? Hx Htl]; subst.
    constructor; [| now apply IH].
    intros Hx'. apply Hx. now apply in_map.
  - intros s. split.
    + intros Hs. apply (in_map VString) in Hs. apply Hin in Hs.
      destruct Hs as [[] | [Ht Hv]]. split; [| exact Hv].
      cbn [isToken] in Ht. now apply Nat.leb_le.
    + intros [Hlen Hv].
      assert (Hs : In (VString s) (map VString names)).
      { apply Hin. right. split; [| exact Hv].
        cbn [isToken]. now apply Nat.leb_le. }
      apply in_map_iff in Hs. destruct Hs as [s' [E Hs']].
      injection E as ->. exact Hs'.
Qed.

End Extractor.

Lemma compareCodeUnits_total (a b : jsstring) :
  (compareCodeUnits a b <= 0 \/ compareCodeUnits b a <= 0)%Z.
Proof.
  revert b. induction a as [| x a IH]; intros [| y b];
    cbn [compareCodeUnits]; try lia.
  rewrite (N.compare_antisym x y).
  destruct (N.compare x y); cbn [CompOpp]; try lia. apply IH.
Qed.

Lemma compareCodeUnits_transitive (a b c : jsstring) :
  (compareCodeUnits a b <= 0)%Z -> (compareCodeUnits b c <= 0)%Z ->
  (compareCodeUnits a c <= 0)%Z.
Proof.
  revert b c. induction a as [| x a IH]; intros [| y b] [| z c];
    cbn [compareCodeUnits]; try lia.
  destruct (N.compare_spec x y) as [Exy | Hxy | Hxy];
    destruct (N.compare_spec y z) as [Eyz | Hyz | Hyz];
    destruct (N.compare_spec x z) as [Exz | Hxz | Hxz];
    try lia.
  apply IH.
Qed.

(** X10: the list of filter options drawn from stored values, of either
    kind: the extractor never throws; its result holds texts only, each
    of at least two code units and none twice; and a text is in it
    exactly when it has at least two code units and is a token the
    parser of that kind returns for one of the values.  Null values,
    values that are not texts and the members a parser takes from
    [Object.prototype] leave no trace in it. *)
Theorem X10_filter_options_are_the_tokens
    (numberToString : Q -> jsstring)
    (localeCompare : jsstring -> jsstring -> Z)
    (values : list value) (fieldType : option jsstring) :
  exists names,
    extractUniqueValues numberToString localeCompare values fieldType
    = ret (map VString names)
    /\ NoDup names
    /\ (forall s,
          In s names <->
          (2 <= List.length s)%nat
          /\ exists v tokens,
               In v values
               /\ parseFunctionOf fieldType v = ret tokens
               /\ In (VString s) tokens).
Proof.
  destruct (extractUniqueValues_texts numberToString localeCompare values
              fieldType) as [names [E [Hnd Hin]]].
  pose proof (sortTexts_perm localeCompare names) as Hp.
  exists (sortTexts localeCompare names). split; [exact E |]. split.
  - exact (Permutation_NoDup Hp Hnd).
  - intros s. rewrite <- Hin. split; intros H.
    + exact (Permutation_in s (Permutation_sym Hp) H).
    + exact (Permutation_in s Hp H).
Qed.

(** X11: when the comparison of the host is a total preorder on texts,
    the list of filter options is in ascending order under it. *)
Theorem X11_filter_options_sorted
    (numberToString : Q -> jsstring)
    (localeCompare : jsstring -> jsstring -> Z)
    (values : list value) (fieldType : option jsstring)
    (names : list jsstring) :
  (forall a b, (localeCompare a b <= 0 \/ localeCompare b a <= 0)%Z) ->
  (forall a b c,
      (localeCompare a b <= 0)%Z -> (localeCompare b c <= 0)%Z ->
      (localeCompare a c <= 0)%Z) ->
  extractUniqueValues numberToString localeCompare values fieldType
  = ret (map VString names) ->
  StronglySorted (fun a b => (localeCompare a b <= 0)%Z) names.
Proof.
  intros Htot Htrans E.
  destruct (extractUniqueValues_texts numberToString localeCompare values
              fieldType) as [names' [E' _]].
  rewrite E' in E. injection E as E.
  assert (Hn : sortTexts localeCompare names' = names).
  { revert E. generalize (sortTexts localeCompare names').
    intros l. revert names. induction l as [| x l IH]; intros [| y names] H;
      try discriminate H; [reflexivity |].
    cbn [map] in H. injection H as -> H. f_equal. now apply IH. }
  rewrite <- Hn. now apply sortTexts_sorted.
Qed.

(** The options drawn from three stored language values, under the order
    of code units. *)
Lemma X11_filter_options_sorted_witness :
  extractUniqueValues showInteger compareCodeUnits
    [ VString (lit "Hindi, Sanskrit"); VString (lit "hindi"); VNull;
      VString (lit "Tamil/bangla") ] None
  = ret (map VString [lit "Bengali"; lit "Hindi"; lit "Sanskrit";
                      lit "Tamil"])
  /\ StronglySorted (fun a b => (compareCodeUnits a b <= 0)%Z)
       [lit "Bengali"; lit "Hindi"; lit "Sanskrit"; lit "Tamil"].
Proof.
  split; [vm_compute; reflexivity |].
  apply (X11_filter_options_sorted showInteger compareCodeUnits
           [ VString (lit "Hindi, Sanskrit"); VString (lit "hindi"); VNull;
             VString (lit "Tamil/bangla") ] None).
  - exact compareCodeUnits_total.
  - exact compareCodeUnits_transitive.
  - vm_compute. reflexivity.
Defined.

(** * Contributions *)

Import Contribution.

Lemma checkField_reading (props : list (jsstring * value))
    (errors : list jsstring) (field : jsstring) :
  checkField (VObject props) errors field
  = ret (errors ++ (if fieldOk props field then [] else [fieldError field])).
Proof.
  unfold checkField, fieldOk. cbn [getProp bind].
  destruct (lookup props field) as [| | b | q | s | xs | ps | b];
    cbn [truthy negb isString callTrim bind]; try reflexivity;
    try (destruct b; reflexivity).
  - destruct (negb (Qeq_bool q 0)); reflexivity.
  - destruct s as [| c s]; cbn [negb]; [reflexivity |].
    destruct (nonEmpty (trim (c :: s))); cbn [negb];
      [now rewrite app_nil_r | reflexivity].
Qed.

Lemma checkFields_reading (props : list (jsstring * value))
    (fields : list jsstring) :
  forall errors,
    forEach (checkField (VObject props)) fields errors
    = ret (errors
             ++ map fieldError
                  (List.filter (fun f => negb (fieldOk props f)) fields)).
Proof.
  induction fields as [| f fields IH]; intros errors; cbn [forEach].
  - now rewrite app_nil_r.
  - rewrite checkField_reading. cbn [bind]. rewrite IH.
    cbn [List.filter]. destruct (fieldOk props f); cbn [negb map].
    + now rewrite app_nil_r.
    + now rewrite <- app_assoc.
Qed.

Lemma validate_reading (props : list (jsstring * value)) :
  validateContributionBody (VObject props) = ret (expectedErrors props).
Proof.
  unfold validateContributionBody, expectedErrors, placesOk.
  rewrite checkFields_reading. cbn [bind getProp app].
  destruct (truthy (lookup props (lit "places"))); cbn [negb andb];
    [| reflexivity].
  destruct (Projector.isObjectType (lookup props (lit "places")));
    cbn [negb]; [now rewrite app_nil_r | reflexivity].
Qed.

Lemma filter_nil_all {A : Type} (p : A -> bool) (l : list A) :
  List.filter p l = [] <-> forall x, In x l -> p x = false.
Proof.
  induction l as [| a l IH]; cbn [List.filter].
  - split; [intros _ x [] | reflexivity].
  - destruct (p a) eqn:E.
    + split; [discriminate |]. intros H.
      rewrite (H a (or_introl eq_refl)) in E. discriminate E.
    + rewrite IH. split.
      * intros H x [<- | Hx]; [exact E | now apply H].
      * intros H x Hx. apply H. now right.
Qed.

(** X12: the validation of a contribution.  The messages returned are,
    in the order of the required fields, one message for each required
    field that is missing, not a text, or white space only, followed by
    the message about the places when that member is missing or not an
    object; the body is accepted, with no message, exactly when all ten
    fields are texts with more than white space and the places are an
    object. *)
Theorem X12_validation_messages (props : list (jsstring * value)) :
  validateContributionBody (VObject props) = ret (expectedErrors props)
  /\ (validateContributionBody (VObject props) = ret []
      <-> (forall f, In f requiredFields -> fieldOk props f = true)
          /\ placesOk props = true).
Proof.
  split; [apply validate_reading |].
  rewrite validate_reading. unfold expectedErrors.
  generalize requiredFields. intros fields. split.
  - intros H.
    assert (H' : map fieldError
                   (List.filter (fun f => negb (fieldOk props f)) fields)
                 ++ (if placesOk props then [] else [placesError]) = [])
      by congruence.
    apply app_eq_nil in H'. destruct H' as [H1 H2]. split.
    + apply map_eq_nil in H1.
      pose proof (proj1 (filter_nil_all _ _) H1) as H1'.
      intros f Hf. specialize (H1' f Hf). now apply negb_false_iff in H1'.
    + destruct (placesOk props); [reflexivity | discriminate H2].
  - intros [H1 H2]. rewrite H2, app_nil_r. f_equal.
    assert (H : List.filter (fun f => negb (fieldOk props f)) fields = []).
    { apply filter_nil_all. intros f Hf. now rewrite (H1 f Hf). }
    now rewrite H.
Qed.

(** ** The places of a contribution *)

Lemma getProp_prop (v : value) (k : jsstring) :
  v <> VNull -> v <> VUndefined -> getProp v k = ret (prop v k).
Proof.
  intros H1 H2. unfold prop.
  destruct v as [| | b | q | s | xs | props | b]; try contradiction;
    cbn [getProp]; try reflexivity.
  - destruct (JsString.eqb k (lit "length")); reflexivity.
  - destruct (JsString.eqb k (lit "length")); reflexivity.
  - destruct b as [| | n a]; try reflexivity;
      destruct (JsString.eqb k (lit "length")); try reflexivity;
      destruct (JsString.eqb k (lit "name")); reflexivity.
Qed.

Lemma truthy_defined (v : value) :
  truthy v = true -> v <> VNull /\ v <> VUndefined.
Proof.
  destruct v; intros H; try discriminate H; split; discriminate.
Qed.

Lemma getProp_of_truthy (v : value) (k : jsstring) :
  truthy v = true -> getProp v k = ret (prop v k).
Proof.
  intros H. destruct (truthy_defined v H). now apply getProp_prop.
Qed.

Section Geocoding.

Variable geocodePlace : nat -> value -> option geoData.

(** One place: it is stored when it has a name, with the pair it came
    with or else what the geocoder gives; the geocoder is asked only in
    the second case. *)
Lemma processPlace_reading (calls : nat) (placeObj : value) :
  exists v,
    processPlace geocodePlace calls placeObj
    = ret (v, calls + (if needsGeocoding placeObj then 1 else 0))%nat
    /\ truthy v = namedPlace placeObj
    /\ (v = VNull \/ isStoredPlace v = true).
Proof.
  unfold processPlace, needsGeocoding, namedPlace.
  destruct (truthy placeObj) eqn:Ht; cbn [negb andb].
  2:{ exists VNull. rewrite Nat.add_0_r. repeat split. now left. }
  rewrite !(getProp_of_truthy placeObj _ Ht). cbn [bind].
  destruct (truthy (prop placeObj (lit "name"))) eqn:Hn; cbn [negb andb].
  2:{ exists VNull. rewrite Nat.add_0_r. repeat split. now left. }
  destruct (prop placeObj (lit "coords")) as [| | b | q | s | xs | ps | b]
    eqn:Ec; cbn [isArray hasPair bind truthy negb];
    try (destruct (geocodePlace calls (prop placeObj (lit "name")))
           as [geo |]; cbn [bind]; eexists;
         (split; [rewrite Nat.add_1_r; reflexivity |]);
         (split; [reflexivity |]); right; cbn [isStoredPlace];
         rewrite Hn; reflexivity).
  cbn [getProp].
  change (JsString.eqb (lit "length") (lit "length")) with true.
  cbn [bind]. rewrite strictEqNat_fromNat.
  destruct xs as [| a [| b [| c xs]]];
    cbn [List.length Nat.eqb bind truthy negb];
    try (destruct (geocodePlace calls (prop placeObj (lit "name")))
           as [geo |]; cbn [bind]; eexists;
         (split; [rewrite Nat.add_1_r; reflexivity |]);
         (split; [reflexivity |]); right; cbn [isStoredPlace];
         rewrite Hn; reflexivity).
  eexists. split; [rewrite Nat.add_0_r; reflexivity |].
  split; [reflexivity |]. right. cbn [isStoredPlace]. rewrite Hn. reflexivity.
Qed.

(** An array of places: the named ones are stored, in their order. *)
Lemma processEach_reading (xs : list value) :
  forall (acc : list value) (calls : nat),
    forallb isStoredPlace acc = true ->
    exists out,
      forEach (processEach geocodePlace) xs (acc, calls)
      = ret (out,
             calls + List.length (List.filter needsGeocoding xs))%nat
      /\ forallb isStoredPlace out = true
      /\ List.length out
         = (List.length acc + List.length (List.filter namedPlace xs))%nat.
Proof.
  induction xs as [| x xs IH]; intros acc calls Hacc.
  - exists acc. cbn [forEach List.filter List.length].
    rewrite !Nat.add_0_r. auto.
  - cbn [forEach processEach].
    destruct (processPlace_reading calls x) as [v [-> [Ht Hv]]].
    cbn [bind]. cbn [List.filter].
    destruct (truthy v) eqn:Etv.
    + destruct Hv as [-> | Hv]; [discriminate Etv |].
      destruct (IH (acc ++ [v])
                  (calls + (if needsGeocoding x then 1 else 0))%nat)
        as [out [-> [Hout Hlen]]].
      { rewrite forallb_app, Hacc. cbn [forallb]. now rewrite Hv. }
      exists out. rewrite <- Ht. split; [| split; [exact Hout |]].
      * f_equal. f_equal.
        destruct (needsGeocoding x); cbn [List.length]; lia.
      * rewrite Hlen, length_app. cbn [List.length]. lia.
    + destruct (IH acc (calls + (if needsGeocoding x then 1 else 0))%nat
                  Hacc) as [out [-> [Hout Hlen]]].
      exists out. rewrite <- Ht. split; [| split; [exact Hout |]].
      * f_equal. f_equal.
        destruct (needsGeocoding x); cbn [List.length]; lia.
      * exact Hlen.
Qed.

(** One category of places. *)
Lemma geocodeType_reading (places : value)
    (geocodedPlaces : list (jsstring * value)) (calls : nat)
    (type : jsstring) :
  places <> VNull -> places <> VUndefined ->
  exists v,
    geocodeType geocodePlace places (geocodedPlaces, calls) type
    = ret (geocodedPlaces ++ [(type, v)],
           calls + geocodings (prop places type))%nat
    /\ isStoredSlot v = true.
Proof.
  intros H1 H2. unfold geocodeType.
  rewrite (getProp_prop places type H1 H2). cbn [bind].
  destruct (truthy (prop places type)) eqn:Ht; cbn [negb].
  2:{ exists VNull. split; [| reflexivity].
      assert (Hg : geocodings (prop places type) = 0%nat).
      { unfold geocodings, needsGeocoding, namedPlace.
        destruct (prop places type); try discriminate Ht;
          now rewrite ?Ht. }
      now rewrite Hg, Nat.add_0_r. }
  destruct (prop places type) as [| | b | q | s | xs | ps | b] eqn:Ep;
    try discriminate Ht;
    try (match goal with
         | |- context [processPlace geocodePlace calls ?x] =>
             destruct (processPlace_reading calls x) as [v [-> [Hn Hv]]]
         end;
         cbn [bind]; exists v; split; [reflexivity |];
         destruct Hv as [-> | Hv]; [reflexivity |];
         destruct v; try discriminate Hv; exact Hv).
  destruct (processEach_reading xs [] calls eq_refl) as [out [-> [Hout _]]].
  cbn [bind]. eexists. split; [reflexivity |].
  destruct out as [| o out]; [reflexivity |].
  cbn [nonEmptyList isStoredSlot]. exact Hout.
Qed.

(** The places the server stores for a contribution. *)
Lemma normalizeAndGeocodePlaces_reading (places : value) (calls : nat) :
  places <> VNull ->
  exists birth samadhi,
    normalizeAndGeocodePlaces geocodePlace places calls
    = ret (VObject [(lit "birth", birth); (lit "samadhi", samadhi)],
           calls
           + geocodings (prop (orEmptyObject places) (lit "birth"))
           + geocodings (prop (orEmptyObject places) (lit "samadhi")))%nat
    /\ isStoredSlot birth = true
    /\ isStoredSlot samadhi = true.
Proof.
  intros Hnull. unfold normalizeAndGeocodePlaces.
  set (places' := orEmptyObject places).
  assert (H1 : places' <> VNull)
    by (subst places'; destruct places; cbn; congruence).
  assert (H2 : places' <> VUndefined)
    by (subst places'; destruct places; cbn; congruence).
  unfold placeTypes. cbn [forEach].
  destruct (geocodeType_reading places' [] calls (lit "birth") H1 H2)
    as [b [-> Hb]].
  cbn [bind app].
  destruct (geocodeType_reading places' [(lit "birth", b)]
              (calls + geocodings (prop places' (lit "birth")))%nat
              (lit "samadhi") H1 H2) as [sm [-> Hs]].
  cbn [bind app]. exists b, sm. auto.
Qed.

End Geocoding.



(** ** The document of an accepted contribution *)

Lemma trimmedField_reading (props : list (jsstring * value))
    (field : jsstring) :
  fieldOk props field = true ->
  exists s,
    lookup props field = VString s
    /\ trim s <> []
    /\ trimmedField (VObject props) field = ret (VString (trim s)).
Proof.
  unfold fieldOk, trimmedField. cbn [getProp bind].
  destruct (lookup props field) as [| | | | s | | |]; try discriminate.
  intros H. exists s. split; [reflexivity |]. split; [| reflexivity].
  intros E. rewrite E in H. discriminate H.
Qed.

Lemma optionalField_reading (props : list (jsstring * value))
    (field : jsstring) :
  optionalField (VObject props) field
  = if optionalOk props field
    then ret (storedOptional (lookup props field))
    else Throw TypeError.
Proof.
  unfold optionalField, optionalOk, storedOptional. cbn [getProp bind].
  destruct (lookup props field) as [| | b | q | s | xs | ps | b];
    cbn [truthy negb isString orb callTrim bind]; try reflexivity.
  - destruct b; reflexivity.
  - destruct (negb (Qeq_bool q 0)); reflexivity.
  - destruct s; reflexivity.
Qed.

Section Handler.

Variable geocodePlace : nat -> value -> option geoData.
Variables contributedAt updatedAt : value.

Local Abbreviation handler :=
  (contribute geocodePlace contributedAt updatedAt).

Lemma accepted_fields (props : list (jsstring * value)) :
  validateContributionBody (VObject props) = ret [] ->
  (forall f, In f requiredFields -> fieldOk props f = true)
  /\ placesOk props = true.
Proof.
  rewrite validate_reading. unfold expectedErrors.
  generalize requiredFields. intros fields H.
  assert (H' : map fieldError
                 (List.filter (fun f => negb (fieldOk props f)) fields)
               ++ (if placesOk props then [] else [placesError]) = [])
    by congruence.
  apply app_eq_nil in H'. destruct H' as [H1 H2]. split.
  - apply map_eq_nil in H1.
    pose proof (proj1 (filter_nil_all _ _) H1) as H1'.
    intros f Hf. specialize (H1' f Hf). now apply negb_false_iff in H1'.
  - destruct (placesOk props); [reflexivity | discriminate H2].
Qed.

Ltac required f :=
  let s := fresh "s" in
  let Hs := fresh "Hs" in
  let Ht := fresh "Ht" in
  let E := fresh "E" in
  match goal with
  | Hreq : forall f, In f requiredFields -> fieldOk _ f = true |- _ =>
      destruct (trimmedField_reading _ (lit f)
                  (Hreq (lit f) ltac:(vm_compute; tauto)))
        as [s [Hs [Ht E]]];
      rewrite E; cbn [bind]
  end.

(** The handler on a body that passes the validation: the document it
    hands to the store, or the failure on an optional member that is
    neither left out nor a text. *)
Lemma handler_reading (props : list (jsstring * value)) (calls : nat) :
  validateContributionBody (VObject props) = ret [] ->
  exists places calls' doc,
    normalizeAndGeocodePlaces geocodePlace (lookup props (lit "places"))
      calls = ret (places, calls')
    /\ handler (VObject props) calls
       = (if forallb (optionalOk props) optionalFields
          then ret (Stored (VObject doc), calls')
          else Throw TypeError)
    /\ map fst doc = documentKeys
    /\ assoc (lit "places") doc = Some places
    /\ (forall f, In f requiredFields ->
          exists s, lookup props f = VString s
                    /\ trim s <> []
                    /\ assoc f doc = Some (VString (trim s)))
    /\ (forall f, In f optionalFields ->
          assoc f doc = Some (storedOptional (lookup props f)))
    /\ assoc (lit "sufi") doc
       = Some (VBool (truthy (lookup props (lit "sufi"))))
    /\ assoc (lit "contributedAt") doc = Some contributedAt
    /\ assoc (lit "updatedAt") doc = Some updatedAt.
Proof.
  intros Hv. destruct (accepted_fields props Hv) as [Hreq Hpl].
  unfold placesOk in Hpl. apply andb_true_iff in Hpl.
  destruct Hpl as [Hpt _].
  destruct (normalizeAndGeocodePlaces_reading geocodePlace
              (lookup props (lit "places")) calls) as [b [sm [En _]]].
  { intros E. rewrite E in Hpt. discriminate Hpt. }
  eexists. eexists.
  unfold contribute. cbn [Projector.orElse truthy]. rewrite Hv.
  cbn [bind List.length Nat.ltb Nat.leb getProp]. rewrite En.
  cbn [bind].
  required "saint"%string. required "tradition"%string.
  required "period"%string. required "startYear"%string.
  required "endYear"%string. required "traditionType"%string.
  rewrite !optionalField_reading.
  required "birthPlace"%string. required "gender"%string.
  required "language"%string. required "philosophy"%string.
  set (texts := match lookup props (lit "texts") with
                | VArray _ => lookup props (lit "texts")
                | v => if truthy v then VArray [v] else VArray []
                end).
  exists [ (lit "saint", VString (trim s));
           (lit "tradition", VString (trim s0));
           (lit "places",
              VObject [(lit "birth", b); (lit "samadhi", sm)]);
           (lit "period", VString (trim s1));
           (lit "startYear", VString (trim s2));
           (lit "endYear", VString (trim s3));
           (lit "traditionType", VString (trim s4));
           (lit "school", storedOptional (lookup props (lit "school")));
           (lit "presidingDeity",
              storedOptional (lookup props (lit "presidingDeity")));
           (lit "sufi", VBool (truthy (lookup props (lit "sufi"))));
           (lit "birthPlace", VString (trim s5));
           (lit "deathPlace",
              storedOptional (lookup props (lit "deathPlace")));
           (lit "gender", VString (trim s6));
           (lit "language", VString (trim s7));
           (lit "texts", texts);
           (lit "philosophy", VString (trim s8));
           (lit "contributedAt", contributedAt);
           (lit "updatedAt", updatedAt) ].
  split; [reflexivity |]. split.
  - unfold optionalFields. cbn [map forallb].
    destruct (optionalOk props (lit "school")); cbn [bind andb];
      [| reflexivity].
    destruct (optionalOk props (lit "presidingDeity")); cbn [bind andb];
      [| reflexivity].
    destruct (optionalOk props (lit "deathPlace")); cbn [bind andb];
      [| reflexivity].
    subst texts.
    destruct (lookup props (lit "texts")) as [| | bb | q | t | xs | ps | bb];
      cbn [isArray bind truthy]; try reflexivity.
    + destruct bb; reflexivity.
    + destruct (negb (Qeq_bool q 0)); reflexivity.
    + destruct t; reflexivity.
  - split; [reflexivity |]. split; [reflexivity |]. split.
    + intros f Hf. unfold requiredFields in Hf. cbn [map In] in Hf.
      repeat (destruct Hf as [<- | Hf];
              [eexists; split; [eassumption | split; [assumption |
                 reflexivity]] |]).
      destruct Hf.
    + split.
      * intros f Hf. unfold optionalFields in Hf. cbn [map In] in Hf.
        repeat (destruct Hf as [<- | Hf]; [reflexivity |]).
        destruct Hf.
      * repeat split; reflexivity.
Qed.

End Handler.



(** X15: a body that passes the validation and carries a school, a
    presidingDeity or a deathPlace that is neither falsy nor a text (a
    number other than zero, an array, an object, true) makes the handler
    throw a TypeError: these members are trimmed without having been
    validated. *)
Theorem X15_unvalidated_optional_member
    (geocodePlace : nat -> value -> option geoData)
    (contributedAt updatedAt : value)
    (props : list (jsstring * value)) (calls : nat) (f : jsstring) :
  validateContributionBody (VObject props) = ret [] ->
  In f optionalFields ->
  optionalOk props f = false ->
  contribute geocodePlace contributedAt updatedAt (VObject props) calls
  = Throw TypeError.
Proof.
  intros Hv Hf Hbad.
  destruct (handler_reading geocodePlace contributedAt updatedAt props calls
              Hv) as [places [calls' [doc [_ [H2 _]]]]].
  rewrite H2.
  assert (Hall : forallb (optionalOk props) optionalFields = false).
  { destruct (forallb (optionalOk props) optionalFields) eqn:E;
      [| reflexivity].
    rewrite forallb_forall in E. rewrite (E f Hf) in Hbad.
    discriminate Hbad. }
  now rewrite Hall.
Qed.

Lemma X15_unvalidated_optional_member_witness :
  contribute Cases.geocoder (VString (lit "t0")) (VString (lit "t1"))
    (VObject (Cases.fields [(lit "school", VNumber 5)])) 0
  = Throw TypeError.
Proof.
  apply (X15_unvalidated_optional_member Cases.geocoder
           (VString (lit "t0")) (VString (lit "t1"))
           (Cases.fields [(lit "school", VNumber 5)]) 0 (lit "school")).
  - vm_compute. reflexivity.
  - vm_compute. tauto.
  - vm_compute. reflexivity.
Defined.



(** ** From the form of the browser to the stored places *)

Lemma processPlaceInput_reading (input : jsstring) :
  processPlaceInput (VString input)
  = ret (if nonEmpty (trim input)
         then VObject [ (lit "name", VString (trim input));
                        (lit "coords", VNull); (lit "region", VNull) ]
         else VNull).
Proof.
  unfold processPlaceInput. destruct input as [| c tl]; [reflexivity |].
  cbn [truthy negb callTrim bind].
  destruct (nonEmpty (trim (c :: tl))); reflexivity.
Qed.

Lemma form_places_reading
    (geocodePlace : nat -> value -> option geoData)
    (birthInput deathInput : jsstring) (calls : nat) :
  exists places,
    submittedPlaces (VString birthInput) (VString deathInput) = ret places
    /\ normalizeAndGeocodePlaces geocodePlace places calls
       = ret (formPlaces (geocodePlace calls (VString (trim birthInput)))
                (trim birthInput),
              if nonEmpty (trim birthInput) then S calls else calls).
Proof.
  unfold submittedPlaces. rewrite !processPlaceInput_reading. cbn [bind].
  eexists. split; [reflexivity |].
  generalize (if nonEmpty (trim deathInput)
              then VObject [ (lit "name", VString (trim deathInput));
                             (lit "coords", VNull); (lit "region", VNull) ]
              else VNull).
  intros death.
  destruct (trim birthInput) as [| x t]; cbn [nonEmpty]; [reflexivity |].
  vm_compute.
  destruct (geocodePlace calls (VString (x :: t))); reflexivity.
Qed.

(** X17: the form of the browser sends its two place inputs under the
    names birth and death, and the server reads the names birth and
    samadhi.  So for every pair of inputs the places member that is
    stored holds the birth place only (geocoded with one call when the
    input is not blank, null otherwise); its samadhi is null, and what
    was typed as the place of death is in none of its places. *)
Theorem X17_form_death_place_is_dropped
    (geocodePlace : nat -> value -> option geoData)
    (birthInput deathInput : jsstring) (calls : nat) :
  exists places,
    submittedPlaces (VString birthInput) (VString deathInput) = ret places
    /\ normalizeAndGeocodePlaces geocodePlace places calls
       = ret (VObject
                [ (lit "birth",
                     if nonEmpty (trim birthInput)
                     then geocoded
                            (geocodePlace calls (VString (trim birthInput)))
                            (trim birthInput)
                     else VNull);
                  (lit "samadhi", VNull) ],
              if nonEmpty (trim birthInput) then S calls else calls).
Proof.
  apply form_places_reading.
Qed.

Lemma formPlaces_map (geo : option geoData) (birthName : jsstring) :
  formPlaces geo birthName = Spec.ofPlaces (formPlaceMap geo birthName).
Proof.
  unfold formPlaces, formPlaceMap, Spec.ofPlaces.
  destruct birthName as [| c tl]; [reflexivity |].
  destruct geo as [g |]; reflexivity.
Qed.

(** X18: from the form to the map.  A contribution made through the form
    and read back from the store gives one marker, of the category
    birth and at the coordinates the geocoder returned, when the birth
    place input is not blank and the geocoder finds it; in every other
    case it gives no marker, and it never gives a marker for the place
    of death. *)
Theorem X18_form_contribution_on_the_map
    (numberToString : Q -> jsstring) (randomSuffix : nat -> jsstring)
    (geocodePlace : nat -> value -> option geoData)
    (birthInput deathInput : jsstring) (calls calls' : nat)
    (submittedValue places : value)
    (props : list (jsstring * value)) (idText saintText : jsstring)
    (draws : nat) :
  submittedPlaces (VString birthInput) (VString deathInput)
  = ret submittedValue ->
  normalizeAndGeocodePlaces geocodePlace submittedValue calls
  = ret (places, calls') ->
  assoc (lit "places") props = Some places ->
  toStr numberToString (lookup props (lit "_id")) = ret idText ->
  toStr numberToString (lookup props (lit "saint")) = ret saintText ->
  exists markers,
    convertToMapMarkers numberToString randomSuffix (VObject props) draws
    = ret (markers, (draws + List.length markers)%nat)
    /\ map Spec.markerKey markers
       = match geocodePlace calls (VString (trim birthInput)) with
         | Some g =>
             if nonEmpty (trim birthInput)
             then [ (lit "birth", VString (trim birthInput),
                     VArray [VNumber (lat g); VNumber (lon g)]) ]
             else []
         | None => []
         end.
Proof.
  intros Hsub Hgeo Hplaces Hid Hsaint.
  destruct (form_places_reading geocodePlace birthInput deathInput calls)
    as [sub [E1 E2]].
  rewrite Hsub in E1. injection E1 as <-.
  rewrite Hgeo in E2. injection E2 as -> _.
  rewrite formPlaces_map in Hplaces.
  destruct (forEach_entries numberToString randomSuffix props idText saintText
              Hid Hsaint
              (formPlaceMap (geocodePlace calls (VString (trim birthInput)))
                 (trim birthInput)) [] draws) as [markers [Hrun Hkeys]].
  exists markers. split.
  - unfold convertToMapMarkers.
    cbn [getPropOpt getProp bind]. unfold lookup. rewrite Hplaces.
    unfold Spec.ofPlaces at 1 2. cbn [truthy negb isObjectType typeof bind].
    unfold Spec.ofPlaces. cbn [entries]. exact Hrun.
  - rewrite Hkeys. unfold formPlaceMap.
    destruct (trim birthInput) as [| c tl];
      destruct (geocodePlace calls _); reflexivity.
Qed.

Lemma X18_form_contribution_on_the_map_witness :
  exists markers,
    convertToMapMarkers showInteger Samples.draws
      (VObject [ (lit "_id", VString (lit "64f0c2a1"));
                 (lit "saint", VString (lit "Kabir"));
                 (lit "places",
                    formPlaces (Some Cases.varanasi) (lit "Varanasi")) ]) 0
    = ret (markers, (0 + List.length markers)%nat)
    /\ map Spec.markerKey markers
       = match Cases.geocoder 0 (VString (trim (lit " Varanasi "))) with
         | Some g =>
             if nonEmpty (trim (lit " Varanasi "))
             then [ (lit "birth", VString (trim (lit " Varanasi ")),
                     VArray [VNumber (lat g); VNumber (lon g)]) ]
             else []
         | None => []
         end.
Proof.
  apply (X18_form_contribution_on_the_map showInteger Samples.draws
           Cases.geocoder (lit " Varanasi ") (lit "Maghar") 0 1
           (VObject [ (lit "birth", Cases.place "Varanasi" VNull);
                      (lit "death", Cases.place "Maghar" VNull) ])
           (formPlaces (Some Cases.varanasi) (lit "Varanasi"))
           [ (lit "_id", VString (lit "64f0c2a1"));
             (lit "saint", VString (lit "Kabir"));
             (lit "places",
                formPlaces (Some Cases.varanasi) (lit "Varanasi")) ]
           (lit "64f0c2a1") (lit "Kabir") 0);
    vm_compute; reflexivity.
Defined.

(** * Markers of arbitrary documents *)

Import Response.

Lemma forEach_preserves {A S : Type} (f : S -> A -> result S)
    (P : S -> Prop) (xs : list A) :
  (forall acc x acc', In x xs -> P acc -> f acc x = ret acc' -> P acc') ->
  forall acc acc', P acc -> forEach f xs acc = ret acc' -> P acc'.
Proof.
  induction xs as [| x xs IH]; intros Hf acc acc' Hacc H; cbn [forEach] in H.
  - injection H as <-. exact Hacc.
  - destruct (f acc x) as [mid |] eqn:E; cbn [bind] in H;
      [| discriminate H].
    apply (IH (fun a y a' Hy => Hf a y a' (or_intror Hy)) mid acc');
      [| exact H].
    exact (Hf acc x mid (or_introl eq_refl) Hacc E).
Qed.

Lemma getProp_is_prop (v x : value) (k : jsstring) :
  getProp v k = ret x -> prop v k = x.
Proof.
  unfold prop. now intros ->.
Qed.

Section Markers.

Variable numberToString : Q -> jsstring.
Variable randomSuffix : nat -> jsstring.

Variable doc : value.
Variable draws : nat.

Local Abbreviation ok := (markersOk numberToString randomSuffix doc draws).

Ltac bound H :=
  match type of H with
  | bind ?c _ = ret _ =>
      let E := fresh "E" in
      destruct c eqn:E; cbn [bind] in H; [| discriminate H]
  end.

Lemma createMarker_ok (keys : list jsstring) (category : jsstring)
    (st st' : list marker * nat) (place : value) :
  In category keys ->
  ok keys st ->
  createMarker numberToString randomSuffix doc category st place = ret st' ->
  ok keys st'.
Proof.
  intros Hk Hst H. unfold createMarker in H.
  bound H.
  destruct (negb (truthy a)); [injection H as <-; exact Hst |].
  bound H. bound H.
  destruct (negb (strictEqNat a1 2)) eqn:Elen;
    [injection H as <-; exact Hst |].
  destruct st as [markers n].
  repeat bound H.
  injection H as <-.
  unfold markersOk in *. cbn [fst snd] in *.
  destruct Hst as [Hn [Hall Hid]].
  apply negb_false_iff in Elen.
  split; [| split].
  - rewrite length_app. cbn [List.length]. lia.
  - apply Forall_app. split; [exact Hall |].
    constructor; [| constructor]. cbn [fullData coords type].
    split; [reflexivity |]. split; [| exact Hk].
    unfold lengthIs2.
    match goal with
    | E : getProp ?c (lit "length") = ret _ |- context [getProp ?c _] =>
        rewrite E
    end.
    exact Elen.
  - intros i mk Hi.
    destruct (Nat.lt_ge_cases i (List.length markers)) as [Hlt | Hge].
    + rewrite nth_error_app1 in Hi by exact Hlt. exact (Hid i mk Hi).
    + rewrite nth_error_app2 in Hi by exact Hge.
      destruct (i - List.length markers)%nat as [| j] eqn:Ej.
      * cbn [nth_error] in Hi. injection Hi as <-. cbn [id type].
        replace (draws + i)%nat with n by lia.
        eexists. split; [| reflexivity].
        match goal with
        | E : getProp doc (lit "_id") = ret _ |- _ =>
            rewrite (getProp_is_prop _ _ _ E)
        end.
        assumption.
      * cbn [nth_error] in Hi. destruct j; discriminate Hi.
Qed.

Lemma placeEntry_ok (keys : list jsstring) (st st' : list marker * nat)
    (entry : jsstring * value) :
  In (fst entry) keys ->
  ok keys st ->
  placeEntry numberToString randomSuffix doc st entry = ret st' ->
  ok keys st'.
Proof.
  destruct entry as [category placeData]. cbn [fst].
  intros Hk Hst H. unfold placeEntry in H.
  destruct (negb (truthy placeData)); [injection H as <-; exact Hst |].
  destruct placeData as [| | b | q | s | xs | ps | b];
    try exact (createMarker_ok keys category st st' _ Hk Hst H).
  revert H. apply forEach_preserves; [| exact Hst].
  intros acc x acc' _ Hacc Hx.
  exact (createMarker_ok keys category acc acc' x Hk Hacc Hx).
Qed.

Lemma convertToMapMarkers_ok (st' : list marker * nat) :
  convertToMapMarkers numberToString randomSuffix doc draws = ret st' ->
  ok (map fst (entries (prop doc (lit "places")))) st'.
Proof.
  assert (H0 : forall keys, ok keys ([], draws)).
  { intros keys. unfold markersOk. cbn [fst snd List.length].
    split; [lia |]. split; [constructor |].
    intros [| i] mk Hi; discriminate Hi. }
  intros H. unfold convertToMapMarkers in H.
  bound H.
  destruct (negb (truthy a)); [injection H as <-; apply H0 |].
  bound H.
  destruct (negb (isObjectType a0)); [injection H as <-; apply H0 |].
  match goal with
  | E : getProp doc (lit "places") = ret _ |- _ =>
      rewrite (getProp_is_prop _ _ _ E)
  end.
  revert H. apply forEach_preserves; [| apply H0].
  intros acc x acc' Hx Hacc Hf.
  apply (placeEntry_ok _ acc acc' x); [| exact Hacc | exact Hf].
  now apply in_map.
Qed.

End Markers.

(** X19: the markers of any document, well formed or not.  Whenever the
    projector returns, each random draw it made gave one marker; every
    marker carries the whole document, coords whose length is 2 and a
    category that is a key of the places of the document; and the
    identifier of the i-th marker is the text of the document id, the
    category and the i-th draw of the run, joined by underscores. *)
Theorem X19_markers_of_any_document
    (numberToString : Q -> jsstring) (randomSuffix : nat -> jsstring)
    (doc : value) (draws : nat) (st : list marker * nat) :
  convertToMapMarkers numberToString randomSuffix doc draws = ret st ->
  markersOk numberToString randomSuffix doc draws
    (map fst (entries (prop doc (lit "places")))) st.
Proof.
  apply convertToMapMarkers_ok.
Qed.

Lemma X19_markers_of_any_document_witness :
  markersOk showInteger Samples.draws sampleRecord 0
    (map fst (entries (prop sampleRecord (lit "places"))))
    ([ MkMarker (lit "64f0c2a1_birth_k3x9q1a") (VString (lit "X"))
         (VArray [VNumber 1; VNumber 2]) (lit "birth")
         (VString (lit "Basava")) (VString (lit "Lingayat"))
         VUndefined VUndefined VUndefined VUndefined VUndefined VUndefined
         VUndefined (VArray []) VNull
         (lit "X " ++ popupDash ++ lit " birth of Basava") VNull
         sampleRecord ], 1%nat).
Proof.
  apply (X19_markers_of_any_document showInteger Samples.draws sampleRecord 0).
  vm_compute. reflexivity.
Defined.

(** ** The markers of a response *)

Section ResponseMarkers.

Variable numberToString : Q -> jsstring.
Variable randomSuffix : nat -> jsstring.


End ResponseMarkers.


